(** * find_duplicates.py: duplicate detection and relocation

    A shallow embedding of [src/find_duplicates.py]: the MD5 hasher, the
    directory scan that groups paths by digest, the relocation of all but the
    first path of each group, and the orchestration in [main] and in the
    command-line block.  The file system, standard output, the clock and the
    module-level global [source_dir] are threaded as explicit state. *)

From Stdlib Require Import ZArith List String Ascii Lia Bool.
From Stdlib.Strings Require Import Byte.
From stdpp Require Import base option list gmap strings pretty.
From Equations Require Import Equations.

Local Open Scope string_scope.
Local Open Scope list_scope.

(** ** hashlib.md5

    The digest of RFC 1321 on 32-bit words kept in [Z], every addition wrapped
    with [w32].  The object returned by [hashlib.md5()] accumulates the bytes
    passed to [update]; [hexdigest] is the digest of their concatenation. *)
Module MD5.
Local Open Scope Z_scope.

Definition w32 (x : Z) : Z := x mod 2 ^ 32.

Definition not32 (x : Z) : Z := Z.lxor x 0xffffffff.

Definition rotl (x c : Z) : Z :=
  w32 (Z.lor (Z.shiftl x c) (Z.shiftr x (32 - c))).

Definition S_tab : list Z :=
  [7; 12; 17; 22; 7; 12; 17; 22; 7; 12; 17; 22; 7; 12; 17; 22;
   5; 9; 14; 20; 5; 9; 14; 20; 5; 9; 14; 20; 5; 9; 14; 20;
   4; 11; 16; 23; 4; 11; 16; 23; 4; 11; 16; 23; 4; 11; 16; 23;
   6; 10; 15; 21; 6; 10; 15; 21; 6; 10; 15; 21; 6; 10; 15; 21].

Definition K_tab : list Z :=
  [0xd76aa478; 0xe8c7b756; 0x242070db; 0xc1bdceee;
   0xf57c0faf; 0x4787c62a; 0xa8304613; 0xfd469501;
   0x698098d8; 0x8b44f7af; 0xffff5bb1; 0x895cd7be;
   0x6b901122; 0xfd987193; 0xa679438e; 0x49b40821;
   0xf61e2562; 0xc040b340; 0x265e5a51; 0xe9b6c7aa;
   0xd62f105d; 0x02441453; 0xd8a1e681; 0xe7d3fbc8;
   0x21e1cde6; 0xc33707d6; 0xf4d50d87; 0x455a14ed;
   0xa9e3e905; 0xfcefa3f8; 0x676f02d9; 0x8d2a4c8a;
   0xfffa3942; 0x8771f681; 0x6d9d6122; 0xfde5380c;
   0xa4beea44; 0x4bdecfa9; 0xf6bb4b60; 0xbebfbc70;
   0x289b7ec6; 0xeaa127fa; 0xd4ef3085; 0x04881d05;
   0xd9d4d039; 0xe6db99e5; 0x1fa27cf8; 0xc4ac5665;
   0xf4292244; 0x432aff97; 0xab9423a7; 0xfc93a039;
   0x655b59c3; 0x8f0ccc92; 0xffeff47d; 0x85845dd1;
   0x6fa87e4f; 0xfe2ce6e0; 0xa3014314; 0x4e0811a1;
   0xf7537e82; 0xbd3af235; 0x2ad7d2bb; 0xeb86d391].

Definition at_ (l : list Z) (i : Z) : Z := nth (Z.to_nat i) l 0.

Definition regs : Type := Z * Z * Z * Z.

Definition init : regs := (0x67452301, 0xefcdab89, 0x98badcfe, 0x10325476).

(** One of the 64 operations of a block; [M] holds its 16 words. *)
Definition step (M : list Z) (st : regs) (i : Z) : regs :=
  let '(A, B, C, D) := st in
  let '(F, g) :=
    if i <? 16 then (Z.lor (Z.land B C) (Z.land (not32 B) D), i)
    else if i <? 32 then (Z.lor (Z.land D B) (Z.land (not32 D) C), (5 * i + 1) mod 16)
    else if i <? 48 then (Z.lxor (Z.lxor B C) D, (3 * i + 5) mod 16)
    else (Z.lxor C (Z.lor B (not32 D)), (7 * i) mod 16) in
  let F' := w32 (F + A + at_ K_tab i + at_ M g) in
  (D, w32 (B + rotl F' (at_ S_tab i)), B, C).

Definition rounds : list Z := map Z.of_nat (seq 0 64).

Definition block (st : regs) (M : list Z) : regs :=
  let '(a0, b0, c0, d0) := st in
  let '(A, B, C, D) := fold_left (step M) rounds st in
  (w32 (a0 + A), w32 (b0 + B), w32 (c0 + C), w32 (d0 + D)).

(** Little-endian words of a byte sequence (4 bytes each). *)
Fixpoint words (bs : list Z) : list Z :=
  match bs with
  | b0 :: b1 :: b2 :: b3 :: r =>
      (b0 + 256 * b1 + 65536 * b2 + 16777216 * b3) :: words r
  | _ => []
  end.

Fixpoint blocks (n : nat) (ws : list Z) : list (list Z) :=
  match n with
  | O => []
  | S n' => firstn 16 ws :: blocks n' (skipn 16 ws)
  end.

Definition le_bytes (n : nat) (x : Z) : list Z :=
  map (fun k => (x / 256 ^ Z.of_nat k) mod 256) (seq 0 n).

Definition pad (msg : list Z) : list Z :=
  let len := Z.of_nat (length msg) in
  msg ++ [0x80] ++ repeat 0 (Z.to_nat ((55 - len) mod 64))
      ++ le_bytes 8 ((8 * len) mod 2 ^ 64).

Definition digest_regs (msg : list Z) : regs :=
  let ws := words (pad msg) in
  fold_left block (blocks (length ws / 16) ws) init.

Definition hexdigit (x : Z) : ascii :=
  nth (Z.to_nat x)
    ["0"; "1"; "2"; "3"; "4"; "5"; "6"; "7";
     "8"; "9"; "a"; "b"; "c"; "d"; "e"; "f"]%char "0"%char.

Definition hex_byte (x : Z) (k : string) : string :=
  String (hexdigit (x / 16)) (String (hexdigit (x mod 16)) k).

Definition hex_word (x : Z) (k : string) : string :=
  hex_byte (x mod 256) (hex_byte ((x / 256) mod 256)
    (hex_byte ((x / 65536) mod 256) (hex_byte ((x / 16777216) mod 256) k))).

Definition byte_val (b : byte) : Z := Z.of_N (Byte.to_N b).

(** [hashlib.md5(data).hexdigest()]: 32 lower-case hexadecimal digits. *)
Definition hexdigest (data : list byte) : string :=
  let '(a, b, c, d) := digest_regs (map byte_val data) in
  hex_word a (hex_word b (hex_word c (hex_word d ""))).

End MD5.


(** ** Paths

    A path is the list of the components of an absolute path: [["s"; "a"]] is
    [/s/a] and [[]] is the root.  The command-line block passes
    [os.path.abspath] of its arguments, so the program only ever sees absolute
    paths.  The components ["."] and [".."] may occur in the result of
    [os.path.join (target_dir, relative_path)], which is not normalised. *)
Abbreviation path := (list string).

Definition nl : string := String (ascii_of_nat 10) EmptyString.

Fixpoint join_sep (cs : list string) : string :=
  match cs with
  | [] => ""
  | c :: r => "/" ++ c ++ join_sep r
  end.

(** The text of a path, as an f-string prints it. *)
Definition path_str (p : path) : string :=
  match p with
  | [] => "/"
  | _ => join_sep p
  end.

(** [os.path.normpath] on the components of an absolute path. *)
Fixpoint normpath_go (acc p : path) : path :=
  match p with
  | [] => acc
  | c :: r =>
      if decide (c = ".") then normpath_go acc r
      else if decide (c = "..") then normpath_go (removelast acc) r
      else normpath_go (acc ++ [c]) r
  end.

Definition normpath (p : path) : path := normpath_go [] p.

Fixpoint commonprefix (a b : path) : path :=
  match a, b with
  | x :: a', y :: b' => if decide (x = y) then x :: commonprefix a' b' else []
  | _, _ => []
  end.

(** [os.path.relpath (p, start)]: [".."] for every component of [start] past
    the common prefix, then the rest of [p]; ["."] when nothing is left. *)
Definition relpath (p start : path) : path :=
  let start_list := normpath start in
  let path_list := normpath p in
  let i := length (commonprefix start_list path_list) in
  let rel_list := repeat ".." (length start_list - i) ++ drop i path_list in
  match rel_list with
  | [] => ["."]
  | _ => rel_list
  end.

(** [os.path.join (a, b)] for a relative, non-empty [b]. *)
Definition os_path_join (a b : path) : path := a ++ b.

Definition dirname (p : path) : path := removelast p.

Definition basename (p : path) : string := List.last p "".

(** ** The file system *)

Inductive errno :=
| ENOENT | ENOTDIR | EISDIR | EEXIST | EACCES | EIO | EINVAL | EBUSY | ENOTEMPTY.

(** How reading a file goes: every read succeeds, [open] fails, or the
    [k]-th call of [read] on the open file fails (counting from 0). *)
Inductive io :=
| ReadOK
| OpenFails (e : errno)
| ReadFails (k : nat) (e : errno).

(** A regular file with its bytes, or a directory with its entry names in the
    order in which [os.scandir] yields them. *)
Inductive node :=
| File (data : list byte) (m : io)
| Dir (names : list string).

(** The exceptions the program meets.  An [OSError] has its [errno] and the
    file names the failing call was given: none for a [read] on an open
    file, one for most calls, two for [os.rename].  A [UnicodeEncodeError]
    has the codec, the first character that cannot be encoded, the range of
    positions and the reason. *)
Inductive exn :=
| OSError (e : errno) (filename filename2 : option path)
| ShutilError (msg : string)
| NameError (name : string)
| UnicodeEncodeError (codec : string) (bad : N) (start stop : nat) (reason : string)
| IndexError.

Definition errno_str (e : errno) : string :=
  match e with
  | ENOENT => "[Errno 2] No such file or directory"
  | ENOTDIR => "[Errno 20] Not a directory"
  | EISDIR => "[Errno 21] Is a directory"
  | EEXIST => "[Errno 17] File exists"
  | EACCES => "[Errno 13] Permission denied"
  | EIO => "[Errno 5] Input/output error"
  | EINVAL => "[Errno 22] Invalid argument"
  | EBUSY => "[Errno 16] Device or resource busy"
  | ENOTEMPTY => "[Errno 39] Directory not empty"
  end.

(** *** Text

    A [string] holds the UTF-8 bytes of a Python [str]; a byte that is not
    part of a well-formed UTF-8 sequence stands for the lone surrogate
    [U+DC00 + byte] that the [surrogateescape] handler of the file system
    encoding makes of it. *)
Module Text.

Definition in_range (lo hi b : N) : bool := (lo <=? b)%N && (b <=? hi)%N.

(** The character at the head of [s]: its code point and the number of
    bytes of its sequence, or [None] when no well-formed sequence starts
    there (RFC 3629: no overlong form, no surrogate, nothing past
    [U+10FFFF]). *)
Definition head_char (s : string) : option (N * nat) :=
  match s with
  | EmptyString => None
  | String c0 r0 =>
      let b0 := N_of_ascii c0 in
      if (b0 <? 128)%N then Some (b0, 1)
      else
        match r0 with
        | EmptyString => None
        | String c1 r1 =>
            let b1 := N_of_ascii c1 in
            if in_range 194 223 b0 then
              if in_range 128 191 b1 then Some (((b0 - 192) * 64 + (b1 - 128))%N, 2)
              else None
            else
              match r1 with
              | EmptyString => None
              | String c2 r2 =>
                  let b2 := N_of_ascii c2 in
                  if in_range 224 239 b0 then
                    if (if (b0 =? 224)%N then in_range 160 191 b1
                        else if (b0 =? 237)%N then in_range 128 159 b1
                        else in_range 128 191 b1)
                       && in_range 128 191 b2
                    then Some (((b0 - 224) * 4096 + (b1 - 128) * 64 + (b2 - 128))%N, 3)
                    else None
                  else
                    match r2 with
                    | EmptyString => None
                    | String c3 _ =>
                        let b3 := N_of_ascii c3 in
                        if in_range 240 244 b0
                           && (if (b0 =? 240)%N then in_range 144 191 b1
                               else if (b0 =? 244)%N then in_range 128 143 b1
                               else in_range 128 191 b1)
                           && in_range 128 191 b2 && in_range 128 191 b3
                        then Some (((b0 - 240) * 262144 + (b1 - 128) * 4096
                                    + (b2 - 128) * 64 + (b3 - 128))%N, 4)
                        else None
                    end
              end
        end
  end.

Fixpoint take_str (n : nat) (s : string) : string :=
  match n, s with
  | S n', String c r => String c (take_str n' r)
  | _, _ => EmptyString
  end.

Fixpoint drop_str (n : nat) (s : string) : string :=
  match n, s with
  | S n', String _ r => drop_str n' r
  | _, _ => s
  end.

(** The characters of a text, each with the bytes that stand for it. *)
Fixpoint chars_go (fuel : nat) (s : string) : list (N * string) :=
  match fuel, s with
  | S fuel', String c r =>
      match head_char s with
      | Some (cp, len) => (cp, take_str len s) :: chars_go fuel' (drop_str len s)
      | None => ((56320 + N_of_ascii c)%N, String c EmptyString) :: chars_go fuel' r
      end
  | _, _ => []
  end.

Definition chars (s : string) : list (N * string) := chars_go (String.length s) s.

Definition is_surrogate (cp : N) : bool := in_range 55296 57343 cp.

Fixpoint surrogate_run (cs : list (N * string)) : nat :=
  match cs with
  | (cp, _) :: r => if is_surrogate cp then S (surrogate_run r) else 0
  | [] => 0
  end.

(** [s.encode ('utf-8')] with the strict handler: the range of the first
    run of surrogates, and its first character, when there is one. *)
Fixpoint first_bad (pos : nat) (cs : list (N * string)) : option (N * nat * nat) :=
  match cs with
  | [] => None
  | (cp, _) :: r =>
      if is_surrogate cp then
        Some (cp, pos, S pos + surrogate_run r)
      else first_bad (S pos) r
  end.

Definition encode_error (s : string) : option (N * nat * nat) := first_bad 0 (chars s).

Definition lower_hex_digit (x : N) : ascii :=
  nth (N.to_nat x)
    ["0"; "1"; "2"; "3"; "4"; "5"; "6"; "7";
     "8"; "9"; "a"; "b"; "c"; "d"; "e"; "f"]%char "0"%char.

(** [x] in lower-case hexadecimal on [width] digits. *)
Fixpoint hex (width : nat) (x : N) (k : string) : string :=
  match width with
  | O => k
  | S width' => hex width' (x / 16) (String (lower_hex_digit (x mod 16)) k)
  end.

(** The escape of a character that [repr] does not print as it is. *)
Definition escape (cp : N) : string :=
  if (cp <=? 255)%N then "\x" ++ hex 2 cp ""
  else if (cp <=? 65535)%N then "\u" ++ hex 4 cp ""
  else "\U" ++ hex 8 cp "".

(** The characters past [U+00FF] in the categories [Zs], [Zl], [Zp], [Cf]
    and [Co] of the Unicode database (version 15.0), and the
    noncharacters. *)
Definition unprintable_ranges : list (N * N) :=
  [(1536, 1541); (1564, 1564); (1757, 1757); (1807, 1807); (2192, 2193);
   (2274, 2274); (5760, 5760); (6158, 6158); (8192, 8207); (8232, 8239);
   (8287, 8292); (8294, 8303); (12288, 12288); (57344, 63743);
   (64976, 65007); (65279, 65279); (65529, 65531); (65534, 65535);
   (69821, 69821); (69837, 69837); (78896, 78911); (113824, 113827);
   (119155, 119162); (917505, 917505); (917536, 917631);
   (983040, 1114111)]%N.

(** [str.isprintable] of one character: it is not in a category [C*] or
    [Z*], the space apart.  Code points that the database has not assigned,
    the noncharacters apart, are taken as printable: which they are depends
    on the version of the interpreter. *)
Definition printable (cp : N) : bool :=
  if (cp <? 128)%N then in_range 32 126 cp
  else if (cp <=? 255)%N then negb (in_range 128 160 cp || (cp =? 173)%N)
  else negb (is_surrogate cp
             || existsb (fun r => in_range (fst r) (snd r) cp) unprintable_ranges
             || in_range 65534 65535 (cp mod 65536)).

Definition squote : ascii := "'"%char.
Definition dquote : ascii := ascii_of_nat 34.
Definition backslash : ascii := "\"%char.

Definition repr_char (quote : ascii) (c : N * string) : string :=
  let cp := fst c in
  if (cp =? N_of_ascii quote)%N || (cp =? N_of_ascii backslash)%N
  then String backslash (snd c)
  else if (cp =? 9)%N then "\t"
  else if (cp =? 10)%N then "\n"
  else if (cp =? 13)%N then "\r"
  else if printable cp then snd c
  else escape cp.

Fixpoint has_char (a : ascii) (s : string) : bool :=
  match s with
  | EmptyString => false
  | String c r => bool_decide (c = a) || has_char a r
  end.

(** [repr (s)] of a [str]: between single quotes, or between double quotes
    when [s] has a single quote and no double quote. *)
Definition repr (s : string) : string :=
  let quote := if has_char squote s && negb (has_char dquote s) then dquote else squote in
  String quote
    (fold_right (fun c k => (repr_char quote c ++ k)%string) (String quote EmptyString)
       (chars s)).

End Text.

(** [str (e)] of a caught exception. *)
Definition exn_str (e : exn) : string :=
  match e with
  | OSError c None _ => errno_str c
  | OSError c (Some p) None => errno_str c ++ ": " ++ Text.repr (path_str p)
  | OSError c (Some p) (Some q) =>
      errno_str c ++ ": " ++ Text.repr (path_str p) ++ " -> " ++ Text.repr (path_str q)
  | ShutilError msg => msg
  | NameError name => "name '" ++ name ++ "' is not defined"
  | UnicodeEncodeError codec bad start stop reason =>
      if decide (stop = S start) then
        "'" ++ codec ++ "' codec can't encode character '" ++ Text.escape bad
          ++ "' in position " ++ pretty start ++ ": " ++ reason
      else
        "'" ++ codec ++ "' codec can't encode characters in position " ++ pretty start
          ++ "-" ++ pretty (stop - 1) ++ ": " ++ reason
  | IndexError => "list index out of range"
  end.

(** A mutation of the file system that was carried out. *)
Inductive event :=
| EvMkdir (p : path)
| EvRename (src dst : path)
| EvUnlink (p : path)
| EvWrite (p : path).

(** The state the program runs in: the file system, the lines printed so far,
    the module-level global [source_dir] (unbound until the command-line
    block assigns it), the clock as [strftime] formats it, and the mutations
    of the file system so far. *)
Record world := World {
  w_fs : gmap (list string) node;
  w_out : list string;
  w_source_dir : option (list string);
  w_now : string;
  w_trace : list event
}.

Definition set_fs (w : world) (fs : gmap (list string) node) (ev : event) : world :=
  World fs (w_out w) (w_source_dir w) (w_now w) (w_trace w ++ [ev]).

(** Path resolution as the kernel does it: every component is looked up in a
    directory that must exist; ["."] stays, [".."] goes up. *)
Fixpoint namei (fs : gmap (list string) node) (cur p : path) : errno + path :=
  match p with
  | [] => inr cur
  | c :: rest =>
      match fs !! cur with
      | Some (Dir _) =>
          if decide (c = ".") then namei fs cur rest
          else if decide (c = "..") then namei fs (removelast cur) rest
          else namei fs (cur ++ [c]) rest
      | Some (File _ _) => inl ENOTDIR
      | None => inl ENOENT
      end
  end.

Definition resolve (fs : gmap (list string) node) (p : path) : errno + path :=
  namei fs [] p.

Definition stat (fs : gmap (list string) node) (p : path) : errno + node :=
  match resolve fs p with
  | inl e => inl e
  | inr r => match fs !! r with Some n => inr n | None => inl ENOENT end
  end.

Definition add_name (c : string) (n : node) : node :=
  match n with
  | Dir names => Dir (names ++ [c])
  | File _ _ => n
  end.

Definition del_name (c : string) (n : node) : node :=
  match n with
  | Dir names => Dir (filter (fun x => x <> c) names)
  | File _ _ => n
  end.

(** Enter [n] at the resolved path [r]; the parent gains the name when [r]
    is new. *)
Definition link (r : path) (n : node) (fs : gmap (list string) node)
  : gmap (list string) node :=
  match fs !! r with
  | Some _ => <[r := n]> fs
  | None => <[r := n]> (alter (add_name (basename r)) (dirname r) fs)
  end.

Definition unlink (r : path) (fs : gmap (list string) node)
  : gmap (list string) node :=
  delete r (alter (del_name (basename r)) (dirname r) fs).

(** Move the whole subtree at [src] to [dst] (for a directory). *)
Definition rebase (src dst k : path) : path :=
  if decide (src `prefix_of` k) then dst ++ drop (length src) k else k.

Definition move_tree (src dst : path) (fs : gmap (list string) node)
  : gmap (list string) node :=
  list_to_map (prod_map (rebase src dst) id <$> map_to_list fs).

(** ** The state and exception monad of the program *)

Inductive result (A : Type) :=
| Return (a : A)
| Raise (e : exn).
Arguments Return {A} a.
Arguments Raise {A} e.

Definition M (A : Type) : Type := world -> result A * world.

#[global] Instance M_ret : MRet M := fun A a w => (Return a, w).

#[global] Instance M_bind : MBind M := fun A B f m w =>
  match m w with
  | (Return a, w') => f a w'
  | (Raise e, w') => (Raise e, w')
  end.

Definition raise {A} (e : exn) : M A := fun w => (Raise e, w).

(** [try: body except Exception as e: handler e]. *)
Definition try_except {A} (body : M A) (handler : exn -> M A) : M A := fun w =>
  match body w with
  | (Return a, w') => (Return a, w')
  | (Raise e, w') => handler e w'
  end.

(** [print (line)]: the text goes to standard output, and [w_out] holds the
    texts printed.  Standard output is taken with an error handler that does
    not raise (as under [PYTHONIOENCODING=utf-8:backslashreplace]); under
    the strict handler a text with a character that standard output cannot
    encode raises [UnicodeEncodeError] here instead. *)
Definition print (line : string) : M unit := fun w =>
  (Return tt, World (w_fs w) (w_out w ++ [line]) (w_source_dir w) (w_now w) (w_trace w)).

Definition get_fs : M (gmap (list string) node) := fun w => (Return (w_fs w), w).

Definition put_fs (fs : gmap (list string) node) (ev : event) : M unit := fun w =>
  (Return tt, set_fs w fs ev).

(** Reading the global [source_dir]: a [NameError] while it is unbound. *)
Definition global_source_dir : M path := fun w =>
  match w_source_dir w with
  | Some p => (Return p, w)
  | None => (Raise (NameError "source_dir"), w)
  end.

Definition set_global_source_dir (p : path) : M unit := fun w =>
  (Return tt, World (w_fs w) (w_out w) (Some p) (w_now w) (w_trace w)).

(** [datetime.now().strftime("%Y-%m-%d_%H-%M-%S")]. *)
Definition strftime_now : M string := fun w => (Return (w_now w), w).

Definition lift_errno {A} (p : path) (r : errno + A) : M A :=
  match r with
  | inl e => raise (OSError e (Some p) None)
  | inr a => mret a
  end.

(** The errors of [os.rename] name both paths. *)
Definition lift_errno2 {A} (src dst : path) (r : errno + A) : M A :=
  match r with
  | inl e => raise (OSError e (Some src) (Some dst))
  | inr a => mret a
  end.

(** ** os, os.path and shutil *)

Definition os_path_exists (p : path) : M bool :=
  fs ← get_fs;
  mret (match stat fs p with inr _ => true | inl _ => false end).

Definition os_path_isdir (p : path) : M bool :=
  fs ← get_fs;
  mret (match stat fs p with inr (Dir _) => true | _ => false end).

(** [os.path.samefile], with [OSError] turned into [False] as
    [shutil._samefile] does. *)
Definition samefile (a b : path) : M bool :=
  fs ← get_fs;
  mret (match stat fs a, stat fs b, resolve fs a, resolve fs b with
        | inr _, inr _, inr ra, inr rb => bool_decide (ra = rb)
        | _, _, _, _ => false
        end).

Definition os_mkdir (p : path) : M unit :=
  fs ← get_fs;
  r ← lift_errno p (resolve fs p);
  match fs !! r with
  | Some _ => raise (OSError EEXIST (Some p) None)
  | None => put_fs (link r (Dir []) fs) (EvMkdir r)
  end.

(** [os.makedirs (name)] with [exist_ok=False], by recursion on the
    components of [name] from the last one ([rname] is [name] reversed). *)
Fixpoint makedirs_rev (rname : list string) : M unit :=
  match rname with
  | [] => os_mkdir []
  | tail :: rhead =>
      let name := rev rname in
      let head := rev rhead in
      e ← os_path_exists head;
      if negb e then
        try_except (makedirs_rev rhead)
          (fun ex => match ex with
                     | OSError EEXIST _ _ => mret tt
                     | _ => raise ex
                     end);;
        if decide (tail = ".") then mret tt else os_mkdir name
      else os_mkdir name
  end.

Definition os_makedirs (name : path) : M unit := makedirs_rev (rev name).

Definition os_rename (src dst : path) : M unit :=
  fs ← get_fs;
  rs ← lift_errno2 src dst (resolve fs src);
  rd ← lift_errno2 src dst (resolve fs dst);
  match fs !! rs with
  | None => raise (OSError ENOENT (Some src) (Some dst))
  | Some (File d m) =>
      match fs !! rd with
      | Some (Dir _) => raise (OSError EISDIR (Some src) (Some dst))
      | _ =>
          if decide (rs = rd) then mret tt
          else put_fs (link rd (File d m) (unlink rs fs)) (EvRename rs rd)
      end
  | Some (Dir ns) =>
      match fs !! rd with
      | Some (File _ _) => raise (OSError ENOTDIR (Some src) (Some dst))
      | Some (Dir ms) =>
          if decide (rs = rd) then mret tt
          else if decide (rs `prefix_of` rd) then raise (OSError EINVAL (Some src) (Some dst))
          else match ms with
               | [] => put_fs (unlink rs (move_tree rs rd (delete rd fs))) (EvRename rs rd)
               | _ :: _ => raise (OSError ENOTEMPTY (Some src) (Some dst))
               end
      | None =>
          if decide (rs `prefix_of` rd) then raise (OSError EINVAL (Some src) (Some dst))
          else put_fs (alter (add_name (basename rd)) (dirname rd)
                         (unlink rs (move_tree rs rd fs))) (EvRename rs rd)
      end
  end.

Definition os_unlink (p : path) : M unit :=
  fs ← get_fs;
  r ← lift_errno p (resolve fs p);
  match fs !! r with
  | None => raise (OSError ENOENT (Some p) None)
  | Some (Dir _) => raise (OSError EISDIR (Some p) None)
  | Some (File _ _) => put_fs (unlink r fs) (EvUnlink r)
  end.

(** An open file: the bytes not read yet, how reading goes, and the number
    of [read] calls made so far. *)
Record handle := Handle {
  h_rest : list byte;
  h_io : io;
  h_reads : nat
}.

(** [open (p, 'rb')]. *)
Definition open_rb (fs : gmap (list string) node) (p : path) : exn + handle :=
  match stat fs p with
  | inl e => inl (OSError e (Some p) None)
  | inr (Dir _) => inl (OSError EISDIR (Some p) None)
  | inr (File _ (OpenFails e)) => inl (OSError e (Some p) None)
  | inr (File d m) => inr (Handle d m 0)
  end.

(** [f.read (n)]: up to [n] bytes, empty at the end of the file.  The
    error of a failed read names no file. *)
Definition f_read (n : nat) (h : handle) : exn + (list byte * handle) :=
  match h_io h with
  | ReadFails k e =>
      if decide (k = h_reads h) then inl (OSError e None None)
      else inr (take n (h_rest h), Handle (drop n (h_rest h)) (h_io h) (S (h_reads h)))
  | _ => inr (take n (h_rest h), Handle (drop n (h_rest h)) (h_io h) (S (h_reads h)))
  end.

(** One [write] on a file just opened with [encoding='utf-8'] and closed
    after it: [store data] is the file system with [data] in the file.  A
    text that the strict encoder refuses raises, and leaves the file
    empty. *)
Definition write_encoded (text : string) (store : list byte -> gmap (list string) node)
  (r : path) : M unit :=
  match Text.encode_error text with
  | None => put_fs (store (list_byte_of_string text)) (EvWrite r)
  | Some (bad, start, stop) =>
      put_fs (store []) (EvWrite r);;
      raise (UnicodeEncodeError "utf-8" bad start stop "surrogates not allowed")
  end.

(** [open (p, 'w', encoding='utf-8')] followed by one [write]: the file is
    created or truncated, then written. *)
Definition write_text (p : path) (text : string) : M unit :=
  fs ← get_fs;
  r ← lift_errno p (resolve fs p);
  match fs !! r with
  | Some (Dir _) => raise (OSError EISDIR (Some p) None)
  | Some (File _ m) => write_encoded text (fun data => <[r := File data m]> fs) r
  | None => write_encoded text (fun data => link r (File data ReadOK) fs) r
  end.

(** [os.scandir (p)]: the names of a directory in its own order, without the
    special entries. *)
Definition scandir (fs : gmap (list string) node) (p : path) : errno + list string :=
  match stat fs p with
  | inl e => inl e
  | inr (File _ _) => inl ENOTDIR
  | inr (Dir names) => inr (filter (fun c => c <> "." /\ c <> "..") names)
  end.

Definition is_dir (fs : gmap (list string) node) (p : path) : bool :=
  match stat fs p with inr (Dir _) => true | _ => false end.

(** [os.walk (top)], top-down, errors of [scandir] ignored ([onerror] is
    [None]): the triple of the directory, then the triples of its
    subdirectories in order.  [fuel] bounds the depth below [top]. *)
Fixpoint os_walk (fuel : nat) (fs : gmap (list string) node) (top : path)
  : list (path * list string * list string) :=
  match fuel with
  | O => []
  | S fuel' =>
      match scandir fs top with
      | inl _ => []
      | inr names =>
          let dirs := filter (fun c => is_dir fs (top ++ [c]) = true) names in
          let nondirs := filter (fun c => is_dir fs (top ++ [c]) <> true) names in
          (top, dirs, nondirs)
          :: flat_map (fun d => os_walk fuel' fs (os_path_join top [d])) dirs
      end
  end.

(** No path of the file system is longer than this. *)
Definition max_depth (fs : gmap (list string) node) : nat :=
  map_fold (fun k _ acc => Nat.max (length k) acc) 0 fs.

(** [shutil.move (src, dst)] on one volume, without symbolic links.  A
    directory given as [dst] receives [src] under its own name.  When
    [os.rename] fails the copying fallback runs: [copy2] then [os.unlink] for
    a file; for a directory the check of [_destinsrc], then [copytree] and
    [rmtree], rendered by [os.makedirs] of the destination followed by the
    transfer of the subtree onto it.  [copy2] opens the source, then
    the destination, which it creates or truncates, and copies; a read that
    fails leaves the destination empty. *)
Definition copy2 (src dst : path) : M unit :=
  fs ← get_fs;
  match stat fs src with
  | inl e => raise (OSError e (Some src) None)
  | inr (Dir _) => raise (OSError EISDIR (Some src) None)
  | inr (File _ (OpenFails e)) => raise (OSError e (Some src) None)
  | inr (File d m) =>
      r ← lift_errno dst (resolve fs dst);
      match fs !! r with
      | Some (Dir _) => raise (OSError EISDIR (Some dst) None)
      | old =>
          let store data :=
            match old with
            | Some (File _ m') => <[r := File data m']> fs
            | _ => link r (File data ReadOK) fs
            end in
          match m with
          | ReadFails _ e => put_fs (store []) (EvWrite r);; raise (OSError e None None)
          | _ => put_fs (store d) (EvWrite r)
          end
      end
  end.

Definition move_fallback (src dst real_dst : path) (ex : exn) : M unit :=
  match ex with
  | OSError _ _ _ =>
      sd ← os_path_isdir src;
      if (sd : bool) then
        if decide (normpath src `prefix_of` normpath dst) then
          raise (ShutilError ("Cannot move a directory '" ++ path_str src
                              ++ "' into itself '" ++ path_str dst ++ "'."))
        else os_makedirs real_dst;; os_rename src real_dst
      else copy2 src real_dst;; os_unlink src
  | _ => raise ex
  end.

Definition shutil_move (src dst : path) : M unit :=
  d ← os_path_isdir dst;
  same ← samefile src dst;
  if d && same then os_rename src dst
  else
    let real_dst := if d then os_path_join dst [basename src] else dst in
    e ← os_path_exists real_dst;
    if d && e then
      raise (ShutilError ("Destination path '" ++ path_str real_dst ++ "' already exists"))
    else try_except (os_rename src real_dst) (move_fallback src dst real_dst).

(** ** find_duplicates.py *)

Definition block_size : nat := N.to_nat 65536.

Definition inspect {A : Type} (a : A) : {b : A | a = b} := exist _ a eq_refl.

(** The loop [while chunk := f.read (block_size): md5.update (chunk)]; [md5]
    is the sequence of bytes given to the digest object so far. *)
Equations? hash_loop (bs : nat) (h : handle) (md5 : list byte)
  : exn + list byte by wf (length (h_rest h)) lt :=
  hash_loop bs h md5 with inspect (f_read bs h) := {
    | exist _ (inl e) _ := inl e;
    | exist _ (inr ([], _)) _ := inr md5;
    | exist _ (inr (b :: chunk, h')) Hr := hash_loop bs h' (md5 ++ b :: chunk) }.
Proof.
  unfold f_read in Hr.
  assert (Hc : b :: chunk = take bs (h_rest h) /\ h_rest h' = drop bs (h_rest h)).
  { destruct (h_io h); try destruct (decide _); inversion Hr; subst; auto. }
  destruct Hc as [Hc ->]. rewrite length_drop.
  destruct bs as [|bs]; [discriminate|].
  destruct (h_rest h); [discriminate|]. simpl. lia.
Qed.

(** [compute_hash (file_path)]: the hexadecimal digest, or [None] after
    reporting a file that cannot be opened or read. *)
Definition read_and_hash (fs : gmap (list string) node) (file_path : path)
  : exn + string :=
  match open_rb fs file_path with
  | inl e => inl e
  | inr f =>
      match hash_loop block_size f [] with
      | inl e => inl e
      | inr md5 => inr (MD5.hexdigest md5)
      end
  end.

Definition compute_hash (file_path : path) : M (option string) :=
  fs ← get_fs;
  match read_and_hash fs file_path with
  | inl e =>
      print ("无法读取文件 " ++ path_str file_path ++ ": " ++ exn_str e);;
      mret None
  | inr h => mret (Some h)
  end.

(** A [dict] in insertion order: one entry per key. *)
Abbreviation dict := (list (string * list (list string))).

(** [hashes[k].append (v)] on a [defaultdict (list)]. *)
Fixpoint dict_append (k : string) (v : path) (d : dict) : dict :=
  match d with
  | [] => [(k, [v])]
  | (k', vs) :: r =>
      if decide (k = k') then (k', vs ++ [v]) :: r
      else (k', vs) :: dict_append k v r
  end.

(** A [for] loop over a list, threading the loop's variables. *)
Fixpoint for_each {A S : Type} (l : list A) (body : A -> S -> M S) (s : S) : M S :=
  match l with
  | [] => mret s
  | x :: r => s' ← body x s; for_each r body s'
  end.

Definition scan_file (root : path) (name : string) (st : nat * dict)
  : M (nat * dict) :=
  let file_count := S (fst st) in
  (if decide (file_count mod 100 = 0)
   then print ("已扫描 " ++ pretty file_count ++ " 个文件...")
   else mret tt);;
  let file_path := os_path_join root [name] in
  file_hash ← compute_hash file_path;
  match file_hash with
  | Some h =>
      if decide (h = "") then mret (file_count, snd st)
      else mret (file_count, dict_append h file_path (snd st))
  | None => mret (file_count, snd st)
  end.

Definition scan_dir (triple : path * list string * list string) (st : nat * dict)
  : M (nat * dict) :=
  let '(root, _, files) := triple in
  for_each files (scan_file root) st.

(** The loop of [find_duplicates]: the number of files seen and [hashes]. *)
Definition scan (source_dir : path) : M (nat * dict) :=
  print ("开始扫描文件夹: " ++ path_str source_dir);;
  fs ← get_fs;
  st ← for_each (os_walk (S (max_depth fs)) fs source_dir) scan_dir (0, []);
  print ("扫描完成，共处理 " ++ pretty (fst st) ++ " 个文件。");;
  mret st.

Definition find_duplicates (source_dir : path) : M dict :=
  st ← scan source_dir;
  mret (filter (fun kv => 1 < length (snd kv)) (snd st)).

(** The body of the [try] statement in the inner loop of [move_duplicates]. *)
Definition move_body (target_dir duplicate : path) (log_entries : list string)
  : M (list string) :=
  source_dir ← global_source_dir;
  let relative_path := relpath duplicate source_dir in
  let new_path := os_path_join target_dir relative_path in
  let new_dir := dirname new_path in
  e ← os_path_exists new_dir;
  (if negb e then os_makedirs new_dir else mret tt);;
  shutil_move duplicate new_path;;
  print ("已移动: " ++ path_str duplicate ++ " --> " ++ path_str new_path);;
  mret (log_entries ++ [("  重复文件: " ++ path_str duplicate ++ nl
                          ++ "  移动到: " ++ path_str new_path ++ nl)%string]).

(** One turn of the inner loop: the body, and [except Exception as e]. *)
Definition move_one (target_dir duplicate : path) (log_entries : list string)
  : M (list string) :=
  try_except (move_body target_dir duplicate log_entries)
    (fun e =>
       print ("无法移动文件 " ++ path_str duplicate ++ ": " ++ exn_str e);;
       mret (log_entries ++ [("  无法移动文件: " ++ path_str duplicate
                                ++ ". 错误: " ++ exn_str e ++ nl)%string])).

(** One turn of the outer loop; [files[0]] raises [IndexError] on an empty
    list. *)
Definition move_group (target_dir : path) (group : string * list path)
  (log_entries : list string) : M (list string) :=
  match snd group with
  | [] => raise IndexError
  | original :: duplicates_to_move =>
      log_entries ← for_each duplicates_to_move (move_one target_dir)
                      (log_entries ++ [("原始文件: " ++ path_str original ++ nl)%string]);
      mret (log_entries ++ [nl])
  end.

(** [sep.join (l)]. *)
Fixpoint str_join (sep : string) (l : list string) : string :=
  match l with
  | [] => ""
  | [x] => x
  | x :: r => x ++ sep ++ str_join sep r
  end.

Definition log_file_of (target_dir : path) (timestamp : string) : path :=
  os_path_join target_dir [("duplicates_log_" ++ timestamp ++ ".txt")%string].

(** The three parts of [move_duplicates]: the target directory is created
    when absent, the groups are relocated, the log is written. *)
Definition ensure_target (target_dir : path) : M unit :=
  e ← os_path_exists target_dir;
  if negb e then os_makedirs target_dir else mret tt.

Definition relocate (duplicates : dict) (target_dir : path) : M (list string) :=
  for_each duplicates (move_group target_dir) [].

Definition write_log (log_file : path) (log_entries : list string) : M unit :=
  try_except
    (write_text log_file (str_join nl log_entries);;
     print (nl ++ "日志已生成: " ++ path_str log_file))
    (fun e => print ("无法写入日志文件: " ++ exn_str e)).

Definition move_duplicates (duplicates : dict) (target_dir : path) : M unit :=
  ensure_target target_dir;;
  timestamp ← strftime_now;
  let log_file := log_file_of target_dir timestamp in
  log_entries ← relocate duplicates target_dir;
  write_log log_file log_entries.

Definition main (source_dir target_dir : path) : M unit :=
  print "开始处理...";;
  print ("源文件夹: " ++ path_str source_dir);;
  print ("目标文件夹: " ++ path_str target_dir);;
  d ← os_path_isdir source_dir;
  if negb d then print ("错误：源文件夹不存在: " ++ path_str source_dir)
  else
    duplicates ← find_duplicates source_dir;
    match duplicates with
    | [] => print "没有找到重复文件。"
    | _ :: _ =>
        let total_duplicates :=
          foldr Nat.add 0 (map (fun kv => length (snd kv) - 1) duplicates) in
        print ("找到 " ++ pretty total_duplicates ++ " 个重复文件。");;
        move_duplicates duplicates target_dir
    end.

(** The block under [if __name__ == "__main__"], for absolute arguments:
    it binds the global [source_dir] and calls [main]. *)
Definition cli (source target : path) : M unit :=
  set_global_source_dir (normpath source);;
  main (normpath source) (normpath target).

(** ** Vocabulary of the statements *)

(** The world after printing [lines]. *)
Definition add_out (w : world) (lines : list string) : world :=
  World (w_fs w) (w_out w ++ lines) (w_source_dir w) (w_now w) (w_trace w).

(** The paths handed to [compute_hash], in the order of the traversal. *)
Definition scanned_files (fs : gmap (list string) node) (source_dir : path)
  : list path :=
  flat_map (fun t => map (fun name => os_path_join (fst (fst t)) [name]) (snd t))
           (os_walk (S (max_depth fs)) fs source_dir).

(** The bytes of the regular file at [p]. *)
Definition content (fs : gmap (list string) node) (p : path) : option (list byte) :=
  match stat fs p with
  | inr (File d _) => Some d
  | _ => None
  end.



Definition same_group (hashes : dict) (p q : path) : Prop :=
  exists h g, In (h, g) hashes /\ In p g /\ In q g.


(** The texts the program prints and logs. *)
Definition msg_unreadable (p : path) (e : exn) : string :=
  "无法读取文件 " ++ path_str p ++ ": " ++ exn_str e.

Definition msg_progress (n : nat) : string :=
  "已扫描 " ++ pretty n ++ " 个文件...".

Definition original_entry (original : path) : string :=
  "原始文件: " ++ path_str original ++ nl.

Definition success_entry (duplicate new_path : path) : string :=
  "  重复文件: " ++ path_str duplicate ++ nl ++ "  移动到: " ++ path_str new_path ++ nl.

Definition failure_entry (duplicate : path) (e : exn) : string :=
  "  无法移动文件: " ++ path_str duplicate ++ ". 错误: " ++ exn_str e ++ nl.

Definition msg_moved (duplicate new_path : path) : string :=
  "已移动: " ++ path_str duplicate ++ " --> " ++ path_str new_path.

Definition msg_not_moved (duplicate : path) (e : exn) : string :=
  "无法移动文件 " ++ path_str duplicate ++ ": " ++ exn_str e.

Definition msg_scan_start (source_dir : path) : string :=
  "开始扫描文件夹: " ++ path_str source_dir.

Definition msg_scan_done (n : nat) : string :=
  "扫描完成，共处理 " ++ pretty n ++ " 个文件。".

(** What [compute_hash] returns and prints, as functions of the file system. *)
Definition hash_of (fs : gmap (list string) node) (p : path) : option string :=
  match read_and_hash fs p with
  | inr h => Some h
  | inl _ => None
  end.

Definition report_of (fs : gmap (list string) node) (p : path) : list string :=
  match read_and_hash fs p with
  | inr _ => []
  | inl e => [msg_unreadable p e]
  end.

(** One turn of the inner loop of [find_duplicates] on [hashes]. *)
Definition hash_step (fs : gmap (list string) node) (hashes : dict) (p : path) : dict :=
  match hash_of fs p with
  | Some h => if decide (h = "") then hashes else dict_append h p hashes
  | None => hashes
  end.

Definition group_paths (fs : gmap (list string) node) (ps : list path) (hashes : dict)
  : dict :=
  fold_left (hash_step fs) ps hashes.

(** The lines printed while scanning [ps], [n] files having been seen. *)
Fixpoint scan_lines (fs : gmap (list string) node) (n : nat) (ps : list path)
  : list string :=
  match ps with
  | [] => []
  | p :: r =>
      (if decide (S n mod 100 = 0) then [msg_progress (S n)] else [])
      ++ report_of fs p ++ scan_lines fs (S n) r
  end.

(** [p] is in the group of [hashes] keyed by [h]. *)
Definition member (hashes : dict) (h : string) (p : path) : Prop :=
  exists g, In (h, g) hashes /\ In p g.

(** What the scan owes to two hashed files with contents [d1] and [d2]: the
    groups put them together when the contents are equal and apart when they
    differ and their digests do not collide, and [find_duplicates] returns
    the groups of two or more paths and no other. *)
Definition grouping_correct (w : world) (source_dir p1 p2 : path)
  (d1 d2 : list byte) : Prop :=
  exists n hashes w',
    scan source_dir w = (Return (n, hashes), w') /\
    (d1 = d2 -> same_group hashes p1 p2) /\
    (d1 <> d2 -> MD5.hexdigest d1 <> MD5.hexdigest d2 -> ~ same_group hashes p1 p2) /\
    exists duplicates,
      find_duplicates source_dir w = (Return duplicates, w') /\
      forall h g, In (h, g) duplicates <-> In (h, g) hashes /\ 2 <= length g.


(** A run that only printed: it returned normally, [lines] were added to the
    output, and the file system, the trace of mutations and the global are
    what they were. *)
Definition only_printed (r : result unit * world) (w : world) (lines : list string)
  : Prop :=
  r = (Return tt, add_out w lines).

Definition msg_no_duplicates : string := "没有找到重复文件。".


Definition banner (source_dir target_dir : path) : list string :=
  ["开始处理..."; "源文件夹: " ++ path_str source_dir; "目标文件夹: " ++ path_str target_dir]%string.


(** [w'] differs from [w] in the file system and in the trace at most. *)
Definition same_env (w w' : world) : Prop :=
  w_out w' = w_out w /\ w_source_dir w' = w_source_dir w /\ w_now w' = w_now w.

(** The moves that were carried out. *)
Definition renames (t : list event) : list (path * path) :=
  flat_map (fun ev => match ev with EvRename s d => [(s, d)] | _ => [] end) t.





(** No component of [p] is ["."] or [".."]. *)
Definition dotfree (p : path) : Prop := Forall (fun c => c <> "." /\ c <> "..") p.

(** Two look-ups that agree: both absent, the same file, or both a
    directory (whose list of names may differ). *)
Definition same_kind (a b : option node) : Prop :=
  match a, b with
  | None, None => True
  | Some (File d m), Some (File d' m') => d = d' /\ m = m'
  | Some (Dir _), Some (Dir _) => True
  | _, _ => False
  end.

(** Every directory of [fs] is a directory of [fs']. *)
Definition dirs_kept (fs fs' : gmap (list string) node) : Prop :=
  forall q ns, fs !! q = Some (Dir ns) -> exists ns', fs' !! q = Some (Dir ns').

(** [fs'] is [fs] with directories added at paths that were free. *)
Definition grows (fs fs' : gmap (list string) node) : Prop :=
  forall q, same_kind (fs' !! q) (fs !! q) \/
            (fs !! q = None /\ exists ns, fs' !! q = Some (Dir ns)).

(** The first half of the body of the [try] statement: the destination is
    computed and its directory is created when absent. *)
Definition prepare_dest (target_dir duplicate : path) : M path :=
  source_dir ← global_source_dir;
  let new_path := os_path_join target_dir (relpath duplicate source_dir) in
  e ← os_path_exists (dirname new_path);
  (if negb e then os_makedirs (dirname new_path) else mret tt);;
  mret new_path.

(** [s.split (nl)] and the blocks of a text: the maximal runs of lines that
    are not blank. *)
Fixpoint split_at (c : ascii) (s : string) : list string :=
  match s with
  | EmptyString => [EmptyString]
  | String a r =>
      if decide (a = c) then EmptyString :: split_at c r
      else match split_at c r with
           | [] => [String a EmptyString]
           | l :: ls => String a l :: ls
           end
  end.

Definition split_lines (s : string) : list string := split_at (ascii_of_nat 10) s.

Fixpoint blocks_go (cur : list string) (ls : list string) : list (list string) :=
  match ls with
  | [] => match cur with [] => [] | _ => [cur] end
  | l :: r =>
      if decide (l = "") then
        match cur with [] => blocks_go [] r | _ => cur :: blocks_go [] r end
      else blocks_go (cur ++ [l]) r
  end.

Definition blocks (text : string) : list (list string) :=
  blocks_go [] (split_lines text).






(** [p] is a path below [src], without dots after [src]. *)
Definition under (src p : path) : Prop :=
  exists s, p = src ++ s /\ s <> [] /\ dotfree s.

(** The outcome of the move of [dup], from the file system before to the
    file system after, with the entry logged: done and gone from its source
    location, or failed and still there. *)
Definition move_outcome (target_dir src dup : path)
  (fs fs' : gmap (list string) node) (entry : string) : Prop :=
  (entry = success_entry dup (os_path_join target_dir (relpath dup src)) /\
   fs' !! dup = None) \/
  (exists e, entry = failure_entry dup e /\ fs' !! dup = fs !! dup).

(** All the paths of the groups, and those after the first of each group. *)
Definition all_paths (groups : dict) : list path := concat (map snd groups).

Definition all_dups (groups : dict) : list path :=
  concat (map (fun g => tl (snd g)) groups).

(** A path that the relocation can be given: a regular file below the
    source root and not below the target. *)
Definition movable (src target_dir : path) (fs : gmap (list string) node) (p : path)
  : Prop :=
  under src p /\ ~ target_dir `prefix_of` p /\
  exists d m, stat fs p = inr (File d m).

(** What the relocation, from [w] to [w'] with the log [log] and the moves
    [moved], owes to a group: its first path is where it was, with the same
    bytes, and was not moved; every other path has an entry in the log, and
    is gone from its place when the entry records a move and still there
    when it records a failure. *)
Definition group_settled (target_dir src : path) (w w' : world) (log : list string)
  (moved : list (path * path)) (files : list path) : Prop :=
  match files with
  | [] => True
  | original :: dups =>
      w_fs w' !! original = w_fs w !! original /\
      ~ In original (map fst moved) /\
      Forall (fun d => exists entry, In entry log /\
                move_outcome target_dir src d (w_fs w) (w_fs w') entry) dups
  end.

(** The claim that a group keeps exactly its first file in place: of the
    paths of the group, the first is the only one still there. *)
Definition only_first_remains (fs' : gmap (list string) node) (files : list path)
  : Prop :=
  filter (fun p => is_Some (fs' !! p)) files = take 1 files.

(** What the relocation owes to all the groups. *)
Definition relocation_settled (target_dir src : path) (duplicates : dict) (w : world)
  : Prop :=
  exists log w' moved,
    relocate duplicates target_dir w = (Return log, w') /\
    renames (w_trace w') = renames (w_trace w) ++ moved /\
    Forall (fun g =>
              group_settled target_dir src w w' log moved (snd g) /\
              ((forall d e, In d (tl (snd g)) -> ~ In (failure_entry d e) log) ->
               only_first_remains (w_fs w') (snd g)))
           duplicates.

(** The claim that a move onto an existing destination is refused: the
    turn of the loop logs a failure and the node at the destination is what
    it was. *)
Definition collision_refused (target_dir dup : path) (log : list string) (w : world)
  : Prop :=
  forall src rd n,
    w_source_dir w = Some src ->
    resolve (w_fs w) (os_path_join target_dir (relpath dup src)) = inr rd ->
    w_fs w !! rd = Some n ->
    exists e w',
      move_one target_dir dup log w = (Return (log ++ [failure_entry dup e]), w') /\
      w_fs w' !! rd = Some n.

(** What happens instead when the destination is a regular file: the move
    is logged as done, the file at the destination is the duplicate, and the
    duplicate has left its place. *)
Definition destination_replaced (target_dir dup : path) (log : list string) (w : world)
  (src rs rd : path) (d : list byte) (m : io) : Prop :=
  exists w',
    move_one target_dir dup log w =
      (Return (log ++ [success_entry dup (os_path_join target_dir (relpath dup src))]), w') /\
    w_fs w' !! rd = Some (File d m) /\
    w_fs w' !! rs = None /\
    renames (w_trace w') = renames (w_trace w) ++ [(rs, rd)].

(** What holds of a move that succeeded: the destination logged is the path
    relative to the global [source_dir] joined onto the target; the file is
    there, unless that path was a directory when the move was made, and then
    the file is inside that directory under its own name. *)
Definition destination_of_move (target_dir dup : path) (log : list string) (w : world)
  (src : path) (d : list byte) (m : io) (log' : list string) (w' : world) : Prop :=
  let new_path := os_path_join target_dir (relpath dup src) in
  log' = log ++ [success_entry dup new_path] /\
  exists w2,
    prepare_dest target_dir dup w = (Return new_path, w2) /\
    ((is_dir (w_fs w2) new_path = false /\
      stat (w_fs w') new_path = inr (File d m)) \/
     (is_dir (w_fs w2) new_path = true /\
      stat (w_fs w') (os_path_join new_path [basename dup]) = inr (File d m))).

(** ** A small tree for the examples

    [/s/a/x.txt] and [/s/b/x.txt] hold the same bytes, [/s/b/z] cannot be
    opened, [/s/c/y.txt] is unique. *)
Module Demo.

Definition bytes (s : string) : list byte := list_byte_of_string s.

Definition fs : gmap (list string) node :=
  list_to_map
    [([], Dir ["s"]);
     (["s"], Dir ["a"; "b"; "c"]);
     (["s"; "a"], Dir ["x.txt"]);
     (["s"; "a"; "x.txt"], File (bytes "hello") ReadOK);
     (["s"; "b"], Dir ["x.txt"; "z"]);
     (["s"; "b"; "x.txt"], File (bytes "hello") ReadOK);
     (["s"; "b"; "z"], File (bytes "hello") (OpenFails EACCES));
     (["s"; "c"], Dir ["y.txt"]);
     (["s"; "c"; "y.txt"], File (bytes "unique") ReadOK)].

Definition world0 : world := World fs [] None "2024-01-01_00-00-00" [].

(** The duplicate group that the scan of [/s] finds. *)
Definition groups : dict :=
  [("5d41402abc4b2a76b9719d911017c592", [["s"; "a"; "x.txt"]; ["s"; "b"; "x.txt"]])].

(** The same tree when [/t/b] is a regular file, so that nothing can be put
    under it, and the global [source_dir] is bound to [/s]. *)
Definition fs_blocked : gmap (list string) node :=
  <[["t"; "b"] := File (bytes "in the way") ReadOK]>
    (<[["t"] := Dir ["b"]]> (<[[] := Dir ["s"; "t"]]> fs)).

Definition world_blocked : world :=
  World fs_blocked [] (Some ["s"]) "2024-01-01_00-00-00" [].

(** The same tree when [/t/b/x.txt] is already there with other bytes. *)
Definition fs_taken : gmap (list string) node :=
  <[["t"; "b"; "x.txt"] := File (bytes "precious") ReadOK]>
    (<[["t"; "b"] := Dir ["x.txt"]]>
       (<[["t"] := Dir ["b"]]> (<[[] := Dir ["s"; "t"]]> fs))).

Definition world_taken : world :=
  World fs_taken [] (Some ["s"]) "2024-01-01_00-00-00" [].

(** The same tree when [/t/b/x.txt] is already there as a directory. *)
Definition fs_dir_taken : gmap (list string) node :=
  <[["t"; "b"; "x.txt"] := Dir []]>
    (<[["t"; "b"] := Dir ["x.txt"]]>
       (<[["t"] := Dir ["b"]]> (<[[] := Dir ["s"; "t"]]> fs))).

Definition world_dir_taken : world :=
  World fs_dir_taken [] (Some ["s"]) "2024-01-01_00-00-00" [].

(** The tree when the target directory [/t] is there and empty, and the
    global [source_dir] is bound to [/s]. *)
Definition fs_ready : gmap (list string) node :=
  <[["t"] := Dir []]> (<[[] := Dir ["s"; "t"]]> fs).

Definition world_ready : world :=
  World fs_ready [] (Some ["s"]) "2024-01-01_00-00-00" [].

(** A tree without duplicates. *)
Definition fs_unique : gmap (list string) node :=
  list_to_map
    [([], Dir ["s"]);
     (["s"], Dir ["a"; "y.txt"]);
     (["s"; "a"], Dir ["x.txt"]);
     (["s"; "a"; "x.txt"], File (bytes "hello") ReadOK);
     (["s"; "y.txt"], File (bytes "unique") ReadOK)].

Definition world_unique : world :=
  World fs_unique [] None "2024-01-01_00-00-00" [].

End Demo.

(** ** Vocabulary of the further properties *)

(** Reading [data] under [m] gets to the end: [open] succeeds and no [read]
    that the loop makes fails. *)
Definition reads_through (m : io) (data : list byte) : Prop :=
  match m with
  | ReadOK => True
  | OpenFails _ => False
  | ReadFails k _ => length data + block_size <= k * block_size
  end.

(** [hashes.get (h, [])]. *)
Fixpoint dict_get (h : string) (d : dict) : list path :=
  match d with
  | [] => []
  | (k, vs) :: r => if decide (h = k) then vs else dict_get h r
  end.

(** The paths of [ps] whose digest is [h], in the order of [ps]. *)
Definition hashed_to (fs : gmap (list string) node) (h : string) (ps : list path)
  : list path :=
  filter (fun p => hash_of fs p = Some h) ps.

(** The groups are the classes of the scanned files under their digest, in
    the order of the traversal: keys are distinct and every group is the
    non-empty list of the scanned files with its key as digest. *)
Definition groups_of_scan (fs : gmap (list string) node) (ps : list path)
  (hashes : dict) : Prop :=
  List.NoDup (map fst hashes) /\
  (forall h g, In (h, g) hashes -> h <> "" /\ g <> [] /\ g = hashed_to fs h ps) /\
  (forall p h, In p ps -> hash_of fs p = Some h -> h <> "" -> In h (map fst hashes)).

(** The numbers of the files, counted from [n + 1], at which the scan of
    [len] files prints its progress. *)
Definition progress_marks (n len : nat) : list nat :=
  filter (fun k => k mod 100 = 0) (seq (S n) len).

(** What every caller of [find_duplicates] can rely on: distinct keys,
    groups of two paths or more, every path of a group a scanned regular
    file whose digest is the key, and no path in two groups. *)
Definition duplicate_sets (fs : gmap (list string) node) (ps : list path)
  (duplicates : dict) : Prop :=
  List.NoDup (map fst duplicates) /\
  forall h g, In (h, g) duplicates ->
    2 <= length g /\
    (forall p, In p g ->
       In p ps /\ exists d m, stat fs p = inr (File d m) /\ h = MD5.hexdigest d) /\
    (forall h' g' p, In (h', g') duplicates -> In p g -> In p g' -> h' = h /\ g' = g).

(** The paths of the files in the triples that [os.walk] yields. *)
Definition files_of (triples : list (path * list string * list string)) : list path :=
  flat_map (fun t => map (fun name => os_path_join (fst (fst t)) [name]) (snd t)) triples.

(** A file system in which every node is entered in its parent directory,
    and one in which no directory lists a name twice. *)
Definition all_listed (fs : gmap (list string) node) : Prop :=
  forall (p : path) (c : string) (n : node),
    fs !! (p ++ [c]) = Some n -> exists names, fs !! p = Some (Dir names) /\ In c names.

Definition names_distinct (fs : gmap (list string) node) : Prop :=
  forall (p : path) (names : list string), fs !! p = Some (Dir names) -> List.NoDup names.

(** Checkers for the two conditions. *)
Definition all_listed_b (fs : gmap (list string) node) : bool :=
  forallb (fun kn : path * node =>
             match fst kn with
             | [] => true
             | _ :: _ =>
                 match fs !! removelast (fst kn) with
                 | Some (Dir names) => bool_decide (List.last (fst kn) "" ∈ names)
                 | _ => false
                 end
             end)
          (map_to_list fs).

Definition names_distinct_b (fs : gmap (list string) node) : bool :=
  forallb (fun kn : path * node =>
             match snd kn with
             | Dir names => bool_decide (NoDup names)
             | File _ _ => true
             end)
          (map_to_list fs).

(** What the relocation asks of the groups it is given, for the source
    [src] and the target [target_dir]. *)
Definition relocatable (src target_dir : path) (fs : gmap (list string) node)
  (duplicates : dict) : Prop :=
  List.NoDup (all_paths duplicates) /\
  Forall (movable src target_dir fs) (all_paths duplicates) /\
  Forall (fun g => snd g <> []) duplicates.

Definition msg_log_written (log_file : path) : string :=
  nl ++ "日志已生成: " ++ path_str log_file.

Definition msg_log_failed (e : exn) : string :=
  "无法写入日志文件: " ++ exn_str e.

(** What an error [e] in the creation of the target directory, which left
    the world [w0], does to [move_duplicates]: the function raises [e], an
    [OSError] naming the directory that could not be made, and stops there;
    nothing has been printed, and the file system has only gained
    directories at places that were free. *)
Definition aborted_before_moves (duplicates : dict) (target_dir : path)
  (w : world) (e : exn) (w0 : world) : Prop :=
  move_duplicates duplicates target_dir w = (Raise e, w0) /\
  (exists c p, e = OSError c (Some p) None) /\
  w_out w0 = w_out w /\
  grows (w_fs w) (w_fs w0).

(** The log after [write_log] got to open its file, which is at [r]: when
    the text of the entries can be encoded, the file holds it and the line
    telling where the log is has been printed; when it cannot, the file is
    there and empty and the failure has been printed; every other path is as
    it was. *)
Definition log_written (log_file r : path) (entries : list string) (w w' : world)
  : Prop :=
  let text := str_join nl entries in
  match Text.encode_error text with
  | None =>
      content (w_fs w') log_file = Some (list_byte_of_string text) /\
      w_out w' = w_out w ++ [msg_log_written log_file]
  | Some (bad, start, stop) =>
      content (w_fs w') log_file = Some [] /\
      w_out w' = w_out w ++
        [msg_log_failed
           (UnicodeEncodeError "utf-8" bad start stop "surrogates not allowed")]
  end /\
  forall q, q <> r -> same_kind (w_fs w' !! q) (w_fs w !! q).

Definition msg_found (n : nat) : string :=
  "找到 " ++ pretty n ++ " 个重复文件。".

(** Nothing is in the way of [k] below the directory [base]: no non-empty
    prefix of [k] names anything there. *)
Definition fresh_below (fs : gmap (list string) node) (base k : path) : Prop :=
  forall j, j `prefix_of` k -> j <> [] -> fs !! (base ++ j) = None.

(** The number that [main] prints as the number of duplicates. *)
Definition total_duplicates (duplicates : dict) : nat :=
  foldr Nat.add 0 (map (fun kv => length (snd kv) - 1) duplicates).

(** ** More trees for the examples *)
Module Demo2.

(** The demo tree with the target directory and, in it, the log of an
    earlier run made in the same second. *)
Definition log_name : string := "duplicates_log_2024-01-01_00-00-00.txt".

Definition fs_logged : gmap (list string) node :=
  <[["t"; log_name] := File (Demo.bytes "earlier log") ReadOK]>
    (<[["t"] := Dir [log_name]]> (<[[] := Dir ["s"; "t"]]> Demo.fs)).

Definition world_logged : world :=
  World fs_logged [] (Some ["s"]) "2024-01-01_00-00-00" [].

(** The demo tree with a directory where the log is to be written. *)
Definition fs_log_dir : gmap (list string) node :=
  <[["t"; log_name] := Dir []]>
    (<[["t"] := Dir [log_name]]> (<[[] := Dir ["s"; "t"]]> Demo.fs)).

Definition world_log_dir : world :=
  World fs_log_dir [] (Some ["s"]) "2024-01-01_00-00-00" [].

(** A file two directories below the source, and an empty target. *)
Definition fs_deep : gmap (list string) node :=
  list_to_map
    [([], Dir ["s"; "t"]);
     (["s"], Dir ["a"]);
     (["s"; "a"], Dir ["b"]);
     (["s"; "a"; "b"], Dir ["x.txt"]);
     (["s"; "a"; "b"; "x.txt"], File (Demo.bytes "hello") ReadOK);
     (["t"], Dir [])].

Definition world_deep : world :=
  World fs_deep [] (Some ["s"]) "2024-01-01_00-00-00" [].

(** Two duplicate groups, [x.txt] in [/s/a], [/s/b] and [/s/c] and [y.txt]
    in [/s/a] and [/s/c]; in the target [/t/b] is a regular file, so that
    nothing can be put under it. *)
Definition fs_mixed : gmap (list string) node :=
  list_to_map
    [([], Dir ["s"; "t"]);
     (["s"], Dir ["a"; "b"; "c"]);
     (["s"; "a"], Dir ["x.txt"; "y.txt"]);
     (["s"; "a"; "x.txt"], File (Demo.bytes "hello") ReadOK);
     (["s"; "a"; "y.txt"], File (Demo.bytes "world") ReadOK);
     (["s"; "b"], Dir ["x.txt"]);
     (["s"; "b"; "x.txt"], File (Demo.bytes "hello") ReadOK);
     (["s"; "c"], Dir ["x.txt"; "y.txt"]);
     (["s"; "c"; "x.txt"], File (Demo.bytes "hello") ReadOK);
     (["s"; "c"; "y.txt"], File (Demo.bytes "world") ReadOK);
     (["t"], Dir ["b"]);
     (["t"; "b"], File (Demo.bytes "in the way") ReadOK)].

Definition world_mixed : world :=
  World fs_mixed [] (Some ["s"]) "2024-01-01_00-00-00" [].

(** The groups that the scan of [/s] finds there. *)
Definition groups_mixed : dict :=
  [("5d41402abc4b2a76b9719d911017c592",
    [["s"; "a"; "x.txt"]; ["s"; "b"; "x.txt"]; ["s"; "c"; "x.txt"]]);
   ("7d793037a0760186574b0282f2f435e7",
    [["s"; "a"; "y.txt"]; ["s"; "c"; "y.txt"]])].

(** A source directory with a hundred empty files, named [0] to [99]. *)
Definition hundred_names : list string := map pretty (seq 0 100).

Definition fs_hundred : gmap (list string) node :=
  list_to_map
    (([], Dir ["s"]) :: (["s"], Dir hundred_names)
     :: map (fun name => (["s"; name], File [] ReadOK)) hundred_names).

Definition world_hundred : world :=
  World fs_hundred [] None "2024-01-01_00-00-00" [].

(** A name with a byte that is not UTF-8, as a file system may hold. *)
Definition odd_name : string := "x" ++ String (ascii_of_nat 255) ".txt".

(** An empty source directory. *)
Definition fs_empty : gmap (list string) node :=
  list_to_map [([], Dir ["s"]); (["s"], Dir [])].

Definition world_empty : world := World fs_empty [] None "2024-01-01_00-00-00" [].

End Demo2.

(** Unfolding of the monad's operations. *)
Ltac mrun :=
  repeat (unfold mbind, M_bind, mret, M_ret, raise, try_except, print, get_fs,
          put_fs, lift_errno, strftime_now, global_source_dir,
          set_global_source_dir; simpl).
(** * Properties *)

Example md5_empty :
  MD5.hexdigest [] = "d41d8cd98f00b204e9800998ecf8427e".
Proof. vm_compute. reflexivity. Qed.

Example md5_abc :
  MD5.hexdigest (list_byte_of_string "abc") = "900150983cd24fb0d6963f7d28e17f72".
Proof. vm_compute. reflexivity. Qed.

Example md5_two_blocks :
  MD5.hexdigest (repeat "x"%byte 56) = "668a72d5ba17f08e62dabcafad6db14b".
Proof. vm_compute. reflexivity. Qed.

Example md5_three_blocks :
  MD5.hexdigest (repeat "y"%byte 130) = "f2971b770e679c3dbe9d50a24266a452".
Proof. vm_compute. reflexivity. Qed.

Lemma hexdigest_length (data : list byte) :
  String.length (MD5.hexdigest data) = 32.
Proof.
  unfold MD5.hexdigest.
  destruct (MD5.digest_regs _) as [[[a b] c] d]. reflexivity.
Qed.

Lemma block_size_pos : 0 < block_size.
Proof. unfold block_size. lia. Qed.

(** The reading loop on a file whose reads all succeed hands every byte to
    the digest, in order. *)
Lemma f_read_inv bs h r :
  f_read bs h = r ->
  match h_io h with
  | ReadFails k e =>
      if decide (k = h_reads h) then r = inl (OSError e None None)
      else r = inr (take bs (h_rest h),
                    Handle (drop bs (h_rest h)) (h_io h) (S (h_reads h)))
  | _ => r = inr (take bs (h_rest h),
                  Handle (drop bs (h_rest h)) (h_io h) (S (h_reads h)))
  end.
Proof.
  intros <-. unfold f_read. destruct (h_io h); try destruct (decide _); reflexivity.
Qed.

(** What the reading loop returns: the error of the failing [read] when the
    loop gets to it, otherwise every byte of the file in order. *)
Lemma hash_loop_spec bs h md5 :
  0 < bs ->
  hash_loop bs h md5 =
    match h_io h with
    | ReadFails k e =>
        if decide (h_reads h <= k /\ (k - h_reads h) * bs < length (h_rest h) + bs)
        then inl (OSError e None None)
        else inr (md5 ++ h_rest h)
    | _ => inr (md5 ++ h_rest h)
    end.
Proof.
  intros Hbs. funelim (hash_loop bs h md5).
  - clear H Heqcall. apply f_read_inv in e1.
    destruct (h_io h) as [| |k c]; try discriminate.
    destruct (decide (k = h_reads h)) as [->|]; [|discriminate].
    inversion e1; subst. rewrite decide_True; [reflexivity|]. split; lia.
  - clear H Heqcall. apply f_read_inv in e.
    assert (Hnil : h_rest h = []).
    { assert (Ht : take bs (h_rest h) = []).
      { destruct (h_io h); try destruct (decide _); congruence. }
      destruct bs; [lia|]. destruct (h_rest h); [reflexivity|discriminate]. }
    rewrite Hnil, app_nil_r.
    destruct (h_io h) as [| |k c]; try reflexivity.
    destruct (decide (k = h_reads h)); [discriminate|].
    rewrite decide_False; [reflexivity|]. simpl. intros [? ?]. nia.
  - clear Heqcall. specialize (H Hbs). rewrite H. clear H H0.
    apply f_read_inv in Hr.
    assert (Hh : b :: chunk = take bs (h_rest h) /\
                 h' = Handle (drop bs (h_rest h)) (h_io h) (S (h_reads h))).
    { destruct (h_io h); try destruct (decide _); try discriminate;
        inversion Hr; subst; auto. }
    destruct Hh as [Hc ->]. simpl.
    assert (Happ : (md5 ++ b :: chunk) ++ drop bs (h_rest h) = md5 ++ h_rest h).
    { rewrite Hc, <- app_assoc, take_drop. reflexivity. }
    rewrite Happ.
    destruct (h_io h) as [| |k c]; try reflexivity.
    destruct (decide (k = h_reads h)); [discriminate|].
    assert (Hlen : 0 < length (h_rest h)).
    { destruct (h_rest h); [destruct bs; discriminate|simpl; lia]. }
    rewrite length_drop.
    destruct (decide (S (h_reads h) <= k /\ _)) as [[? ?]|Hn];
      destruct (decide (h_reads h <= k /\ _)) as [[? ?]|Hn']; try reflexivity.
    + exfalso. apply Hn'. split; [lia|]. nia.
    + exfalso. apply Hn. split; [lia|]. nia.
Qed.

Lemma add_out_nil w : add_out w [] = w.
Proof. destruct w. unfold add_out. simpl. rewrite app_nil_r. reflexivity. Qed.

Lemma add_out_app w a b : add_out (add_out w a) b = add_out w (a ++ b).
Proof. unfold add_out. simpl. rewrite app_assoc. reflexivity. Qed.

Lemma read_and_hash_ok fs p h :
  read_and_hash fs p = inr h ->
  exists d m, stat fs p = inr (File d m) /\ h = MD5.hexdigest d.
Proof.
  unfold read_and_hash, open_rb. intros H.
  destruct (stat fs p) as [c|[d m|names]]; try discriminate.
  exists d, m. split; [reflexivity|].
  destruct m as [|c|k c]; try discriminate;
    rewrite hash_loop_spec in H by apply block_size_pos; simpl in H.
  - inversion H. reflexivity.
  - destruct (decide _); inversion H. reflexivity.
Qed.


Lemma compute_hash_eq p w :
  compute_hash p w = (Return (hash_of (w_fs w) p), add_out w (report_of (w_fs w) p)).
Proof.
  unfold compute_hash, hash_of, report_of. mrun.
  destruct (read_and_hash (w_fs w) p); mrun; [reflexivity|].
  rewrite <- (add_out_nil w) at 1. reflexivity.
Qed.

Lemma w_fs_add_out w l : w_fs (add_out w l) = w_fs w.
Proof. reflexivity. Qed.

Lemma scan_lines_app fs n a b :
  scan_lines fs n (a ++ b) = scan_lines fs n a ++ scan_lines fs (n + length a) b.
Proof.
  revert n. induction a as [|p a IH]; intros n; simpl.
  - rewrite Nat.add_0_r. reflexivity.
  - rewrite IH, <- !app_assoc.
    replace (S n + length a) with (n + S (length a)) by lia. reflexivity.
Qed.

Lemma scan_file_eq root name st w :
  scan_file root name st w =
    (Return (S (fst st), hash_step (w_fs w) (snd st) (os_path_join root [name])),
     add_out w (scan_lines (w_fs w) (fst st) [os_path_join root [name]])).
Proof.
  unfold scan_file. simpl scan_lines. rewrite app_nil_r.
  unfold mbind, M_bind.
  assert (Hp : forall (c : bool) (P : Prop) (dec : Decision P) (l : string) w0,
             (if dec then print l else mret tt) w0
             = (Return tt, add_out w0 (if dec then [l] else []))).
  { intros _ P dec l w0. destruct dec; [reflexivity|].
    unfold mret, M_ret. rewrite add_out_nil. reflexivity. }
  rewrite (Hp true). rewrite compute_hash_eq. rewrite w_fs_add_out.
  unfold hash_step. rewrite add_out_app.
  destruct (hash_of (w_fs w) _) as [h|]; [destruct (decide (h = ""))|]; reflexivity.
Qed.

Lemma scan_files_eq root files st w :
  for_each files (scan_file root) st w =
    (Return (fst st + length files,
             group_paths (w_fs w) (map (fun name => os_path_join root [name]) files) (snd st)),
     add_out w (scan_lines (w_fs w) (fst st)
                  (map (fun name => os_path_join root [name]) files))).
Proof.
  revert st w. induction files as [|name files IH]; intros [n d] w; simpl.
  - unfold mret, M_ret. rewrite add_out_nil, Nat.add_0_r. reflexivity.
  - unfold mbind, M_bind. rewrite scan_file_eq, IH. simpl.
    rewrite add_out_app, app_nil_r, <- app_assoc.
    replace (n + S (length files)) with (S n + length files) by lia. reflexivity.
Qed.

Lemma scan_dirs_eq triples st w :
  let ps := flat_map (fun t => map (fun name => os_path_join (fst (fst t)) [name]) (snd t))
              triples in
  for_each triples scan_dir st w =
    (Return (fst st + length ps, group_paths (w_fs w) ps (snd st)),
     add_out w (scan_lines (w_fs w) (fst st) ps)).
Proof.
  revert st w. induction triples as [|[[root dirs] files] triples IH]; intros [n d] w; simpl.
  - unfold mret, M_ret. rewrite add_out_nil, Nat.add_0_r. reflexivity.
  - unfold mbind, M_bind. rewrite scan_files_eq. simpl in *. rewrite IH. simpl.
    rewrite add_out_app, scan_lines_app, length_app.
    unfold group_paths. rewrite fold_left_app, Nat.add_assoc, length_map. reflexivity.
Qed.

(** The scan as a function of the file system: the number of files handed to
    the hasher, the groups, and the lines printed. *)
Lemma scan_eq source_dir w :
  let ps := scanned_files (w_fs w) source_dir in
  scan source_dir w =
    (Return (length ps, group_paths (w_fs w) ps []),
     add_out w ([msg_scan_start source_dir] ++ scan_lines (w_fs w) 0 ps
                ++ [msg_scan_done (length ps)])).
Proof.
  unfold scan. unfold mbind, M_bind. simpl.
  change (get_fs _) with
    (Return (w_fs w), add_out w [msg_scan_start source_dir]).
  cbv beta iota. rewrite scan_dirs_eq. simpl.
  unfold print, mret, M_ret. simpl. unfold add_out. simpl.
  rewrite <- !app_assoc. reflexivity.
Qed.

Lemma find_duplicates_eq source_dir w :
  let ps := scanned_files (w_fs w) source_dir in
  find_duplicates source_dir w =
    (Return (filter (fun kv => 1 < length (snd kv)) (group_paths (w_fs w) ps [])),
     add_out w ([msg_scan_start source_dir] ++ scan_lines (w_fs w) 0 ps
                ++ [msg_scan_done (length ps)])).
Proof.
  unfold find_duplicates, mbind, M_bind. rewrite scan_eq. reflexivity.
Qed.

(** *** The dictionary of groups *)

Lemma dict_append_keys_in k v (d : dict) :
  In k (map fst d) -> map fst (dict_append k v d) = map fst d.
Proof.
  induction d as [|[k' vs] d IH]; simpl; [contradiction|].
  intros Hin. destruct (decide (k = k')) as [->|Hne]; simpl; [reflexivity|].
  rewrite IH; [reflexivity|]. destruct Hin; congruence.
Qed.

Lemma dict_append_keys_notin k v (d : dict) :
  ~ In k (map fst d) -> map fst (dict_append k v d) = map fst d ++ [k].
Proof.
  induction d as [|[k' vs] d IH]; simpl; [reflexivity|].
  intros Hin. destruct (decide (k = k')) as [->|Hne]; simpl.
  - exfalso. auto.
  - rewrite IH; [reflexivity|]. auto.
Qed.

Lemma dict_append_NoDup k v (d : dict) :
  List.NoDup (map fst d) -> List.NoDup (map fst (dict_append k v d)).
Proof.
  intros Hd. destruct (in_dec string_dec k (map fst d)) as [Hin|Hin].
  - rewrite dict_append_keys_in; assumption.
  - rewrite dict_append_keys_notin by assumption.
    apply NoDup_ListNoDup, NoDup_app. apply NoDup_ListNoDup in Hd.
    split; [assumption|]. split; [|apply NoDup_singleton].
    intros x Hx Hk. apply list_elem_of_In in Hx. apply list_elem_of_In in Hk.
    destruct Hk as [->|[]]. contradiction.
Qed.

Lemma member_dict_append (d : dict) k v h p :
  member (dict_append k v d) h p <-> (h = k /\ p = v) \/ member d h p.
Proof.
  unfold member. induction d as [|[k' vs] d IH]; simpl.
  - split.
    + intros (g & [Heq|[]] & Hp). injection Heq as <- <-.
      destruct Hp as [->|[]]. auto.
    + intros [[-> ->]|(g & [] & _)]. exists [v]. simpl. auto.
  - destruct (decide (k = k')) as [Hk|Hne]; simpl.
    + subst k'. split.
      * intros (g & [Heq|Hin] & Hp).
        -- injection Heq as <- <-. apply in_app_or in Hp as [Hp|[->|[]]]; eauto 6.
        -- eauto 6.
      * intros [[-> ->]|(g & [Heq|Hin] & Hp)].
        -- exists (vs ++ [v]). split; [auto|]. apply in_or_app. simpl. auto.
        -- injection Heq as <- <-. exists (vs ++ [v]). split; [auto|].
           apply in_or_app. auto.
        -- eauto.
    + split.
      * intros (g & [Heq|Hin] & Hp).
        -- injection Heq as <- <-. eauto 6.
        -- destruct (proj1 IH) as [?|(g' & ? & ?)]; eauto 6.
      * intros [Heq|(g & [Heq|Hin] & Hp)].
        -- destruct (proj2 IH (or_introl Heq)) as (g & ? & ?). eauto.
        -- eauto.
        -- destruct (proj2 IH) as (g' & ? & ?); eauto.
Qed.

Lemma hash_step_NoDup fs (d : dict) p :
  List.NoDup (map fst d) -> List.NoDup (map fst (hash_step fs d p)).
Proof.
  intros Hd. unfold hash_step. destruct (hash_of fs p) as [h|]; [|assumption].
  destruct (decide _); [assumption|]. apply dict_append_NoDup. assumption.
Qed.

Lemma group_paths_NoDup fs ps (d : dict) :
  List.NoDup (map fst d) -> List.NoDup (map fst (group_paths fs ps d)).
Proof.
  revert d. induction ps as [|p ps IH]; intros d Hd; simpl; [assumption|].
  apply IH, hash_step_NoDup, Hd.
Qed.

Lemma member_hash_step fs (d : dict) q h p :
  member (hash_step fs d q) h p <->
  member d h p \/ (p = q /\ hash_of fs q = Some h /\ h <> "").
Proof.
  unfold hash_step. destruct (hash_of fs q) as [h'|].
  - destruct (decide (h' = "")) as [->|Hne].
    + split; [auto|]. intros [?|(_ & Heq & Hn)]; [assumption|]. congruence.
    + rewrite member_dict_append. split.
      * intros [[-> ->]|?]; auto.
      * intros [?|(-> & Heq & _)]; [auto|]. inversion Heq. auto.
  - split; [auto|]. intros [?|(_ & ? & _)]; [assumption|discriminate].
Qed.

(** Membership in the groups after the scan of [ps]. *)
Lemma member_group_paths fs ps (d : dict) h p :
  member (group_paths fs ps d) h p <->
  member d h p \/ (In p ps /\ hash_of fs p = Some h /\ h <> "").
Proof.
  revert d. induction ps as [|q ps IH]; intros d; simpl.
  - split; [auto|]. intros [?|([] & _)]. assumption.
  - rewrite IH, member_hash_step. split.
    + intros [[?|(-> & ? & ?)]|(? & ? & ?)]; auto 6.
    + intros [?|([->|?] & ? & ?)]; auto 6.
Qed.

Lemma NoDup_fst_unique {A B} (l : list (A * B)) k v1 v2 :
  List.NoDup (map fst l) -> In (k, v1) l -> In (k, v2) l -> v1 = v2.
Proof.
  induction l as [|[k' v'] l IH]; simpl; intros Hnd H1 H2; [contradiction|].
  inversion Hnd as [|? ? Hnot Hnd']; subst.
  destruct H1 as [H1|H1], H2 as [H2|H2].
  - congruence.
  - inversion H1; subst. exfalso. apply Hnot.
    change k with (fst (k, v2)). apply in_map. assumption.
  - inversion H2; subst. exfalso. apply Hnot.
    change k with (fst (k, v1)). apply in_map. assumption.
  - eauto.
Qed.

Lemma member_nil h p : ~ member [] h p.
Proof. intros (g & [] & _). Qed.

Lemma hash_of_inr fs p h : read_and_hash fs p = inr h -> hash_of fs p = Some h.
Proof. unfold hash_of. intros ->. reflexivity. Qed.

Lemma hexdigest_nonempty d : MD5.hexdigest d <> "".
Proof.
  intros H. pose proof (hexdigest_length d) as Hl. rewrite H in Hl. discriminate.
Qed.

Lemma content_stat fs p d : content fs p = Some d -> exists m, stat fs p = inr (File d m).
Proof.
  unfold content. destruct (stat fs p) as [|[d' m|]]; try discriminate.
  intros [= ->]. eauto.
Qed.

Lemma hashed_digest fs p d h :
  content fs p = Some d -> read_and_hash fs p = inr h -> h = MD5.hexdigest d.
Proof.
  intros Hc Hh. apply content_stat in Hc as [m Hs].
  apply read_and_hash_ok in Hh as (d' & m' & Hs' & ->). congruence.
Qed.

(** *** The scan *)

Lemma same_group_of_members (hashes : dict) h p q :
  List.NoDup (map fst hashes) -> member hashes h p -> member hashes h q ->
  same_group hashes p q.
Proof.
  intros Hnd (g1 & Hg1 & Hp) (g2 & Hg2 & Hq).
  assert (g1 = g2) by (eapply NoDup_fst_unique; eassumption). subst g2.
  exists h, g1. auto.
Qed.

Lemma filter_groups_In (hashes : dict) h g :
  In (h, g) (filter (fun kv => 1 < length (snd kv)) hashes) <->
  In (h, g) hashes /\ 2 <= length g.
Proof.
  rewrite <- !list_elem_of_In, list_elem_of_filter. simpl. tauto.
Qed.

(** C1. Two files under the source root that are both hashed are put in the
    same digest group when their bytes are equal, and in different groups
    when their bytes differ and their digests do not collide;
    [find_duplicates] returns exactly the groups of two or more paths. *)
Theorem C1_grouping (w : world) (source_dir p1 p2 : path) (d1 d2 : list byte)
  (h1 h2 : string) :
  In p1 (scanned_files (w_fs w) source_dir) ->
  In p2 (scanned_files (w_fs w) source_dir) ->
  content (w_fs w) p1 = Some d1 ->
  content (w_fs w) p2 = Some d2 ->
  read_and_hash (w_fs w) p1 = inr h1 ->
  read_and_hash (w_fs w) p2 = inr h2 ->
  grouping_correct w source_dir p1 p2 d1 d2.
Proof.
  intros Hp1 Hp2 Hc1 Hc2 Hh1 Hh2. unfold grouping_correct.
  pose proof (hashed_digest _ _ _ _ Hc1 Hh1) as E1.
  pose proof (hashed_digest _ _ _ _ Hc2 Hh2) as E2.
  eexists _, _, _. split; [apply scan_eq|].
  set (ps := scanned_files (w_fs w) source_dir) in *.
  set (hashes := group_paths (w_fs w) ps []).
  assert (Hnd : List.NoDup (map fst hashes))
    by (apply group_paths_NoDup; constructor).
  assert (M1 : member hashes h1 p1).
  { apply member_group_paths. right. split; [assumption|].
    split; [apply hash_of_inr, Hh1|]. subst h1. apply hexdigest_nonempty. }
  assert (M2 : member hashes h2 p2).
  { apply member_group_paths. right. split; [assumption|].
    split; [apply hash_of_inr, Hh2|]. subst h2. apply hexdigest_nonempty. }
  split; [|split].
  - intros ->. subst h1 h2. eapply same_group_of_members; eassumption.
  - intros _ Hcol (h & g & Hg & Hi1 & Hi2).
    assert (N1 : member hashes h p1) by (exists g; auto).
    assert (N2 : member hashes h p2) by (exists g; auto).
    apply member_group_paths in N1 as [N1|(_ & N1 & _)]; [destruct (member_nil _ _ N1)|].
    apply member_group_paths in N2 as [N2|(_ & N2 & _)]; [destruct (member_nil _ _ N2)|].
    rewrite (hash_of_inr _ _ _ Hh1) in N1. rewrite (hash_of_inr _ _ _ Hh2) in N2.
    congruence.
  - eexists. split; [apply find_duplicates_eq|].
    intros h g. apply filter_groups_In.
Qed.

Lemma C1_grouping_witness :
  grouping_correct Demo.world0 ["s"] ["s"; "a"; "x.txt"] ["s"; "b"; "x.txt"]
    (Demo.bytes "hello") (Demo.bytes "hello").
Proof.
  apply (C1_grouping Demo.world0 ["s"] ["s"; "a"; "x.txt"] ["s"; "b"; "x.txt"]
           (Demo.bytes "hello") (Demo.bytes "hello")
           "5d41402abc4b2a76b9719d911017c592" "5d41402abc4b2a76b9719d911017c592");
    vm_compute; auto.
Defined.




(** The reports of the two kinds of failure, on the demo tree and on the
    same tree with [/s/c/y.txt] failing at its first [read]: the error of
    [open] names the file, the error of [read] does not. *)
Lemma demo_unreadable_reports :
  let fs_read := <[["s"; "c"; "y.txt"] := File (Demo.bytes "unique") (ReadFails 0 EIO)]> Demo.fs in
  let w_read := World fs_read [] None "2024-01-01_00-00-00" [] in
  compute_hash ["s"; "b"; "z"] Demo.world0 =
    (Return None,
     add_out Demo.world0
       ["无法读取文件 /s/b/z: [Errno 13] Permission denied: '/s/b/z'"]) /\
  compute_hash ["s"; "c"; "y.txt"] w_read =
    (Return None,
     add_out w_read ["无法读取文件 /s/c/y.txt: [Errno 5] Input/output error"]).
Proof. vm_compute. split; reflexivity. Qed.

(** *** The orchestrator *)

Lemma os_path_isdir_eq p w :
  os_path_isdir p w = (Return (is_dir (w_fs w) p), w).
Proof. reflexivity. Qed.



(** C4. When the scan finds no duplicate group, [main] reports it and
    returns: nothing but printing happened, so neither the target directory
    nor a log file was created and the file system is unchanged. *)
Theorem C4_no_duplicates_no_effect (w : world) (source_dir target_dir : path)
  (names : list string) :
  stat (w_fs w) source_dir = inr (Dir names) ->
  fst (find_duplicates source_dir w) = Return [] ->
  exists lines,
    only_printed (main source_dir target_dir w) w (lines ++ [msg_no_duplicates]) /\
    w_fs (snd (main source_dir target_dir w)) = w_fs w /\
    w_trace (snd (main source_dir target_dir w)) = w_trace w /\
    stat (w_fs (snd (main source_dir target_dir w))) target_dir
      = stat (w_fs w) target_dir.
Proof.
  intros Hs Hnone. rewrite find_duplicates_eq in Hnone. simpl in Hnone.
  injection Hnone as Hnone.
  assert (Hmain : exists lines,
             main source_dir target_dir w = (Return tt, add_out w (lines ++ [msg_no_duplicates]))).
  { exists (banner source_dir target_dir
             ++ [msg_scan_start source_dir]
             ++ scan_lines (w_fs w) 0 (scanned_files (w_fs w) source_dir)
             ++ [msg_scan_done (length (scanned_files (w_fs w) source_dir))]).
    unfold main, mbind, M_bind. simpl. unfold is_dir. simpl. rewrite Hs. simpl.
    rewrite find_duplicates_eq. simpl. rewrite Hnone.
    unfold print, add_out. simpl. rewrite <- !app_assoc. simpl.
    rewrite <- !app_assoc. reflexivity. }
  destruct Hmain as [lines Hmain]. exists lines. unfold only_printed.
  rewrite Hmain. simpl. repeat split; reflexivity.
Qed.

Lemma C4_no_duplicates_no_effect_witness :
  exists lines,
    only_printed (main ["s"] ["t"] Demo.world_unique) Demo.world_unique
      (lines ++ [msg_no_duplicates]) /\
    w_fs (snd (main ["s"] ["t"] Demo.world_unique)) = w_fs Demo.world_unique /\
    w_trace (snd (main ["s"] ["t"] Demo.world_unique)) = w_trace Demo.world_unique /\
    stat (w_fs (snd (main ["s"] ["t"] Demo.world_unique))) ["t"]
      = stat (w_fs Demo.world_unique) ["t"].
Proof.
  apply (C4_no_duplicates_no_effect Demo.world_unique ["s"] ["t"] ["a"; "y.txt"]);
    vm_compute; reflexivity.
Defined.

(** *** Relocation: the log *)

Lemma move_one_unbound tgt dup log w :
  w_source_dir w = None ->
  move_one tgt dup log w =
    (Return (log ++ [failure_entry dup (NameError "source_dir")]),
     add_out w [msg_not_moved dup (NameError "source_dir")]).
Proof.
  intros Hg. unfold move_one, move_body, try_except, mbind, M_bind, global_source_dir.
  rewrite Hg. reflexivity.
Qed.



Lemma renames_app t1 t2 : renames (t1 ++ t2) = renames t1 ++ renames t2.
Proof. unfold renames. apply flat_map_app. Qed.

Lemma os_mkdir_renames p w :
  renames (w_trace (snd (os_mkdir p w))) = renames (w_trace w).
Proof.
  unfold os_mkdir. mrun. destruct (resolve (w_fs w) p) as [c|r]; simpl; [reflexivity|].
  destruct (w_fs w !! r); simpl; [reflexivity|].
  rewrite renames_app. simpl. apply app_nil_r.
Qed.

Lemma makedirs_rev_renames rname w :
  renames (w_trace (snd (makedirs_rev rname w))) = renames (w_trace w).
Proof.
  revert w. induction rname as [|tail rhead IH]; intros w; simpl.
  - apply os_mkdir_renames.
  - unfold mbind, M_bind, os_path_exists, try_except. mrun.
    destruct (stat (w_fs w) (rev rhead)); simpl.
    + specialize (IH w). destruct (makedirs_rev rhead w) as [[[]|ex] w1]; simpl in *.
      * destruct (decide (tail = ".")); simpl; [assumption|].
        rewrite os_mkdir_renames. assumption.
      * destruct ex as [[] q q2|msg|name|codec bad start stop reason|]; simpl; try assumption.
        destruct (decide (tail = ".")); simpl; [assumption|].
        rewrite os_mkdir_renames. assumption.
    + apply os_mkdir_renames.
Qed.

Lemma ensure_target_renames tgt w :
  renames (w_trace (snd (ensure_target tgt w))) = renames (w_trace w).
Proof.
  unfold ensure_target, os_path_exists. mrun.
  destruct (stat (w_fs w) tgt); simpl; [|reflexivity].
  apply makedirs_rev_renames.
Qed.

Lemma write_log_renames p entries w :
  renames (w_trace (snd (write_log p entries w))) = renames (w_trace w).
Proof.
  unfold write_log, write_text, write_encoded. mrun.
  destruct (resolve (w_fs w) p) as [c|r]; simpl; [reflexivity|].
  destruct (w_fs w !! r) as [[d m|names]|]; simpl; try reflexivity;
    destruct (Text.encode_error _) as [[[bad start] stop]|]; simpl;
    rewrite renames_app; simpl; apply app_nil_r.
Qed.

Lemma same_env_refl w : same_env w w.
Proof. unfold same_env. auto. Qed.

Lemma same_env_trans w1 w2 w3 : same_env w1 w2 -> same_env w2 w3 -> same_env w1 w3.
Proof. unfold same_env. intros (? & ? & ?) (? & ? & ?). repeat split; congruence. Qed.

Lemma same_env_set_fs w fs ev : same_env w (set_fs w fs ev).
Proof. unfold same_env. auto. Qed.

Create HintDb env.
#[local] Hint Resolve same_env_refl same_env_set_fs : env.

Lemma os_mkdir_env p w : same_env w (snd (os_mkdir p w)).
Proof.
  unfold os_mkdir. mrun. destruct (resolve (w_fs w) p) as [c|r]; simpl; auto with env.
  destruct (w_fs w !! r); simpl; auto with env.
Qed.

Lemma makedirs_rev_env rname w : same_env w (snd (makedirs_rev rname w)).
Proof.
  revert w. induction rname as [|tail rhead IH]; intros w; simpl.
  - apply os_mkdir_env.
  - unfold mbind, M_bind, os_path_exists, try_except. mrun.
    destruct (stat (w_fs w) (rev rhead)); simpl; [|apply os_mkdir_env].
    specialize (IH w). destruct (makedirs_rev rhead w) as [[[]|ex] w1]; simpl in *.
    + destruct (decide (tail = ".")); simpl; [assumption|].
      eapply same_env_trans; [eassumption|apply os_mkdir_env].
    + destruct ex as [[] q q2|msg|name|codec bad start stop reason|]; simpl; try assumption.
      destruct (decide (tail = ".")); simpl; [assumption|].
      eapply same_env_trans; [eassumption|apply os_mkdir_env].
Qed.

Lemma ensure_target_env tgt w : same_env w (snd (ensure_target tgt w)).
Proof.
  unfold ensure_target, os_path_exists. mrun.
  destruct (stat (w_fs w) tgt); simpl; [|apply same_env_refl].
  apply makedirs_rev_env.
Qed.


Lemma move_one_return tgt dup log w v w1 :
  move_body tgt dup log w = (Return v, w1) ->
  move_one tgt dup log w = (Return v, w1).
Proof. unfold move_one, try_except. intros ->. reflexivity. Qed.

Lemma move_one_raise tgt dup log w e w1 :
  move_body tgt dup log w = (Raise e, w1) ->
  move_one tgt dup log w =
    (Return (log ++ [failure_entry dup e]), add_out w1 [msg_not_moved dup e]).
Proof. unfold move_one, try_except. intros ->. reflexivity. Qed.



Lemma move_group_cons tgt h original dups log w :
  move_group tgt (h, original :: dups) log w =
    match for_each dups (move_one tgt) (log ++ [original_entry original]) w with
    | (Return a, w') => (Return (a ++ [nl]), w')
    | (Raise e, w') => (Raise e, w')
    end.
Proof. reflexivity. Qed.



(** C9. The log of the run on the demo tree, which has one duplicate group:
    split at the line ends, its text has a blank line after the line of the
    original and after every entry, so the maximal runs of non-blank lines
    are two for the one group, the first holding the original alone. *)
Theorem C9_log_layout :
  let w' := snd (cli ["s"] ["t"] Demo.world0) in
  let log_file := log_file_of ["t"] "2024-01-01_00-00-00" in
  fst (find_duplicates ["s"] Demo.world0) = Return Demo.groups /\
  option_map string_of_list_byte (content (w_fs w') log_file)
    = Some (str_join nl [original_entry ["s"; "a"; "x.txt"];
                         success_entry ["s"; "b"; "x.txt"] ["t"; "b"; "x.txt"]; nl]) /\
  option_map (fun b => split_lines (string_of_list_byte b)) (content (w_fs w') log_file)
    = Some ["原始文件: /s/a/x.txt"; ""; "  重复文件: /s/b/x.txt"; "  移动到: /t/b/x.txt";
            ""; ""; ""] /\
  option_map (fun b => blocks (string_of_list_byte b)) (content (w_fs w') log_file)
    = Some [["原始文件: /s/a/x.txt"];
            ["  重复文件: /s/b/x.txt"; "  移动到: /t/b/x.txt"]].
Proof. vm_compute. repeat split; reflexivity. Qed.

(** *** The file system under the relocation *)

Lemma same_kind_refl a : same_kind a a.
Proof. destruct a as [[d m|ns]|]; simpl; auto. Qed.

Lemma same_kind_sym a b : same_kind a b -> same_kind b a.
Proof.
  destruct a as [[d m|ns]|], b as [[d' m'|ns']|]; simpl; auto. intros []; auto.
Qed.

Lemma same_kind_trans a b c : same_kind a b -> same_kind b c -> same_kind a c.
Proof.
  destruct a as [[d m|ns]|], b as [[d' m'|ns']|], c as [[d2 m2|ns2]|]; simpl;
    auto; try tauto.
  intros [] []. split; congruence.
Qed.

Lemma same_kind_file a d m : same_kind a (Some (File d m)) -> a = Some (File d m).
Proof. destruct a as [[d' m'|ns]|]; simpl; try tauto. intros [-> ->]. reflexivity. Qed.

Lemma same_kind_none a : same_kind a None -> a = None.
Proof. destruct a as [[d' m'|ns]|]; simpl; tauto. Qed.

Lemma same_kind_dir a ns : same_kind a (Some (Dir ns)) -> exists ns', a = Some (Dir ns').
Proof. destruct a as [[d' m'|ns0]|]; simpl; try tauto. eauto. Qed.

Lemma same_kind_alter (f : node -> node) (k q : path) (fs : gmap (list string) node) :
  (forall n, same_kind (Some (f n)) (Some n)) ->
  same_kind (alter f k fs !! q) (fs !! q).
Proof.
  intros Hf. rewrite lookup_alter.
  destruct (decide (k = q)) as [->|]; [|apply same_kind_refl].
  destruct (fs !! q); simpl; [apply Hf|exact I].
Qed.

Lemma add_name_kind c n : same_kind (Some (add_name c n)) (Some n).
Proof. destruct n; simpl; auto. Qed.

Lemma del_name_kind c n : same_kind (Some (del_name c n)) (Some n).
Proof. destruct n; simpl; auto. Qed.

Lemma lookup_unlink_same (r : path) (fs : gmap (list string) node) : unlink r fs !! r = None.
Proof. unfold unlink. apply lookup_delete_eq. Qed.

Lemma lookup_unlink_other (r q : path) (fs : gmap (list string) node) :
  q <> r -> same_kind (unlink r fs !! q) (fs !! q).
Proof.
  intros Hne. unfold unlink. rewrite lookup_delete_ne by congruence.
  apply same_kind_alter, del_name_kind.
Qed.

Lemma lookup_link_same (r : path) (n : node) (fs : gmap (list string) node) : link r n fs !! r = Some n.
Proof. unfold link. destruct (fs !! r); apply lookup_insert_eq. Qed.

Lemma lookup_link_other (r q : path) (n : node) (fs : gmap (list string) node) :
  q <> r -> same_kind (link r n fs !! q) (fs !! q).
Proof.
  intros Hne. unfold link. destruct (fs !! r); rewrite lookup_insert_ne by congruence.
  - apply same_kind_refl.
  - apply same_kind_alter, add_name_kind.
Qed.

Lemma stat_of_resolve (fs : gmap (list string) node) (p r : path) (n : node) :
  resolve fs p = inr r -> fs !! r = Some n -> stat fs p = inr n.
Proof. unfold stat. intros -> ->. reflexivity. Qed.

Lemma stat_inr (fs : gmap (list string) node) (p : path) (n : node) :
  stat fs p = inr n -> exists r, resolve fs p = inr r /\ fs !! r = Some n.
Proof.
  unfold stat. destruct (resolve fs p) as [c|r]; [discriminate|].
  destruct (fs !! r) eqn:E; [|discriminate]. intros [= ->]. eauto.
Qed.

(** [os.rename] of a regular file. *)
Lemma os_rename_file (src dst rs : path) (d : list byte) (m : io) (w : world) :
  resolve (w_fs w) src = inr rs ->
  w_fs w !! rs = Some (File d m) ->
  os_rename src dst w =
    match resolve (w_fs w) dst with
    | inl c => (Raise (OSError c (Some src) (Some dst)), w)
    | inr rd =>
        match w_fs w !! rd with
        | Some (Dir _) => (Raise (OSError EISDIR (Some src) (Some dst)), w)
        | _ =>
            if decide (rs = rd) then (Return tt, w)
            else (Return tt,
                  set_fs w (link rd (File d m) (unlink rs (w_fs w))) (EvRename rs rd))
        end
    end.
Proof.
  intros Hs Hf. unfold os_rename. mrun. rewrite Hs. simpl.
  destruct (resolve (w_fs w) dst) as [c|rd]; simpl; [reflexivity|].
  rewrite Hf. destruct (w_fs w !! rd) as [[d' m'|ns]|]; try reflexivity;
    destruct (decide (rs = rd)); reflexivity.
Qed.

(** The copying fallback cannot succeed where [os.rename] of a file failed. *)
Lemma copy2_fails (src dst : path) (d : list byte) (m : io) (w : world) :
  stat (w_fs w) src = inr (File d m) ->
  (match resolve (w_fs w) dst with
   | inl _ => True
   | inr rd => exists ns, w_fs w !! rd = Some (Dir ns)
   end) ->
  exists e, copy2 src dst w = (Raise e, w).
Proof.
  intros Hs Hd. unfold copy2. mrun. rewrite Hs.
  destruct m as [|c|k c]; simpl; eauto;
    (destruct (resolve (w_fs w) dst) as [c'|rd]; simpl; eauto;
     destruct Hd as [ns ->]; eauto).
Qed.

Lemma move_fallback_file_fails (src dst real_dst : path) (d : list byte) (m : io)
  (w : world) (c : errno) (q q2 : option path) :
  stat (w_fs w) src = inr (File d m) ->
  (match resolve (w_fs w) real_dst with
   | inl _ => True
   | inr rd => exists ns, w_fs w !! rd = Some (Dir ns)
   end) ->
  exists e, move_fallback src dst real_dst (OSError c q q2) w = (Raise e, w).
Proof.
  intros Hs Hd. unfold move_fallback, os_path_isdir. mrun. rewrite Hs.
  destruct (copy2_fails src real_dst d m w Hs Hd) as [e He].
  exists e. rewrite He. reflexivity.
Qed.

(** [shutil.move] of a regular file: it raises and changes nothing, or it
    renames the file to the resolved destination, which was absent or (when
    the destination is not a directory) a regular file. *)
Lemma shutil_move_file (src dst rs : path) (d : list byte) (m : io) (w : world) :
  resolve (w_fs w) src = inr rs ->
  w_fs w !! rs = Some (File d m) ->
  let real_dst := if is_dir (w_fs w) dst then os_path_join dst [basename src] else dst in
  (exists e, shutil_move src dst w = (Raise e, w)) \/
  (exists rd,
     resolve (w_fs w) real_dst = inr rd /\
     (w_fs w !! rd = None \/
      (is_dir (w_fs w) dst = false /\ exists d' m', w_fs w !! rd = Some (File d' m'))) /\
     shutil_move src dst w =
       (Return tt,
        if decide (rs = rd) then w
        else set_fs w (link rd (File d m) (unlink rs (w_fs w))) (EvRename rs rd))).
Proof.
  intros Hs Hf real_dst.
  pose proof (stat_of_resolve _ _ _ _ Hs Hf) as Hstat.
  unfold shutil_move, os_path_isdir, samefile, os_path_exists. mrun.
  fold (is_dir (w_fs w) dst). fold real_dst.
  assert (Hsame : is_dir (w_fs w) dst = true ->
            match stat (w_fs w) src, stat (w_fs w) dst,
                  resolve (w_fs w) src, resolve (w_fs w) dst with
            | inr _, inr _, inr ra, inr rb => bool_decide (ra = rb)
            | _, _, _, _ => false
            end = false).
  { unfold is_dir. intros Hd. rewrite Hstat, Hs.
    destruct (stat (w_fs w) dst) as [c|[d' m'|ns]] eqn:Hsd; try discriminate.
    apply stat_inr in Hsd as (rb & Hrb & Hnb). rewrite Hrb.
    apply bool_decide_eq_false. intros <-. congruence. }
  destruct (is_dir (w_fs w) dst) eqn:Hd; simpl.
  - rewrite Hsame by reflexivity. simpl.
    unfold stat. destruct (resolve (w_fs w) real_dst) as [c|rd] eqn:Hr; simpl.
    + rewrite (os_rename_file _ _ _ _ _ _ Hs Hf), Hr.
      left. apply (move_fallback_file_fails src dst real_dst d m w ENOENT None None); [assumption|].
      rewrite Hr. exact I.
    + destruct (w_fs w !! rd) as [n|] eqn:Hn; simpl; [left; eauto|].
      rewrite (os_rename_file _ _ _ _ _ _ Hs Hf), Hr, Hn.
      right. exists rd. split; [reflexivity|]. split; [auto|].
      destruct (decide (rs = rd)); reflexivity.
  - rewrite (os_rename_file _ _ _ _ _ _ Hs Hf).
    destruct (resolve (w_fs w) real_dst) as [c|rd] eqn:Hr; simpl.
    + left. apply (move_fallback_file_fails src dst real_dst d m w ENOENT None None); [assumption|].
      rewrite Hr. exact I.
    + destruct (w_fs w !! rd) as [[d' m'|ns]|] eqn:Hn; simpl.
      * right. exists rd. split; [reflexivity|]. split; [eauto 6|].
        destruct (decide (rs = rd)); reflexivity.
      * left. apply (move_fallback_file_fails src dst real_dst d m w ENOENT None None); [assumption|].
        rewrite Hr. eauto.
      * right. exists rd. split; [reflexivity|]. split; [auto|].
        destruct (decide (rs = rd)); reflexivity.
Qed.

Lemma os_path_exists_eq (p : path) (w : world) :
  os_path_exists p w =
    (Return (match stat (w_fs w) p with inr _ => true | inl _ => false end), w).
Proof. reflexivity. Qed.

Lemma samefile_pure (a b : path) (w : world) :
  exists r, samefile a b w = (Return r, w).
Proof. unfold samefile. mrun. eauto. Qed.

Lemma samefile_file_dir (src dst rs : path) (d : list byte) (m : io) (w : world) :
  resolve (w_fs w) src = inr rs ->
  w_fs w !! rs = Some (File d m) ->
  is_dir (w_fs w) dst = true ->
  samefile src dst w = (Return false, w).
Proof.
  intros Hs Hf Hd. unfold samefile. mrun.
  rewrite (stat_of_resolve _ _ _ _ Hs Hf), Hs.
  unfold is_dir in Hd.
  destruct (stat (w_fs w) dst) as [c|[d' m'|ns]] eqn:Hsd; try discriminate.
  apply stat_inr in Hsd as (rb & Hrb & Hnb). rewrite Hrb.
  rewrite bool_decide_eq_false_2 by (intros <-; congruence). reflexivity.
Qed.

Lemma shutil_move_file_ok (src dst rs rd : path) (d : list byte) (m : io) (w : world) :
  resolve (w_fs w) src = inr rs ->
  w_fs w !! rs = Some (File d m) ->
  let real_dst := if is_dir (w_fs w) dst then os_path_join dst [basename src] else dst in
  resolve (w_fs w) real_dst = inr rd ->
  (forall ns, w_fs w !! rd <> Some (Dir ns)) ->
  (is_dir (w_fs w) dst = true -> w_fs w !! rd = None) ->
  shutil_move src dst w =
    (Return tt,
     if decide (rs = rd) then w
     else set_fs w (link rd (File d m) (unlink rs (w_fs w))) (EvRename rs rd)).
Proof.
  intros Hs Hf real_dst Hr Hnd Hnone.
  unfold shutil_move, mbind, M_bind. rewrite os_path_isdir_eq.
  fold real_dst. destruct (is_dir (w_fs w) dst) eqn:Hd.
  - rewrite (samefile_file_dir _ _ _ _ _ _ Hs Hf Hd).
    cbv beta iota zeta delta [andb].
    rewrite os_path_exists_eq. unfold stat at 1.
    rewrite Hr, Hnone by reflexivity.
    cbv beta iota zeta delta [andb]. unfold try_except.
    rewrite (os_rename_file _ _ _ _ _ _ Hs Hf), Hr, Hnone by reflexivity.
    destruct (decide (rs = rd)); reflexivity.
  - destruct (samefile_pure src dst w) as [b ->].
    cbv beta iota zeta delta [andb].
    rewrite os_path_exists_eq.
    cbv beta iota zeta delta [andb]. unfold try_except.
    rewrite (os_rename_file _ _ _ _ _ _ Hs Hf), Hr.
    destruct (w_fs w !! rd) as [[d' m'|ns]|] eqn:Hn.
    + destruct (decide (rs = rd)); reflexivity.
    + destruct (Hnd ns). reflexivity.
    + destruct (decide (rs = rd)); reflexivity.
Qed.

Lemma namei_parent (fs : gmap (list string) node) (cur p r : path) :
  namei fs cur p = inr r -> p <> [] ->
  exists r' ns, namei fs cur (removelast p) = inr r' /\ fs !! r' = Some (Dir ns).
Proof.
  revert cur. induction p as [|c p IH]; intros cur H Hne; [congruence|].
  simpl in H. destruct (fs !! cur) as [[d m|ns]|] eqn:Hc; try discriminate.
  destruct p as [|c' p'].
  - simpl. eauto.
  - change (removelast (c :: c' :: p')) with (c :: removelast (c' :: p')).
    simpl namei. rewrite Hc.
    destruct (decide (c = ".")); [|destruct (decide (c = ".."))];
      apply IH; congruence.
Qed.

Lemma relpath_nonempty (p start : path) : relpath p start <> [].
Proof.
  unfold relpath. destruct (repeat ".." _ ++ drop _ _); discriminate.
Qed.

Lemma exists_new_dir (fs : gmap (list string) node) (new_path rd : path) :
  resolve fs new_path = inr rd -> new_path <> [] ->
  exists ns, stat fs (dirname new_path) = inr (Dir ns).
Proof.
  intros Hr Hne. destruct (namei_parent fs [] new_path rd Hr Hne) as (r' & ns & H1 & H2).
  exists ns. eapply stat_of_resolve; eassumption.
Qed.

(** C5 as amended. A duplicate whose computed destination already exists
    as a regular file, other than the duplicate itself, is moved over it:
    the move is logged as done, the destination now holds the duplicate and
    the duplicate has left its source location. *)
Theorem C5_existing_destination_replaced (target_dir dup : path) (log : list string)
  (w : world) (src rs rd : path) (d d' : list byte) (m m' : io) :
  w_source_dir w = Some src ->
  resolve (w_fs w) dup = inr rs ->
  w_fs w !! rs = Some (File d m) ->
  resolve (w_fs w) (os_path_join target_dir (relpath dup src)) = inr rd ->
  w_fs w !! rd = Some (File d' m') ->
  rs <> rd ->
  destination_replaced target_dir dup log w src rs rd d m.
Proof.
  intros Hg Hs Hf Hr Hd Hne.
  set (new_path := os_path_join target_dir (relpath dup src)) in *.
  assert (Hnp : new_path <> []).
  { unfold new_path, os_path_join. intros H. apply app_eq_nil in H as [_ H].
    exact (relpath_nonempty _ _ H). }
  destruct (exists_new_dir _ _ _ Hr Hnp) as [ns Hdir].
  assert (Hnot : is_dir (w_fs w) new_path = false).
  { unfold is_dir. rewrite (stat_of_resolve _ _ _ _ Hr Hd). reflexivity. }
  assert (Hmove : shutil_move dup new_path w =
            (Return tt, set_fs w (link rd (File d m) (unlink rs (w_fs w))) (EvRename rs rd))).
  { rewrite (shutil_move_file_ok dup new_path rs rd d m w Hs Hf).
    - rewrite decide_False by assumption. reflexivity.
    - rewrite Hnot. assumption.
    - intros ns'. congruence.
    - congruence. }
  eexists. split.
  - apply move_one_return. unfold move_body, mbind, M_bind, global_source_dir.
    rewrite Hg. fold new_path. unfold os_path_exists, mbind, M_bind, get_fs, mret, M_ret.
    rewrite Hdir. simpl. rewrite Hmove. reflexivity.
  - simpl. split; [apply lookup_link_same|]. split.
    + apply same_kind_none. eapply same_kind_trans.
      * apply lookup_link_other. assumption.
      * rewrite lookup_unlink_same. exact I.
    + rewrite renames_app. reflexivity.
Qed.

Lemma C5_existing_destination_replaced_witness :
  destination_replaced ["t"] ["s"; "b"; "x.txt"] [] Demo.world_taken
    ["s"] ["s"; "b"; "x.txt"] ["t"; "b"; "x.txt"] (Demo.bytes "hello") ReadOK.
Proof.
  apply (C5_existing_destination_replaced ["t"] ["s"; "b"; "x.txt"] [] Demo.world_taken
           ["s"] ["s"; "b"; "x.txt"] ["t"; "b"; "x.txt"]
           (Demo.bytes "hello") (Demo.bytes "precious") ReadOK ReadOK);
    try (vm_compute; reflexivity).
  discriminate.
Defined.

Lemma demo_taken_move :
  fst (move_one ["t"] ["s"; "b"; "x.txt"] [] Demo.world_taken)
    = Return [success_entry ["s"; "b"; "x.txt"] ["t"; "b"; "x.txt"]] /\
  w_fs (snd (move_one ["t"] ["s"; "b"; "x.txt"] [] Demo.world_taken)) !! ["t"; "b"; "x.txt"]
    = Some (File (Demo.bytes "hello") ReadOK).
Proof. vm_compute. split; reflexivity. Qed.

(** C5 as stated fails: on the demo tree with [/t/b/x.txt] already there,
    the move of [/s/b/x.txt] is not refused; the bytes that were at the
    destination are gone. *)
Lemma C5_counterexample :
  ~ collision_refused ["t"] ["s"; "b"; "x.txt"] [] Demo.world_taken.
Proof.
  intros H.
  destruct (H ["s"] ["t"; "b"; "x.txt"] (File (Demo.bytes "precious") ReadOK))
    as (e & w' & Hm & Hk); try (vm_compute; reflexivity).
  destruct demo_taken_move as [H1 H2]. rewrite Hm in H1, H2. simpl in H1, H2.
  rewrite Hk in H2. discriminate.
Qed.

(** *** Creating directories only adds directories *)

Lemma grows_refl (fs : gmap (list string) node) : grows fs fs.
Proof. intros q. left. apply same_kind_refl. Qed.

Lemma grows_trans (fs1 fs2 fs3 : gmap (list string) node) :
  grows fs1 fs2 -> grows fs2 fs3 -> grows fs1 fs3.
Proof.
  intros H12 H23 q. destruct (H12 q) as [H|[H1 [ns H2]]], (H23 q) as [H'|[H1' [ns' H2']]].
  - left. eapply same_kind_trans; eassumption.
  - rewrite H1' in H. apply same_kind_sym, same_kind_none in H. right. eauto.
  - rewrite H2 in H'. destruct (same_kind_dir _ _ H') as [ns' E]. right. eauto.
  - congruence.
Qed.

Lemma grows_dirs_kept (fs fs' : gmap (list string) node) : grows fs fs' -> dirs_kept fs fs'.
Proof.
  intros H q ns Hq. destruct (H q) as [Hk|[Hn _]]; [|congruence].
  rewrite Hq in Hk. eapply same_kind_dir, Hk.
Qed.

Lemma grows_file (fs fs' : gmap (list string) node) (q : path) d m :
  grows fs fs' -> fs !! q = Some (File d m) -> fs' !! q = Some (File d m).
Proof.
  intros H Hq. destruct (H q) as [Hk|[Hn _]]; [|congruence].
  rewrite Hq in Hk. apply same_kind_file, Hk.
Qed.

Lemma namei_mono (fs fs' : gmap (list string) node) (cur p r : path) :
  dirs_kept fs fs' -> namei fs cur p = inr r -> namei fs' cur p = inr r.
Proof.
  intros Hk. revert cur. induction p as [|c p IH]; intros cur H; simpl in *; [assumption|].
  destruct (fs !! cur) as [[d m|ns]|] eqn:Hc; try discriminate.
  destruct (Hk _ _ Hc) as [ns' ->].
  destruct (decide (c = ".")); [|destruct (decide (c = ".."))]; apply IH, H.
Qed.

Lemma os_mkdir_grows (p : path) (w : world) :
  grows (w_fs w) (w_fs (snd (os_mkdir p w))).
Proof.
  unfold os_mkdir. mrun.
  destruct (resolve (w_fs w) p) as [c|r]; simpl; [apply grows_refl|].
  destruct (w_fs w !! r) eqn:Hr; simpl; [apply grows_refl|].
  intros q. destruct (decide (q = r)) as [->|Hne].
  - right. rewrite lookup_link_same. eauto.
  - left. apply lookup_link_other. assumption.
Qed.

Lemma makedirs_rev_grows (rname : list string) (w : world) :
  grows (w_fs w) (w_fs (snd (makedirs_rev rname w))).
Proof.
  revert w. induction rname as [|tail rhead IH]; intros w; simpl.
  - apply os_mkdir_grows.
  - unfold mbind, M_bind, os_path_exists, try_except. mrun.
    destruct (stat (w_fs w) (rev rhead)); simpl; [|apply os_mkdir_grows].
    specialize (IH w). destruct (makedirs_rev rhead w) as [[[]|ex] w1]; simpl in *.
    + destruct (decide (tail = ".")); simpl; [assumption|].
      eapply grows_trans; [eassumption|apply os_mkdir_grows].
    + destruct ex as [[] q q2|msg|name|codec bad start stop reason|]; simpl; try assumption.
      destruct (decide (tail = ".")); simpl; [assumption|].
      eapply grows_trans; [eassumption|apply os_mkdir_grows].
Qed.

Lemma stat_mono_file (fs fs' : gmap (list string) node) (p : path) d m :
  grows fs fs' -> stat fs p = inr (File d m) -> stat fs' p = inr (File d m).
Proof.
  intros Hg Hs. apply stat_inr in Hs as (r & Hr & Hn).
  eapply stat_of_resolve.
  - eapply namei_mono; [apply grows_dirs_kept|]; eassumption.
  - eapply grows_file; eassumption.
Qed.

(** The preparation of the destination: the path is computed from the
    global, and the file system only gains directories. *)
Lemma prepare_dest_spec (tgt dup src : path) (w : world) :
  w_source_dir w = Some src ->
  exists r w2,
    prepare_dest tgt dup w = (r, w2) /\
    (r = Return (os_path_join tgt (relpath dup src)) \/ exists e, r = Raise e) /\
    grows (w_fs w) (w_fs w2) /\ same_env w w2 /\
    renames (w_trace w2) = renames (w_trace w).
Proof.
  intros Hg. unfold prepare_dest, mbind, M_bind, global_source_dir. rewrite Hg.
  rewrite os_path_exists_eq.
  destruct (stat (w_fs w) _) as [c|n]; cbv beta iota zeta delta [negb].
  - unfold os_makedirs.
    pose proof (makedirs_rev_grows (rev (dirname (os_path_join tgt (relpath dup src)))) w) as G.
    pose proof (makedirs_rev_env (rev (dirname (os_path_join tgt (relpath dup src)))) w) as E.
    pose proof (makedirs_rev_renames (rev (dirname (os_path_join tgt (relpath dup src)))) w) as R.
    destruct (makedirs_rev _ w) as [[[]|ex] w2]; simpl in *; eauto 10.
  - unfold mret, M_ret. eexists _, _. split; [reflexivity|].
    split; [auto|]. split; [apply grows_refl|]. split; [apply same_env_refl|reflexivity].
Qed.

Lemma move_body_split (tgt dup : path) (log : list string) (w : world) :
  move_body tgt dup log w =
    match prepare_dest tgt dup w with
    | (Return new_path, w2) =>
        match shutil_move dup new_path w2 with
        | (Return _, w3) =>
            (Return (log ++ [success_entry dup new_path]),
             add_out w3 [msg_moved dup new_path])
        | (Raise e, w3) => (Raise e, w3)
        end
    | (Raise e, w2) => (Raise e, w2)
    end.
Proof.
  unfold move_body, prepare_dest, mbind, M_bind.
  destruct (global_source_dir w) as [[src|e1] w1]; [|reflexivity].
  destruct (os_path_exists _ w1) as [[b|e2] w2]; [|reflexivity].
  match goal with
  | |- context [let (_, _) := ?m w2 in _] => destruct (m w2) as [[[]|e3] w3]
  end; [|reflexivity].
  unfold mret, M_ret.
  destruct (shutil_move _ _ w3) as [[[]|e4] w4]; reflexivity.
Qed.

Lemma rename_dirs_kept (fs : gmap (list string) node) (rs rd : path) (n : node) d m :
  fs !! rs = Some (File d m) ->
  (forall ns, fs !! rd <> Some (Dir ns)) ->
  dirs_kept fs (link rd n (unlink rs fs)).
Proof.
  intros Hs Hd q ns Hq.
  assert (q <> rs) by congruence.
  assert (q <> rd) by (intros ->; exact (Hd _ Hq)).
  assert (K : same_kind (link rd n (unlink rs fs) !! q) (Some (Dir ns))).
  { rewrite <- Hq. eapply same_kind_trans; [apply lookup_link_other; assumption|].
    apply lookup_unlink_other. assumption. }
  eapply same_kind_dir, K.
Qed.

(** For a regular file that was moved, the destination in the log is its
    path relative to the global [source_dir] joined onto the target root;
    the file is at that path, or, when that path was a directory at the
    time of the move, inside that directory under its own name. *)
Lemma destination_of_move_holds (target_dir dup : path) (log : list string) (w : world)
  (src : path) (d : list byte) (m : io) (log' : list string) (w' : world) :
  w_source_dir w = Some src ->
  stat (w_fs w) dup = inr (File d m) ->
  move_body target_dir dup log w = (Return log', w') ->
  destination_of_move target_dir dup log w src d m log' w'.
Proof.
  intros Hg Hstat Hmove. unfold destination_of_move.
  set (new_path := os_path_join target_dir (relpath dup src)).
  rewrite move_body_split in Hmove.
  destruct (prepare_dest_spec target_dir dup src w Hg) as (r & w2 & Hp & Hr & Hgrow & _ & _).
  rewrite Hp in Hmove. fold new_path in Hr.
  destruct Hr as [->|[e ->]]; [|discriminate].
  pose proof (stat_mono_file _ _ _ _ _ Hgrow Hstat) as Hstat2.
  apply stat_inr in Hstat2 as (rs & Hrs & Hfs).
  destruct (shutil_move_file dup new_path rs d m w2 Hrs Hfs)
    as [[e He]|(rd & Hrd & Hfree & Hm)].
  { rewrite He in Hmove. discriminate. }
  rewrite Hm in Hmove. injection Hmove as <- <-.
  split; [reflexivity|]. exists w2. split; [assumption|].
  assert (Hnd : forall ns, w_fs w2 !! rd <> Some (Dir ns)).
  { intros ns. destruct Hfree as [E|(_ & d' & m' & E)]; rewrite E; discriminate. }
  assert (Hat : stat (w_fs (if decide (rs = rd) then w2
                            else set_fs w2 (link rd (File d m) (unlink rs (w_fs w2)))
                                   (EvRename rs rd)))
                     (if is_dir (w_fs w2) new_path
                      then os_path_join new_path [basename dup] else new_path)
                = inr (File d m)).
  { destruct (decide (rs = rd)) as [<-|Hne].
    - eapply stat_of_resolve; eassumption.
    - simpl. eapply stat_of_resolve; [|apply lookup_link_same].
      eapply namei_mono; [|exact Hrd]. eapply rename_dirs_kept; eassumption. }
  simpl. destruct (is_dir (w_fs w2) new_path); auto.
Qed.

(** *** Paths without dots *)

Lemma dotfree_app (a b : path) : dotfree (a ++ b) <-> dotfree a /\ dotfree b.
Proof. unfold dotfree. apply Forall_app. Qed.

Lemma normpath_go_dotfree (acc p : path) : dotfree p -> normpath_go acc p = acc ++ p.
Proof.
  revert acc. induction p as [|c p IH]; intros acc Hp; simpl.
  - rewrite app_nil_r. reflexivity.
  - apply Forall_cons in Hp as [[H1 H2] Hp].
    rewrite decide_False, decide_False by assumption.
    rewrite IH by assumption. rewrite <- app_assoc. reflexivity.
Qed.

Lemma normpath_dotfree (p : path) : dotfree p -> normpath p = p.
Proof. intros Hp. unfold normpath. rewrite normpath_go_dotfree by assumption. reflexivity. Qed.

Lemma commonprefix_app (a s : path) : commonprefix a (a ++ s) = a.
Proof.
  induction a as [|x a IH]; simpl; [destruct s; reflexivity|].
  rewrite decide_True by reflexivity. rewrite IH. reflexivity.
Qed.

(** The path of a file under the source root, relative to that root. *)
Lemma relpath_under (src s : path) :
  dotfree src -> dotfree s -> s <> [] -> relpath (src ++ s) src = s.
Proof.
  intros Hsrc Hs Hne. unfold relpath.
  rewrite (normpath_dotfree src), (normpath_dotfree (src ++ s))
    by (try apply dotfree_app; auto).
  rewrite commonprefix_app, Nat.sub_diag, drop_app_length. simpl.
  destruct s; [congruence|reflexivity].
Qed.

Lemma namei_dotfree (fs : gmap (list string) node) (cur p r : path) :
  namei fs cur p = inr r -> dotfree p -> r = cur ++ p.
Proof.
  revert cur. induction p as [|c p IH]; intros cur H Hp; simpl in H.
  - injection H as <-. rewrite app_nil_r. reflexivity.
  - apply Forall_cons in Hp as [[H1 H2] Hp].
    destruct (fs !! cur) as [[d m|ns]|]; try discriminate.
    rewrite decide_False, decide_False in H by assumption.
    rewrite (IH _ H Hp), <- app_assoc. reflexivity.
Qed.

Lemma resolve_dotfree (fs : gmap (list string) node) (p r : path) :
  resolve fs p = inr r -> dotfree p -> r = p.
Proof. intros H Hp. apply (namei_dotfree fs [] p r H Hp). Qed.

Lemma namei_prefix_dirs (fs : gmap (list string) node) (cur p r : path) :
  namei fs cur p = inr r -> dotfree p ->
  forall q, q `prefix_of` p -> q <> p -> exists ns, fs !! (cur ++ q) = Some (Dir ns).
Proof.
  revert cur. induction p as [|c p IH]; intros cur H Hp q [k Hq] Hne; simpl in H.
  - symmetry in Hq. apply app_eq_nil in Hq as [-> _]. congruence.
  - apply Forall_cons in Hp as [[H1 H2] Hp].
    destruct (fs !! cur) as [[d m|ns]|] eqn:Hc; try discriminate.
    rewrite decide_False, decide_False in H by assumption.
    destruct q as [|c' q'].
    + rewrite app_nil_r. eauto.
    + simpl in Hq. injection Hq as <- Hq.
      destruct (IH _ H Hp q') as [ns' Hn]; [exists k; assumption|congruence|].
      exists ns'. rewrite <- Hn. f_equal. rewrite <- app_assoc. reflexivity.
Qed.

(** Every prefix of an existing directory is a directory. *)
Lemma is_dir_prefixes (fs : gmap (list string) node) (tgt q : path) :
  is_dir fs tgt = true -> dotfree tgt -> q `prefix_of` tgt ->
  exists ns, fs !! q = Some (Dir ns).
Proof.
  unfold is_dir. intros Hd Hp Hq.
  destruct (stat fs tgt) as [c|[d m|ns]] eqn:Hs; try discriminate.
  apply stat_inr in Hs as (r & Hr & Hn).
  pose proof (resolve_dotfree _ _ _ Hr Hp) as ->.
  destruct (decide (q = tgt)) as [->|Hne]; [eauto|].
  apply (namei_prefix_dirs fs [] tgt tgt Hr Hp q Hq Hne).
Qed.

Lemma is_dir_mono (fs fs' : gmap (list string) node) (p : path) :
  dirs_kept fs fs' -> is_dir fs p = true -> is_dir fs' p = true.
Proof.
  unfold is_dir. intros Hk Hd.
  destruct (stat fs p) as [c|[d m|ns]] eqn:Hs; try discriminate.
  apply stat_inr in Hs as (r & Hr & Hn).
  destruct (Hk _ _ Hn) as [ns' Hn'].
  rewrite (stat_of_resolve fs' p r (Dir ns')); [reflexivity| |assumption].
  eapply namei_mono; eassumption.
Qed.

(** *** Directories are only created under the target *)

Lemma os_mkdir_frame (p : path) (w : world) :
  dotfree p ->
  forall q, q <> p -> same_kind (w_fs (snd (os_mkdir p w)) !! q) (w_fs w !! q).
Proof.
  intros Hp q Hq. unfold os_mkdir. mrun.
  destruct (resolve (w_fs w) p) as [c|r] eqn:Hr; simpl; [apply same_kind_refl|].
  pose proof (resolve_dotfree _ _ _ Hr Hp) as ->.
  destruct (w_fs w !! p); simpl; [apply same_kind_refl|].
  apply lookup_link_other. assumption.
Qed.

Lemma os_mkdir_exists (p : path) (w : world) :
  dotfree p -> is_Some (w_fs w !! p) -> w_fs (snd (os_mkdir p w)) = w_fs w.
Proof.
  intros Hp [n Hn]. unfold os_mkdir. mrun.
  destruct (resolve (w_fs w) p) as [c|r] eqn:Hr; simpl; [reflexivity|].
  pose proof (resolve_dotfree _ _ _ Hr Hp) as ->. rewrite Hn. reflexivity.
Qed.

Lemma os_mkdir_under (tgt name : path) (w : world) :
  dotfree tgt -> dotfree name -> is_dir (w_fs w) tgt = true ->
  name `prefix_of` tgt \/ tgt `prefix_of` name ->
  forall q, ~ tgt `prefix_of` q ->
            same_kind (w_fs (snd (os_mkdir name w)) !! q) (w_fs w !! q).
Proof.
  intros Ht Hn Hd Hcmp q Hq.
  destruct (decide (name `prefix_of` tgt)) as [Hpre|Hnpre].
  - destruct (is_dir_prefixes _ _ _ Hd Ht Hpre) as [ns Hns].
    rewrite os_mkdir_exists by eauto. apply same_kind_refl.
  - destruct Hcmp as [?|Hpre]; [contradiction|].
    apply os_mkdir_frame; [assumption|]. intros ->. contradiction.
Qed.

Lemma comparable_head (tgt head : path) (tail : string) :
  head ++ [tail] `prefix_of` tgt \/ tgt `prefix_of` head ++ [tail] ->
  head `prefix_of` tgt \/ tgt `prefix_of` head.
Proof.
  intros [[k Hk]|[k Hk]].
  - left. exists ([tail] ++ k). rewrite Hk, <- app_assoc. reflexivity.
  - destruct k as [|x k0] using rev_ind; [|clear IHk0; rename k0 into k', x into c].
    + rewrite app_nil_r in Hk. left. exists [tail]. congruence.
    + rewrite app_assoc in Hk. apply app_inj_tail in Hk as [Hk _].
      right. exists k'. assumption.
Qed.

Lemma makedirs_rev_under (tgt : path) (rname : list string) (w : world) :
  dotfree tgt -> dotfree (rev rname) -> is_dir (w_fs w) tgt = true ->
  rev rname `prefix_of` tgt \/ tgt `prefix_of` rev rname ->
  forall q, ~ tgt `prefix_of` q ->
            same_kind (w_fs (snd (makedirs_rev rname w)) !! q) (w_fs w !! q).
Proof.
  intros Ht. revert w. induction rname as [|tail rhead IH]; intros w Hn Hd Hcmp q Hq.
  - simpl. apply (os_mkdir_under tgt); assumption.
  - simpl in Hn, Hcmp. apply dotfree_app in Hn as [Hhead Htail].
    assert (Hname : dotfree (rev rhead ++ [tail])) by (apply dotfree_app; auto).
    simpl. unfold mbind, M_bind. rewrite os_path_exists_eq.
    destruct (stat (w_fs w) (rev rhead)) as [c|n]; cbv beta iota zeta delta [negb];
      [|apply (os_mkdir_under tgt); assumption].
    unfold try_except.
    pose proof (IH w Hhead Hd (comparable_head _ _ _ Hcmp) q Hq) as Hrec.
    pose proof (makedirs_rev_grows rhead w) as Hgrow.
    destruct (makedirs_rev rhead w) as [[[]|ex] w1]; simpl in Hrec, Hgrow.
    + apply Forall_cons in Htail as [[Hdot _] _].
      rewrite decide_False by assumption.
      eapply same_kind_trans; [|exact Hrec].
      apply (os_mkdir_under tgt); try assumption.
      eapply is_dir_mono; [apply grows_dirs_kept|]; eassumption.
    + destruct ex as [[] p p2|msg|name|codec bad start stop reason|]; try exact Hrec.
      unfold mret, M_ret.
      apply Forall_cons in Htail as [[Hdot _] _].
      rewrite decide_False by assumption.
      eapply same_kind_trans; [|exact Hrec].
      apply (os_mkdir_under tgt); try assumption.
      eapply is_dir_mono; [apply grows_dirs_kept|]; eassumption.
Qed.

(** *** One move, from the file system before to the file system after *)

Lemma dirs_kept_trans (fs1 fs2 fs3 : gmap (list string) node) :
  dirs_kept fs1 fs2 -> dirs_kept fs2 fs3 -> dirs_kept fs1 fs3.
Proof. intros H12 H23 q ns Hq. destruct (H12 _ _ Hq) as [ns' Hq']. eauto. Qed.

Lemma dirs_kept_refl (fs : gmap (list string) node) : dirs_kept fs fs.
Proof. intros q ns Hq. eauto. Qed.

Lemma dotfree_removelast (p : path) : dotfree p -> dotfree (removelast p).
Proof.
  induction p as [|c p IH]; intros Hp; [assumption|].
  apply Forall_cons in Hp as [Hc Hp]. destruct p as [|c' p']; [constructor|].
  change (removelast (c :: c' :: p')) with (c :: removelast (c' :: p')).
  apply Forall_cons. split; [assumption|apply IH; assumption].
Qed.

Lemma dotfree_basename (p : path) : dotfree p -> p <> [] -> dotfree [basename p].
Proof.
  unfold basename. induction p as [|c p IH]; intros Hp Hne; [congruence|].
  apply Forall_cons in Hp as [Hc Hp]. destruct p as [|c' p'].
  - simpl. apply Forall_cons. split; [assumption|constructor].
  - apply IH; [assumption|discriminate].
Qed.

Lemma removelast_app_ne (a s : path) : s <> [] -> removelast (a ++ s) = a ++ removelast s.
Proof. intros Hs. apply removelast_app. assumption. Qed.

Lemma under_dotfree (src p : path) : dotfree src -> under src p -> dotfree p /\ p <> [].
Proof.
  intros Hsrc (s & -> & Hne & Hs). split; [apply dotfree_app; auto|].
  intros H. apply app_eq_nil in H as [_ H]. contradiction.
Qed.

Lemma prepare_dest_frame (tgt dup src : path) (w : world) :
  w_source_dir w = Some src -> dotfree src -> dotfree tgt -> under src dup ->
  is_dir (w_fs w) tgt = true ->
  forall q, ~ tgt `prefix_of` q ->
            same_kind (w_fs (snd (prepare_dest tgt dup w)) !! q) (w_fs w !! q).
Proof.
  intros Hg Hsrc Htgt (s & -> & Hne & Hs) Hd q Hq.
  unfold prepare_dest, mbind, M_bind, global_source_dir. rewrite Hg.
  rewrite os_path_exists_eq, relpath_under by assumption.
  unfold os_path_join, dirname. rewrite removelast_app_ne by assumption.
  destruct (stat (w_fs w) _) as [c|n]; cbv beta iota zeta delta [negb];
    [|apply same_kind_refl].
  unfold os_makedirs.
  pose proof (makedirs_rev_under tgt (rev (tgt ++ removelast s)) w Htgt) as H.
  rewrite rev_involutive in H.
  specialize (H (proj2 (dotfree_app _ _) (conj Htgt (dotfree_removelast _ Hs))) Hd
                (or_intror (ex_intro _ (removelast s) eq_refl)) q Hq).
  destruct (makedirs_rev _ w) as [[[]|ex] w2]; exact H.
Qed.

Lemma move_one_step (tgt src dup : path) (log : list string) (w : world)
  (d : list byte) (m : io) :
  w_source_dir w = Some src -> dotfree src -> dotfree tgt -> under src dup ->
  ~ tgt `prefix_of` dup ->
  is_dir (w_fs w) tgt = true ->
  stat (w_fs w) dup = inr (File d m) ->
  exists entry w',
    move_one tgt dup log w = (Return (log ++ [entry]), w') /\
    w_source_dir w' = Some src /\
    dirs_kept (w_fs w) (w_fs w') /\
    (forall q, ~ tgt `prefix_of` q -> q <> dup ->
               same_kind (w_fs w' !! q) (w_fs w !! q)) /\
    move_outcome tgt src dup (w_fs w) (w_fs w') entry /\
    exists rs, renames (w_trace w') = renames (w_trace w) ++ rs /\
               Forall (fun r => fst r = dup) rs.
Proof.
  intros Hg Hsrc Htgt Hund Hout Hd Hstat.
  destruct (under_dotfree _ _ Hsrc Hund) as [Hdup Hdne].
  pose proof (prepare_dest_frame tgt dup src w Hg Hsrc Htgt Hund Hd) as Hframe.
  destruct (prepare_dest_spec tgt dup src w Hg) as (r & w2 & Hp & Hr & Hgrow & Henv & Hren).
  rewrite Hp in Hframe. simpl in Hframe.
  assert (Hfs : w_fs w !! dup = Some (File d m)).
  { apply stat_inr in Hstat as (r0 & Hr0 & Hn0).
    rewrite (resolve_dotfree _ _ _ Hr0 Hdup) in Hn0. assumption. }
  assert (Hfs2 : w_fs w2 !! dup = Some (File d m)) by (eapply grows_file; eassumption).
  assert (Hfail : forall e, move_body tgt dup log w = (Raise e, w2) ->
    exists entry w',
      move_one tgt dup log w = (Return (log ++ [entry]), w') /\
      w_source_dir w' = Some src /\
      dirs_kept (w_fs w) (w_fs w') /\
      (forall q, ~ tgt `prefix_of` q -> q <> dup ->
                 same_kind (w_fs w' !! q) (w_fs w !! q)) /\
      move_outcome tgt src dup (w_fs w) (w_fs w') entry /\
      exists rs, renames (w_trace w') = renames (w_trace w) ++ rs /\
                 Forall (fun r => fst r = dup) rs).
  { intros e He. eexists _, _. split; [apply move_one_raise, He|]. simpl.
    destruct Henv as (_ & Hg2 & _).
    split; [congruence|]. split; [apply grows_dirs_kept, Hgrow|].
    split; [intros q Hq _; apply Hframe, Hq|].
    split; [right; exists e; split; [reflexivity|congruence]|].
    exists []. rewrite app_nil_r. split; [assumption|constructor]. }
  rewrite move_body_split, Hp in Hfail.
  destruct Hr as [->|[e ->]]; [|eapply Hfail; reflexivity].
  set (new_path := os_path_join tgt (relpath dup src)) in *.
  assert (Hrs : resolve (w_fs w2) dup = inr dup).
  { pose proof (stat_mono_file _ _ _ _ _ Hgrow Hstat) as Hs2.
    apply stat_inr in Hs2 as (r0 & Hr0 & _).
    rewrite (resolve_dotfree _ _ _ Hr0 Hdup) in Hr0. assumption. }
  destruct (shutil_move_file dup new_path dup d m w2 Hrs Hfs2)
    as [[e He]|(rd & Hrd & Hfree & Hm)].
  { rewrite He in Hfail. eapply Hfail. reflexivity. }
  clear Hfail.
  assert (Hnp : exists s, new_path = tgt ++ s /\ dotfree s).
  { destruct Hund as (s & -> & Hne & Hs). exists s.
    unfold new_path, os_path_join. rewrite relpath_under by assumption. auto. }
  assert (Hpre : tgt `prefix_of` rd /\ (forall ns, w_fs w2 !! rd <> Some (Dir ns))).
  { split.
    - destruct Hnp as (s & Hnp & Hs).
      assert (Hreal : dotfree (if is_dir (w_fs w2) new_path
                               then os_path_join new_path [basename dup] else new_path)
                      /\ tgt `prefix_of` (if is_dir (w_fs w2) new_path
                               then os_path_join new_path [basename dup] else new_path)).
      { assert (dotfree new_path) by (rewrite Hnp; apply dotfree_app; auto).
        destruct (is_dir (w_fs w2) new_path).
        - split.
          + apply dotfree_app. split; [assumption|apply dotfree_basename; assumption].
          + exists (s ++ [basename dup]). unfold os_path_join.
            rewrite Hnp, <- app_assoc. reflexivity.
        - split; [assumption|]. exists s. assumption. }
      destruct Hreal as [Hdf Hpf].
      rewrite (resolve_dotfree _ _ _ Hrd Hdf). assumption.
    - intros ns. destruct Hfree as [E|(_ & d' & m' & E)]; rewrite E; discriminate. }
  destruct Hpre as [Hpre Hnd].
  assert (Hne : dup <> rd) by (intros ->; contradiction).
  rewrite decide_False in Hm by assumption.
  eexists _, _. split.
  { apply move_one_return. rewrite move_body_split, Hp, Hm. reflexivity. }
  simpl. destruct Henv as (_ & Hg2 & _).
  split; [congruence|]. split.
  { eapply dirs_kept_trans; [apply grows_dirs_kept, Hgrow|].
    eapply rename_dirs_kept; eassumption. }
  split.
  { intros q Hq Hqd. eapply same_kind_trans; [|apply Hframe, Hq].
    eapply same_kind_trans; [apply lookup_link_other|apply lookup_unlink_other];
      [intros ->; contradiction|assumption]. }
  split.
  { left. split; [reflexivity|].
    apply same_kind_none. eapply same_kind_trans; [apply lookup_link_other, Hne|].
    rewrite lookup_unlink_same. exact I. }
  exists [(dup, rd)]. rewrite renames_app, Hren. split; [reflexivity|].
  constructor; [reflexivity|constructor].
Qed.

(** *** The relocation, from the file system before to the file system after *)

Lemma movable_file (src tgt : path) (fs : gmap (list string) node) (p : path) :
  dotfree src -> movable src tgt fs p ->
  exists d m, fs !! p = Some (File d m) /\ resolve fs p = inr p.
Proof.
  intros Hsrc (Hund & _ & d & m & Hs).
  destruct (under_dotfree _ _ Hsrc Hund) as [Hp _].
  apply stat_inr in Hs as (r & Hr & Hn).
  pose proof (resolve_dotfree _ _ _ Hr Hp) as ->. eauto.
Qed.

Lemma movable_kept (src tgt : path) (fs fs' : gmap (list string) node) (p : path) :
  dotfree src -> movable src tgt fs p -> dirs_kept fs fs' ->
  same_kind (fs' !! p) (fs !! p) ->
  movable src tgt fs' p /\ fs' !! p = fs !! p.
Proof.
  intros Hsrc Hm Hk Hs.
  destruct (movable_file _ _ _ _ Hsrc Hm) as (d & m & Hf & Hr).
  rewrite Hf in Hs. apply same_kind_file in Hs.
  split; [|congruence].
  destruct Hm as (Hund & Hout & _). split; [assumption|]. split; [assumption|].
  exists d, m. eapply stat_of_resolve; [|eassumption].
  eapply namei_mono; eassumption.
Qed.

Lemma move_outcome_later (tgt src d : path) (fs fs1 fs' : gmap (list string) node)
  (entry : string) (dt : list byte) (m : io) :
  fs !! d = Some (File dt m) ->
  same_kind (fs' !! d) (fs1 !! d) ->
  move_outcome tgt src d fs fs1 entry -> move_outcome tgt src d fs fs' entry.
Proof.
  intros Hf Hs [[He Hn]|(e & He & Hk)].
  - left. split; [assumption|]. rewrite Hn in Hs. apply same_kind_none, Hs.
  - right. exists e. split; [assumption|].
    rewrite Hk, Hf in Hs. apply same_kind_file in Hs. congruence.
Qed.

Lemma move_outcome_earlier (tgt src d : path) (fs fs1 fs' : gmap (list string) node)
  (entry : string) :
  fs1 !! d = fs !! d ->
  move_outcome tgt src d fs1 fs' entry -> move_outcome tgt src d fs fs' entry.
Proof.
  intros Hf [[He Hn]|(e & He & Hk)]; [left; auto|].
  right. exists e. split; [assumption|congruence].
Qed.

Lemma Forall2_impl_In {A B} (P Q : A -> B -> Prop) (l : list A) (k : list B) :
  Forall2 P l k -> (forall x y, In x l -> P x y -> Q x y) -> Forall2 Q l k.
Proof.
  induction 1 as [|x y l k Hxy _ IH]; intros Himp; constructor.
  - apply Himp; [left; reflexivity|assumption].
  - apply IH. intros x' y' Hin. apply Himp. right. assumption.
Qed.

Lemma move_dups_outcome (tgt src : path) (dups : list path) (log : list string)
  (w : world) :
  w_source_dir w = Some src -> dotfree src -> dotfree tgt ->
  is_dir (w_fs w) tgt = true ->
  List.NoDup dups ->
  Forall (movable src tgt (w_fs w)) dups ->
  exists es w',
    for_each dups (move_one tgt) log w = (Return (log ++ es), w') /\
    w_source_dir w' = Some src /\
    dirs_kept (w_fs w) (w_fs w') /\
    (forall q, ~ tgt `prefix_of` q -> ~ In q dups ->
               same_kind (w_fs w' !! q) (w_fs w !! q)) /\
    Forall2 (fun d e => move_outcome tgt src d (w_fs w) (w_fs w') e) dups es /\
    exists rs, renames (w_trace w') = renames (w_trace w) ++ rs /\
               Forall (fun r => In (fst r) dups) rs.
Proof.
  intros Hg Hsrc Htgt. revert log w Hg.
  induction dups as [|d dups IH]; intros log w Hg Hd Hnd Hmov.
  - exists [], w. simpl. rewrite !app_nil_r.
    split; [reflexivity|]. split; [assumption|]. split; [apply dirs_kept_refl|].
    split; [intros; apply same_kind_refl|]. split; [constructor|].
    exists []. rewrite app_nil_r. split; [reflexivity|constructor].
  - apply Forall_cons in Hmov as [Hmd Hmov].
    inversion Hnd as [|? ? Hnotin Hnd']; subst.
    destruct (movable_file _ _ _ _ Hsrc Hmd) as (dt & m & Hfd & Hrd).
    destruct Hmd as (Hund & Hout & dt' & m' & Hstat).
    destruct (move_one_step tgt src d log w dt' m' Hg Hsrc Htgt Hund Hout Hd Hstat)
      as (entry & w1 & H1 & Hg1 & Hk1 & Hf1 & Ho1 & rs1 & Hr1 & Hrs1).
    assert (Hmov1 : Forall (movable src tgt (w_fs w1)) dups).
    { apply Forall_forall. intros p Hp.
      rewrite Forall_forall in Hmov.
      refine (proj1 (movable_kept src tgt (w_fs w) (w_fs w1) p Hsrc (Hmov p Hp) Hk1 _)).
      apply Hf1; [apply (Hmov p Hp)|]. intros ->. apply Hnotin.
      apply list_elem_of_In. assumption. }
    destruct (IH (log ++ [entry]) w1 Hg1 (is_dir_mono _ _ _ Hk1 Hd) Hnd' Hmov1)
      as (es & w' & H2 & Hg2 & Hk2 & Hf2 & Ho2 & rs2 & Hr2 & Hrs2).
    exists (entry :: es), w'. simpl. unfold mbind, M_bind. rewrite H1, H2.
    rewrite <- app_assoc. split; [reflexivity|]. split; [assumption|].
    split; [eapply dirs_kept_trans; eassumption|].
    split.
    { intros q Hq Hnin. eapply same_kind_trans.
      - apply Hf2; [assumption|]. intros Hin. apply Hnin. right. assumption.
      - apply Hf1; [assumption|]. intros ->. apply Hnin. left. reflexivity. }
    split.
    { constructor.
      - eapply move_outcome_later; [eassumption| |eassumption].
        apply Hf2; assumption.
      - eapply Forall2_impl_In; [exact Ho2|]. intros p e Hp Hpe.
        eapply move_outcome_earlier; [|exact Hpe].
        rewrite Forall_forall in Hmov.
        assert (Hmp : movable src tgt (w_fs w) p) by (apply Hmov, list_elem_of_In, Hp).
        refine (proj2 (movable_kept src tgt (w_fs w) (w_fs w1) p Hsrc Hmp Hk1 _)).
        apply Hf1; [apply Hmp|]. intros ->. contradiction. }
    exists (rs1 ++ rs2). rewrite Hr2, Hr1, <- app_assoc. split; [reflexivity|].
    apply Forall_app. split.
    + eapply Forall_impl; [exact Hrs1|]. intros r ->. left. reflexivity.
    + eapply Forall_impl; [exact Hrs2|]. intros r Hr. right. assumption.
Qed.

Lemma NoDup_app_inv {A} (l k : list A) :
  List.NoDup (l ++ k) ->
  List.NoDup l /\ List.NoDup k /\ forall x, In x l -> ~ In x k.
Proof.
  intros H. apply NoDup_ListNoDup, NoDup_app in H as (Hl & Hd & Hk).
  split; [apply NoDup_ListNoDup, Hl|]. split; [apply NoDup_ListNoDup, Hk|].
  intros x Hx Hx'. apply (Hd x); apply list_elem_of_In; assumption.
Qed.

Lemma all_dups_subset (groups : dict) (p : path) :
  In p (all_dups groups) -> In p (all_paths groups).
Proof.
  unfold all_dups, all_paths. induction groups as [|[h files] groups IH]; simpl; [auto|].
  intros H. apply in_app_or in H as [H|H]; apply in_or_app; [left|right; auto].
  destruct files as [|original dups]; [assumption|]. right. assumption.
Qed.

Lemma Forall2_In_l {A B} (P : A -> B -> Prop) (l : list A) (k : list B) (x : A) :
  Forall2 P l k -> In x l -> exists y, In y k /\ P x y.
Proof.
  induction 1 as [|x' y l k Hxy _ IH]; intros Hin; [contradiction|].
  destruct Hin as [->|Hin]; [exists y; simpl; auto|].
  destruct (IH Hin) as (y' & ? & ?). exists y'. simpl. auto.
Qed.

Lemma move_groups_outcome (tgt src : path) (groups : dict) (log : list string)
  (w : world) :
  w_source_dir w = Some src -> dotfree src -> dotfree tgt ->
  is_dir (w_fs w) tgt = true ->
  List.NoDup (all_paths groups) ->
  Forall (movable src tgt (w_fs w)) (all_paths groups) ->
  Forall (fun g => snd g <> []) groups ->
  exists entries w',
    for_each groups (move_group tgt) log w = (Return (log ++ entries), w') /\
    w_source_dir w' = Some src /\
    dirs_kept (w_fs w) (w_fs w') /\
    (forall q, ~ tgt `prefix_of` q -> ~ In q (all_dups groups) ->
               same_kind (w_fs w' !! q) (w_fs w !! q)) /\
    (forall d, In d (all_dups groups) ->
               exists e, In e entries /\ move_outcome tgt src d (w_fs w) (w_fs w') e) /\
    exists rs, renames (w_trace w') = renames (w_trace w) ++ rs /\
               Forall (fun r => In (fst r) (all_dups groups)) rs.
Proof.
  intros Hg Hsrc Htgt Hd Hnd Hmov Hne. revert log w Hg Hd Hnd Hmov.
  induction Hne as [|[h files] more Hfiles _ IH]; intros log w Hg Hd Hnd Hmov.
  - exists [], w. simpl. rewrite !app_nil_r.
    split; [reflexivity|]. split; [assumption|]. split; [apply dirs_kept_refl|].
    split; [intros; apply same_kind_refl|]. split; [intros d []|].
    exists []. rewrite app_nil_r. split; [reflexivity|constructor].
  - simpl in Hfiles. destruct files as [|original dups]; [congruence|].
    unfold all_paths in Hnd, Hmov. simpl in Hnd, Hmov.
    fold (all_paths more) in Hnd, Hmov.
    apply Forall_cons in Hmov as [Hmo Hmov].
    apply Forall_app in Hmov as [Hmd Hmm].
    inversion Hnd as [|? ? Horig Hnd0]; subst.
    apply NoDup_app_inv in Hnd0 as (Hndd & Hndm & Hdisj).
    destruct (move_dups_outcome tgt src dups (log ++ [original_entry original]) w
                Hg Hsrc Htgt Hd Hndd Hmd)
      as (es & w1 & H1 & Hg1 & Hk1 & Hf1 & Ho1 & rs1 & Hr1 & Hrs1).
    assert (Hsame1 : forall p, In p (all_paths more) ->
              movable src tgt (w_fs w1) p /\ w_fs w1 !! p = w_fs w !! p).
    { intros p Hp. rewrite Forall_forall in Hmm.
      assert (Hmp : movable src tgt (w_fs w) p) by (apply Hmm, list_elem_of_In, Hp).
      apply movable_kept; try assumption.
      apply Hf1; [apply Hmp|]. intros Hin. exact (Hdisj p Hin Hp). }
    assert (Hmm1 : Forall (movable src tgt (w_fs w1)) (all_paths more)).
    { apply Forall_forall. intros p Hp. apply Hsame1, list_elem_of_In, Hp. }
    destruct (IH (((log ++ [original_entry original]) ++ es) ++ [nl]) w1 Hg1
                (is_dir_mono _ _ _ Hk1 Hd) Hndm Hmm1)
      as (entries & w' & H2 & Hg2 & Hk2 & Hf2 & Ho2 & rs2 & Hr2 & Hrs2).
    exists (original_entry original :: es ++ [nl] ++ entries), w'.
    simpl for_each. unfold mbind, M_bind. rewrite move_group_cons, H1, H2.
    rewrite <- !app_assoc. split; [reflexivity|]. split; [assumption|].
    split; [eapply dirs_kept_trans; eassumption|].
    unfold all_dups. simpl. fold (all_dups more).
    split.
    { intros q Hq Hnin. eapply same_kind_trans.
      - apply Hf2; [assumption|]. intros Hin. apply Hnin, in_or_app. auto.
      - apply Hf1; [assumption|]. intros Hin. apply Hnin, in_or_app. auto. }
    split.
    { intros d Hdin. apply in_app_or in Hdin as [Hdin|Hdin].
      - destruct (Forall2_In_l _ _ _ _ Ho1 Hdin) as (e & He & Hout).
        exists e. split; [right; apply in_or_app; auto|].
        rewrite Forall_forall in Hmd.
        destruct (movable_file _ _ _ _ Hsrc (Hmd d (proj2 (list_elem_of_In _ _) Hdin)))
          as (dt & m & Hfd & _).
        eapply move_outcome_later; [eassumption| |eassumption].
        apply Hf2; [apply (Hmd d), list_elem_of_In, Hdin|].
        intros Hin. exact (Hdisj d Hdin (all_dups_subset _ _ Hin)).
      - destruct (Ho2 d Hdin) as (e & He & Hout).
        exists e. split; [right; apply in_or_app; right; right; assumption|].
        eapply move_outcome_earlier; [|exact Hout].
        apply Hsame1, all_dups_subset, Hdin. }
    exists (rs1 ++ rs2). rewrite Hr2, Hr1, <- app_assoc. split; [reflexivity|].
    apply Forall_app. split.
    + eapply Forall_impl; [exact Hrs1|]. intros r Hr. apply in_or_app. auto.
    + eapply Forall_impl; [exact Hrs2|]. intros r Hr. apply in_or_app. auto.
Qed.

Lemma filter_all_gone (fs' : gmap (list string) node) (l : list path) :
  (forall d, In d l -> fs' !! d = None) ->
  filter (fun p => is_Some (fs' !! p)) l = [].
Proof.
  induction l as [|p l IH]; intros H; [reflexivity|].
  rewrite filter_cons_False.
  - apply IH. intros d Hd. apply H. right. assumption.
  - rewrite (H p) by (left; reflexivity). intros [n Hn]. discriminate.
Qed.

(** C2 as amended. For groups of distinct regular files below the source
    root and outside an existing target directory, the relocation returns
    and, for every group: the first path is where it was with its bytes and
    was not moved; every other path has its entry in the log, being gone
    from its source location when the move was done and still there when it
    failed; so the first file alone remains when no move of the group
    failed. *)
Theorem C2_first_kept_others_attempted (w : world) (src target_dir : path)
  (duplicates : dict) :
  w_source_dir w = Some src -> dotfree src -> dotfree target_dir ->
  is_dir (w_fs w) target_dir = true ->
  List.NoDup (all_paths duplicates) ->
  Forall (movable src target_dir (w_fs w)) (all_paths duplicates) ->
  Forall (fun g => snd g <> []) duplicates ->
  relocation_settled target_dir src duplicates w.
Proof.
  intros Hg Hsrc Htgt Hd Hnd Hmov Hne.
  destruct (move_groups_outcome target_dir src duplicates [] w Hg Hsrc Htgt Hd Hnd Hmov Hne)
    as (log & w' & Hrun & _ & _ & Hframe & Hout & moved & Hren & Hmoved).
  exists log, w', moved. split; [exact Hrun|]. split; [exact Hren|].
  apply Forall_forall. intros [h files] Hin. apply list_elem_of_In in Hin. simpl.
  destruct files as [|original dups]; [split; [exact I|reflexivity]|].
  assert (Hsub : forall p, In p (original :: dups) -> In p (all_paths duplicates)).
  { intros p Hp. unfold all_paths. apply in_concat. exists (original :: dups).
    split; [|assumption]. change (original :: dups) with (snd (h, original :: dups)).
    apply in_map. assumption. }
  assert (Hdsub : forall p, In p dups -> In p (all_dups duplicates)).
  { intros p Hp. unfold all_dups. apply in_concat. exists dups.
    split; [|assumption]. change dups with (tl (snd (h, original :: dups))).
    apply (in_map (fun g : string * list path => tl (snd g))). assumption. }
  assert (Horig : ~ In original (all_dups duplicates)).
  { clear - Hnd Hin. unfold all_paths, all_dups in *.
    induction duplicates as [|[h' files'] more IH]; [contradiction|].
    simpl in *. apply NoDup_app_inv in Hnd as (Hf & Hm & Hdisj).
    intros Hd. apply in_app_or in Hd as [Hd|Hd].
    - destruct Hin as [E|Hin'].
      + injection E as -> ->. simpl in Hd. inversion Hf; contradiction.
      + apply (Hdisj original).
        * destruct files' as [|o' d']; [contradiction|]. right. assumption.
        * apply in_concat. exists (original :: dups). split; [|left; reflexivity].
          change (original :: dups) with (snd (h, original :: dups)).
          apply in_map. assumption.
    - destruct Hin as [E|Hin'].
      + injection E as -> ->. apply (Hdisj original); [left; reflexivity|].
        apply (all_dups_subset more). assumption.
      + apply (IH Hm Hin' Hd). }
  rewrite Forall_forall in Hmov.
  assert (Hmo : movable src target_dir (w_fs w) original)
    by (apply Hmov, list_elem_of_In, Hsub; left; reflexivity).
  destruct (movable_file _ _ _ _ Hsrc Hmo) as (dt & m & Hfo & _).
  assert (Hkept : w_fs w' !! original = w_fs w !! original).
  { rewrite Hfo. apply same_kind_file. rewrite <- Hfo.
    apply Hframe; [apply Hmo|assumption]. }
  split; [split; [assumption|split]|].
  - intros Hm. apply in_map_iff in Hm as (r & Hr & Hrin).
    rewrite Forall_forall in Hmoved. apply Horig. rewrite <- Hr.
    apply Hmoved, list_elem_of_In, Hrin.
  - apply Forall_forall. intros d Hdin. apply Hout, Hdsub, list_elem_of_In, Hdin.
  - intros Hnofail. unfold only_first_remains. simpl.
    rewrite filter_cons_True by (rewrite Hkept, Hfo; eauto).
    rewrite take_0. f_equal. apply filter_all_gone. intros d Hdin.
    destruct (Hout d (Hdsub d Hdin)) as (e & He & [[_ Hgone]|(ex & -> & _)]);
      [assumption|].
    destruct (Hnofail d ex Hdin He).
Qed.

Lemma C2_first_kept_others_attempted_witness :
  relocation_settled ["t"] ["s"] Demo.groups Demo.world_ready.
Proof.
  apply (C2_first_kept_others_attempted Demo.world_ready ["s"] ["t"] Demo.groups).
  - reflexivity.
  - repeat constructor; discriminate.
  - repeat constructor; discriminate.
  - vm_compute. reflexivity.
  - repeat constructor; simpl; intuition discriminate.
  - repeat apply Forall_cons_2; try apply Forall_nil_2.
    + split; [exists ["a"; "x.txt"]|split].
      * split; [reflexivity|]. split; [discriminate|]. repeat constructor; discriminate.
      * intros [k Hk]. discriminate.
      * exists (Demo.bytes "hello"), ReadOK. vm_compute. reflexivity.
    + split; [exists ["b"; "x.txt"]|split].
      * split; [reflexivity|]. split; [discriminate|]. repeat constructor; discriminate.
      * intros [k Hk]. discriminate.
      * exists (Demo.bytes "hello"), ReadOK. vm_compute. reflexivity.
  - repeat constructor. discriminate.
Defined.

(** C2 as stated fails: on the demo tree with the regular file [/t/b] in
    the way, the run finds the group of [/s/a/x.txt] and [/s/b/x.txt], the
    move of the second fails, and both files are still in their places. *)
Lemma C2_counterexample :
  fst (find_duplicates ["s"] Demo.world_blocked) = Return Demo.groups /\
  filter (fun p => is_Some (w_fs (snd (cli ["s"] ["t"] Demo.world_blocked)) !! p))
    [["s"; "a"; "x.txt"]; ["s"; "b"; "x.txt"]]
    = [["s"; "a"; "x.txt"]; ["s"; "b"; "x.txt"]] /\
  ~ only_first_remains (w_fs (snd (cli ["s"] ["t"] Demo.world_blocked)))
      [["s"; "a"; "x.txt"]; ["s"; "b"; "x.txt"]].
Proof.
  split; [vm_compute; reflexivity|].
  assert (H : filter (fun p => is_Some (w_fs (snd (cli ["s"] ["t"] Demo.world_blocked)) !! p))
                [["s"; "a"; "x.txt"]; ["s"; "b"; "x.txt"]]
              = [["s"; "a"; "x.txt"]; ["s"; "b"; "x.txt"]])
    by (vm_compute; reflexivity).
  split; [exact H|]. unfold only_first_remains. rewrite H. discriminate.
Qed.

(** *** The traversal has fuel enough *)

Lemma max_depth_ge (fs : gmap (list string) node) (k : path) (n : node) :
  fs !! k = Some n -> length k <= max_depth fs.
Proof.
  unfold max_depth. revert k n.
  apply (map_fold_weak_ind
           (fun r (m : gmap (list string) node) =>
              forall k n, m !! k = Some n -> length k <= r)).
  - intros k n H. rewrite lookup_empty in H. discriminate.
  - intros i x m r Hi IH k n Hk.
    destruct (decide (i = k)) as [->|Hne]; [lia|].
    rewrite lookup_insert_ne in Hk by assumption. specialize (IH k n Hk). lia.
Qed.

Lemma scandir_too_deep (fs : gmap (list string) node) (top : path) :
  dotfree top -> max_depth fs < length top -> exists c, scandir fs top = inl c.
Proof.
  intros Hdf Hlen. unfold scandir.
  destruct (stat fs top) as [c|n] eqn:Hs; [eauto|].
  apply stat_inr in Hs as (r & Hr & Hn).
  pose proof (resolve_dotfree _ _ _ Hr Hdf) as ->.
  apply max_depth_ge in Hn. lia.
Qed.

Lemma flat_map_ext_In {A B} (f g : A -> list B) (l : list A) :
  (forall x, In x l -> f x = g x) -> flat_map f l = flat_map g l.
Proof.
  induction l as [|x l IH]; intros H; simpl; [reflexivity|].
  rewrite (H x) by (left; reflexivity). rewrite IH; [reflexivity|].
  intros y Hy. apply H. right. assumption.
Qed.

(** With more fuel than the depth of the tree below [top], [os_walk] does
    not depend on the fuel: the traversal is never cut short. *)
Lemma os_walk_fuel (fs : gmap (list string) node) (f1 f2 : nat) (top : path) :
  dotfree top ->
  max_depth fs < f1 + length top -> max_depth fs < f2 + length top ->
  os_walk f1 fs top = os_walk f2 fs top.
Proof.
  revert f2 top. induction f1 as [|f1 IH]; intros f2 top Hdf H1 H2.
  - destruct (scandir_too_deep fs top Hdf H1) as [c Hc].
    destruct f2; simpl; [reflexivity|]. rewrite Hc. reflexivity.
  - destruct f2 as [|f2].
    + destruct (scandir_too_deep fs top Hdf H2) as [c Hc]. simpl. rewrite Hc. reflexivity.
    + simpl. destruct (scandir fs top) as [c|names] eqn:Hsc; [reflexivity|].
      f_equal. apply flat_map_ext_In. intros d Hd.
      apply list_elem_of_In, list_elem_of_filter in Hd as [_ Hd].
      assert (Hdot : d <> "." /\ d <> "..").
      { unfold scandir in Hsc. destruct (stat fs top) as [|[|ns]]; try discriminate.
        injection Hsc as <-. apply list_elem_of_filter in Hd as [Hd _]. exact Hd. }
      unfold os_path_join. apply IH.
      * apply dotfree_app. split; [assumption|]. apply Forall_cons. split; [assumption|constructor].
      * rewrite length_app. simpl. lia.
      * rewrite length_app. simpl. lia.
Qed.

Lemma scanned_files_fuel (fs : gmap (list string) node) (source_dir : path) (n : nat) :
  dotfree source_dir -> max_depth fs < n ->
  os_walk n fs source_dir = os_walk (S (max_depth fs)) fs source_dir.
Proof. intros Hdf Hn. apply os_walk_fuel; [assumption|lia|lia]. Qed.

(** *** The run of [move_duplicates] *)

Lemma for_each_app_run {A S} (l1 l2 : list A) (body : A -> S -> M S) (s : S) (w : world) :
  for_each (l1 ++ l2) body s w =
    match for_each l1 body s w with
    | (Return s', w') => for_each l2 body s' w'
    | (Raise e, w') => (Raise e, w')
    end.
Proof.
  revert s w. induction l1 as [|x l1 IH]; intros s w; simpl; [reflexivity|].
  unfold mbind, M_bind. destruct (body x s w) as [[s'|e] w']; [apply IH|reflexivity].
Qed.

Lemma write_log_frame (p : path) (entries : list string) (w : world) (q : path) :
  (forall r, resolve (w_fs w) p = inr r -> q <> r) ->
  same_kind (w_fs (snd (write_log p entries w)) !! q) (w_fs w !! q).
Proof.
  intros Hq. unfold write_log, write_text, write_encoded. mrun.
  destruct (resolve (w_fs w) p) as [c|r] eqn:Hr; simpl; [apply same_kind_refl|].
  specialize (Hq r eq_refl).
  destruct (w_fs w !! r) as [[d m|ns]|] eqn:Hn; simpl;
    try destruct (Text.encode_error _) as [[[bad start] stop]|]; simpl.
  - rewrite lookup_insert_ne by congruence. apply same_kind_refl.
  - rewrite lookup_insert_ne by congruence. apply same_kind_refl.
  - apply same_kind_refl.
  - apply lookup_link_other. assumption.
  - apply lookup_link_other. assumption.
Qed.


Lemma ensure_target_grows tgt w : grows (w_fs w) (w_fs (snd (ensure_target tgt w))).
Proof.
  unfold ensure_target, os_path_exists. mrun.
  destruct (stat (w_fs w) tgt); simpl; [|apply grows_refl].
  apply makedirs_rev_grows.
Qed.

Lemma log_file_dotfree (target_dir : path) (timestamp : string) :
  dotfree target_dir -> dotfree (log_file_of target_dir timestamp).
Proof.
  intros Ht. unfold log_file_of, os_path_join. apply dotfree_app. split; [assumption|].
  apply Forall_cons. split; [|apply Forall_nil_2]. split; discriminate.
Qed.

Lemma total_duplicates_length (duplicates : dict) :
  total_duplicates duplicates = length (all_dups duplicates).
Proof.
  unfold total_duplicates, all_dups. induction duplicates as [|[h g] more IH]; simpl;
    [reflexivity|].
  rewrite length_app, IH. f_equal. destruct g; simpl; lia.
Qed.

Lemma main_eq (source_dir target_dir : path) (w : world) :
  is_dir (w_fs w) source_dir = true ->
  main source_dir target_dir w =
    match find_duplicates source_dir (add_out w (banner source_dir target_dir)) with
    | (Return [], w1) => (Return tt, add_out w1 [msg_no_duplicates])
    | (Return (g :: more), w1) =>
        move_duplicates (g :: more) target_dir
          (add_out w1 [msg_found (total_duplicates (g :: more))])
    | (Raise e, w1) => (Raise e, w1)
    end.
Proof.
  intros Hd. unfold main, mbind, M_bind. simpl. unfold is_dir in Hd |- *. simpl.
  destruct (stat (w_fs w) source_dir) as [c|[d m|names]]; try discriminate. simpl.
  unfold add_out, banner. simpl. rewrite <- !app_assoc. simpl.
  destruct (find_duplicates source_dir _) as [[[|g more]|e] w1]; reflexivity.
Qed.


(** *** The claims about the run *)

(** C3. On the demo tree with a directory at [/t/b/x.txt], the run from the
    command line moves [/s/b/x.txt], prints and logs [/t/b/x.txt] as the
    place it moved it to, and the file is not there: [/t/b/x.txt] is still
    the directory, and the file is inside it, at [/t/b/x.txt/x.txt]. *)
Theorem C3_logged_destination_missed :
  let w := World Demo.fs_dir_taken [] None "2024-01-01_00-00-00" [] in
  let w' := snd (cli ["s"] ["t"] w) in
  let log_file := log_file_of ["t"] "2024-01-01_00-00-00" in
  fst (cli ["s"] ["t"] w) = Return tt /\
  In (msg_moved ["s"; "b"; "x.txt"] ["t"; "b"; "x.txt"]) (w_out w') /\
  option_map string_of_list_byte (content (w_fs w') log_file)
    = Some (str_join nl [original_entry ["s"; "a"; "x.txt"];
                         success_entry ["s"; "b"; "x.txt"] ["t"; "b"; "x.txt"]; nl]) /\
  stat (w_fs w) ["t"; "b"; "x.txt"] = inr (Dir []) /\
  stat (w_fs w') ["t"; "b"; "x.txt"] = inr (Dir ["x.txt"]) /\
  stat (w_fs w') ["t"; "b"; "x.txt"; "x.txt"] = inr (File (Demo.bytes "hello") ReadOK) /\
  stat (w_fs w') ["s"; "b"; "x.txt"] = inl ENOENT.
Proof.
  vm_compute. repeat split; try reflexivity.
  repeat (first [left; reflexivity|right]).
Qed.



(** The run on that tree: the scan finds the two groups, the move of
    [/s/b/x.txt] fails and the file stays, and the moves after it are made,
    in the group and in the next one. *)
Lemma demo_mixed_run :
  let w' := snd (move_duplicates Demo2.groups_mixed ["t"] Demo2.world_mixed) in
  fst (find_duplicates ["s"] Demo2.world_mixed) = Return Demo2.groups_mixed /\
  stat (w_fs w') ["s"; "b"; "x.txt"] = inr (File (Demo.bytes "hello") ReadOK) /\
  stat (w_fs w') ["t"; "c"; "x.txt"] = inr (File (Demo.bytes "hello") ReadOK) /\
  stat (w_fs w') ["s"; "c"; "x.txt"] = inl ENOENT /\
  stat (w_fs w') ["t"; "c"; "y.txt"] = inr (File (Demo.bytes "world") ReadOK) /\
  stat (w_fs w') ["s"; "c"; "y.txt"] = inl ENOENT /\
  option_map string_of_list_byte
    (content (w_fs w') (log_file_of ["t"] "2024-01-01_00-00-00"))
    = Some (str_join nl
              [original_entry ["s"; "a"; "x.txt"];
               failure_entry ["s"; "b"; "x.txt"]
                 (OSError ENOTDIR (Some ["t"; "b"; "x.txt"]) None);
               success_entry ["s"; "c"; "x.txt"] ["t"; "c"; "x.txt"]; nl;
               original_entry ["s"; "a"; "y.txt"];
               success_entry ["s"; "c"; "y.txt"] ["t"; "c"; "y.txt"]; nl]).
Proof. vm_compute. repeat split; reflexivity. Qed.



(** The run of [main] on the demo tree with the global unbound: the scan
    finds the group, the move fails with the [NameError], and the log says
    so. *)
Lemma demo_unbound_run :
  let w' := snd (main ["s"] ["t"] Demo.world0) in
  fst (main ["s"] ["t"] Demo.world0) = Return tt /\
  stat (w_fs w') ["s"; "b"; "x.txt"] = inr (File (Demo.bytes "hello") ReadOK) /\
  scandir (w_fs w') ["t"] = inr ["duplicates_log_2024-01-01_00-00-00.txt"] /\
  option_map string_of_list_byte
    (content (w_fs w') (log_file_of ["t"] "2024-01-01_00-00-00"))
    = Some (str_join nl
              [original_entry ["s"; "a"; "x.txt"];
               ("  无法移动文件: /s/b/x.txt. 错误: name 'source_dir' is not defined"
                ++ nl)%string;
               nl]).
Proof. vm_compute. repeat split; reflexivity. Qed.

(** * Further properties of the code *)

(** *** The hasher *)

(** X1. [compute_hash] on a file that can be read to the end returns the
    MD5 digest of the whole content and prints nothing; the reading loop
    hands the digest the same bytes whatever the positive block size. *)
Theorem X1_compute_hash_whole_content (p : path) (w : world) (d : list byte) (m : io) :
  stat (w_fs w) p = inr (File d m) ->
  reads_through m d ->
  compute_hash p w = (Return (Some (MD5.hexdigest d)), w) /\
  forall bs, 0 < bs -> hash_loop bs (Handle d ReadOK 0) [] = inr d.
Proof.
  intros Hs Hm. split.
  - unfold compute_hash, read_and_hash, open_rb. mrun. rewrite Hs.
    destruct m as [|c|k c]; simpl in Hm; [| contradiction |];
      rewrite hash_loop_spec by apply block_size_pos; simpl; [reflexivity|].
    rewrite decide_False; [reflexivity|]. intros [_ H]. rewrite Nat.sub_0_r in H. lia.
  - intros bs Hbs. rewrite hash_loop_spec by assumption. reflexivity.
Qed.

Lemma X1_compute_hash_whole_content_witness :
  compute_hash ["s"; "a"; "x.txt"] Demo.world0
    = (Return (Some (MD5.hexdigest (Demo.bytes "hello"))), Demo.world0) /\
  forall bs, 0 < bs ->
    hash_loop bs (Handle (Demo.bytes "hello") ReadOK 0) []
      = inr (Demo.bytes "hello").
Proof.
  apply (X1_compute_hash_whole_content ["s"; "a"; "x.txt"] Demo.world0
           (Demo.bytes "hello") ReadOK).
  - vm_compute. reflexivity.
  - exact I.
Defined.

(** *** The scanner *)

(** X2. [find_duplicates] writes nowhere but to standard output: for every
    file system and every source, the file system, the trace of mutations
    and the global [source_dir] are after it what they were before, and the
    output has only grown. *)
Theorem X2_scan_is_read_only (source_dir : path) (w : world) :
  let w' := snd (find_duplicates source_dir w) in
  w_fs w' = w_fs w /\ w_trace w' = w_trace w /\ w_source_dir w' = w_source_dir w /\
  exists lines, w_out w' = w_out w ++ lines.
Proof.
  rewrite find_duplicates_eq. simpl. repeat split. eexists. reflexivity.
Qed.

Lemma hashed_to_app fs h (a b : list path) :
  hashed_to fs h (a ++ b) = hashed_to fs h a ++ hashed_to fs h b.
Proof. unfold hashed_to. apply filter_app. Qed.

Lemma dict_get_append (d : dict) (k h : string) (v : path) :
  dict_get h (dict_append k v d) =
    if decide (h = k) then dict_get k d ++ [v] else dict_get h d.
Proof.
  induction d as [|[k' vs] d IH]; simpl.
  - destruct (decide (h = k)); reflexivity.
  - destruct (decide (k = k')) as [->|Hne]; simpl; [|rewrite IH];
      repeat destruct (decide _); subst; try congruence; reflexivity.
Qed.

Lemma dict_get_In (d : dict) (h : string) (g : list path) :
  List.NoDup (map fst d) -> In (h, g) d -> dict_get h d = g.
Proof.
  induction d as [|[k vs] d IH]; simpl; intros Hnd Hin; [contradiction|].
  inversion Hnd as [|? ? Hnot Hnd']; subst.
  destruct Hin as [E|Hin].
  - injection E as -> ->. rewrite decide_True by reflexivity. reflexivity.
  - destruct (decide (h = k)) as [->|Hne]; [|auto].
    exfalso. apply Hnot. change k with (fst (k, g)). apply in_map. assumption.
Qed.

Lemma dict_get_hash_step fs (d : dict) (p : path) (h : string) :
  h <> "" ->
  dict_get h (hash_step fs d p) = dict_get h d ++ hashed_to fs h [p].
Proof.
  intros Hne. unfold hash_step, hashed_to.
  destruct (hash_of fs p) as [h'|] eqn:Hh.
  - destruct (decide (h' = "")) as [->|Hne'].
    + rewrite filter_cons_False by congruence. rewrite app_nil_r. reflexivity.
    + rewrite dict_get_append. destruct (decide (h = h')) as [->|Hd].
      * rewrite filter_cons_True by assumption. reflexivity.
      * rewrite filter_cons_False by congruence. rewrite app_nil_r. reflexivity.
  - rewrite filter_cons_False by congruence. rewrite app_nil_r. reflexivity.
Qed.

Lemma dict_get_group_paths fs (ps : list path) (d : dict) (h : string) :
  h <> "" ->
  dict_get h (group_paths fs ps d) = dict_get h d ++ hashed_to fs h ps.
Proof.
  intros Hne. revert d. induction ps as [|p ps IH]; intros d; simpl.
  - unfold hashed_to. rewrite filter_nil, app_nil_r. reflexivity.
  - rewrite IH, dict_get_hash_step by assumption.
    change (p :: ps) with ([p] ++ ps). rewrite hashed_to_app, app_assoc. reflexivity.
Qed.

Lemma dict_append_entries k v (d : dict) :
  k <> "" ->
  Forall (fun kv => fst kv <> "" /\ snd kv <> []) d ->
  Forall (fun kv => fst kv <> "" /\ snd kv <> []) (dict_append k v d).
Proof.
  intros Hk. induction d as [|[k' vs] d IH]; simpl; intros Hd.
  - repeat constructor; simpl; [assumption|discriminate].
  - apply Forall_cons in Hd as [[H1 H2] Hd]. destruct (decide (k = k')).
    + apply Forall_cons. split; [|assumption]. simpl in *. split; [assumption|].
      destruct vs; discriminate.
    + apply Forall_cons. split; [split; assumption|]. apply IH. assumption.
Qed.

Lemma group_paths_entries fs (ps : list path) (d : dict) :
  Forall (fun kv => fst kv <> "" /\ snd kv <> []) d ->
  Forall (fun kv => fst kv <> "" /\ snd kv <> []) (group_paths fs ps d).
Proof.
  revert d. induction ps as [|p ps IH]; intros d Hd; simpl; [assumption|].
  apply IH. unfold hash_step. destruct (hash_of fs p) as [h|]; [|assumption].
  destruct (decide (h = "")); [assumption|]. apply dict_append_entries; assumption.
Qed.

Lemma groups_of_scan_group_paths fs (ps : list path) :
  groups_of_scan fs ps (group_paths fs ps []).
Proof.
  assert (Hnd : List.NoDup (map fst (group_paths fs ps [])))
    by (apply group_paths_NoDup; constructor).
  split; [assumption|]. split.
  - intros h g Hin.
    pose proof (group_paths_entries fs ps [] (Forall_nil_2 _)) as He.
    rewrite Forall_forall in He. destruct (He _ (proj2 (list_elem_of_In _ _) Hin)) as [H1 H2].
    simpl in H1, H2. split; [assumption|]. split; [assumption|].
    rewrite <- (dict_get_In _ _ _ Hnd Hin), dict_get_group_paths by assumption.
    reflexivity.
  - intros p h Hp Hh Hne.
    assert (M : member (group_paths fs ps []) h p)
      by (apply member_group_paths; right; auto).
    destruct M as (g & Hg & _). change h with (fst (h, g)). apply in_map. assumption.
Qed.

(** X3. The groups that the scan builds are the classes of the scanned files
    under their digest, each in the order of the traversal: the keys are
    distinct, a group is never empty, and the group of a digest lists the
    scanned files with that digest, first discovered first.  The groups
    that [find_duplicates] returns are those of them with two paths or
    more, in the same order. *)
Theorem X3_groups_in_traversal_order (source_dir : path) (w : world) :
  exists n hashes w',
    scan source_dir w = (Return (n, hashes), w') /\
    groups_of_scan (w_fs w) (scanned_files (w_fs w) source_dir) hashes /\
    find_duplicates source_dir w
      = (Return (filter (fun kv => 1 < length (snd kv)) hashes), w').
Proof.
  eexists _, _, _. split; [apply scan_eq|]. split.
  - apply groups_of_scan_group_paths.
  - apply find_duplicates_eq.
Qed.

Lemma NoDup_keys_filter (P : string * list path -> Prop) `{!forall kv, Decision (P kv)}
  (d : dict) :
  List.NoDup (map fst d) -> List.NoDup (map fst (filter P d)).
Proof.
  induction d as [|kv d IH]; simpl; intros Hnd; [constructor|].
  inversion Hnd as [|? ? Hnot Hnd']; subst.
  destruct (decide (P kv)).
  - rewrite filter_cons_True by assumption. simpl. constructor; [|auto].
    intros Hin. apply Hnot. apply in_map_iff in Hin as (kv' & E & Hin).
    apply in_map_iff. exists kv'. split; [assumption|].
    apply list_elem_of_In. apply list_elem_of_In in Hin.
    apply list_elem_of_filter in Hin as [_ Hin]. assumption.
  - rewrite filter_cons_False by assumption. auto.
Qed.

Lemma hashed_to_In fs h (ps : list path) (p : path) :
  In p (hashed_to fs h ps) <-> In p ps /\ hash_of fs p = Some h.
Proof.
  unfold hashed_to. rewrite <- !list_elem_of_In, list_elem_of_filter. tauto.
Qed.

Lemma hash_of_Some fs p h :
  hash_of fs p = Some h -> exists d m, stat fs p = inr (File d m) /\ h = MD5.hexdigest d.
Proof.
  unfold hash_of. destruct (read_and_hash fs p) as [e|h'] eqn:E; [discriminate|].
  intros [= ->]. apply read_and_hash_ok. assumption.
Qed.

(** X4. [find_duplicates] returns duplicate sets: the keys are distinct,
    every group has two paths or more, every path of a group is a scanned
    regular file whose MD5 digest is the group's key, and no path is in two
    groups. *)
Theorem X4_duplicate_sets (source_dir : path) (w : world) :
  exists duplicates w',
    find_duplicates source_dir w = (Return duplicates, w') /\
    duplicate_sets (w_fs w) (scanned_files (w_fs w) source_dir) duplicates.
Proof.
  eexists _, _. split; [apply find_duplicates_eq|].
  set (ps := scanned_files (w_fs w) source_dir).
  destruct (groups_of_scan_group_paths (w_fs w) ps) as (Hnd & Hgroups & _).
  split; [apply NoDup_keys_filter, Hnd|].
  intros h g Hin. apply filter_groups_In in Hin as [Hin Hlen].
  destruct (Hgroups h g Hin) as (_ & _ & Hg).
  split; [assumption|]. split.
  - intros p Hp. rewrite Hg in Hp. apply hashed_to_In in Hp as [Hp Hh].
    split; [assumption|]. apply hash_of_Some. assumption.
  - intros h' g' p Hin' Hp Hp'. apply filter_groups_In in Hin' as [Hin' _].
    destruct (Hgroups h' g' Hin') as (_ & _ & Hg').
    rewrite Hg in Hp. rewrite Hg' in Hp'.
    apply hashed_to_In in Hp as [_ Hh]. apply hashed_to_In in Hp' as [_ Hh'].
    assert (h' = h) by congruence. subst h'. split; [reflexivity|]. congruence.
Qed.

Lemma scan_lines_all_read fs (n : nat) (ps : list path) :
  (forall p, In p ps -> report_of fs p = []) ->
  scan_lines fs n ps = map msg_progress (progress_marks n (length ps)).
Proof.
  unfold progress_marks. revert n. induction ps as [|p ps IH]; intros n Hall.
  - reflexivity.
  - change (scan_lines fs n (p :: ps))
      with ((if decide (S n mod 100 = 0) then [msg_progress (S n)] else [])
            ++ report_of fs p ++ scan_lines fs (S n) ps).
    change (seq (S n) (length (p :: ps))) with (S n :: seq (S (S n)) (length ps)).
    rewrite (Hall p) by (left; reflexivity).
    rewrite IH by (intros q Hq; apply Hall; right; assumption).
    destruct (decide (S n mod 100 = 0)) as [Hm|Hm].
    + rewrite filter_cons_True by assumption. reflexivity.
    + rewrite filter_cons_False by assumption. reflexivity.
Qed.

(** X5. While scanning files that can all be read, [find_duplicates] prints
    the opening line, one progress line after every hundredth file and no
    other, and the closing line with the number of files. *)
Theorem X5_progress_every_hundred (source_dir : path) (w : world) :
  (forall p, In p (scanned_files (w_fs w) source_dir) ->
             exists h, read_and_hash (w_fs w) p = inr h) ->
  w_out (snd (find_duplicates source_dir w)) =
    w_out w ++ [msg_scan_start source_dir]
      ++ map msg_progress
           (progress_marks 0 (length (scanned_files (w_fs w) source_dir)))
      ++ [msg_scan_done (length (scanned_files (w_fs w) source_dir))].
Proof.
  intros Hall. rewrite find_duplicates_eq. simpl.
  rewrite scan_lines_all_read; [reflexivity|].
  intros p Hp. destruct (Hall p Hp) as [h Hh]. unfold report_of. rewrite Hh. reflexivity.
Qed.

Lemma all_read_sound (fs : gmap (list string) node) (ps : list path) :
  forallb (fun p => match read_and_hash fs p with inr _ => true | inl _ => false end) ps
    = true ->
  forall p, In p ps -> exists h, read_and_hash fs p = inr h.
Proof.
  rewrite forallb_forall. intros H p Hp. specialize (H p Hp).
  destruct (read_and_hash fs p) as [e|h]; [discriminate|eauto].
Qed.

Lemma X5_progress_every_hundred_witness :
  w_out (snd (find_duplicates ["s"] Demo2.world_hundred)) =
    w_out Demo2.world_hundred ++ [msg_scan_start ["s"]]
      ++ map msg_progress [100] ++ [msg_scan_done 100].
Proof.
  assert (H : forall p, In p (scanned_files (w_fs Demo2.world_hundred) ["s"]) ->
                        exists h, read_and_hash (w_fs Demo2.world_hundred) p = inr h).
  { apply all_read_sound. vm_compute. reflexivity. }
  pose proof (X5_progress_every_hundred ["s"] Demo2.world_hundred H) as P.
  vm_compute in P |- *. exact P.
Defined.

(** *** The traversal *)

Lemma files_of_cons top dirs nondirs rest :
  files_of ((top, dirs, nondirs) :: rest)
  = map (fun name => os_path_join top [name]) nondirs ++ files_of rest.
Proof. reflexivity. Qed.

Lemma files_of_flat_map {A} (g : A -> list (path * list string * list string)) (l : list A) :
  files_of (flat_map g l) = flat_map (fun x => files_of (g x)) l.
Proof.
  unfold files_of. induction l as [|x l IH]; simpl; [reflexivity|].
  rewrite flat_map_app, IH. reflexivity.
Qed.

Lemma scandir_names (fs : gmap (list string) node) (top : path) (names : list string)
  (c : string) :
  scandir fs top = inr names -> In c names -> c <> "." /\ c <> "..".
Proof.
  unfold scandir. destruct (stat fs top) as [|[|ns]]; try discriminate.
  intros [= <-] Hin. apply list_elem_of_In, list_elem_of_filter in Hin as [H _]. exact H.
Qed.

Lemma os_walk_S (fuel : nat) (fs : gmap (list string) node) (top : path) :
  os_walk (S fuel) fs top =
    match scandir fs top with
    | inl _ => []
    | inr names =>
        (top, filter (fun c => is_dir fs (top ++ [c]) = true) names,
              filter (fun c => is_dir fs (top ++ [c]) <> true) names)
        :: flat_map (fun d => os_walk fuel fs (os_path_join top [d]))
             (filter (fun c => is_dir fs (top ++ [c]) = true) names)
    end.
Proof. reflexivity. Qed.

(** Every path that the traversal hands over lies below the top, has no
    dots below it, and is not a directory. *)
Lemma os_walk_sound (fuel : nat) (fs : gmap (list string) node) (top p : path) :
  In p (files_of (os_walk fuel fs top)) ->
  under top p /\ is_dir fs p = false.
Proof.
  revert top. induction fuel as [|fuel IH]; intros top Hin; [contradiction|].
  rewrite os_walk_S in Hin. destruct (scandir fs top) as [c|names] eqn:Hsc; [contradiction|].
  rewrite files_of_cons in Hin. apply in_app_or in Hin as [Hin|Hin].
  - apply in_map_iff in Hin as (name & <- & Hname).
    apply list_elem_of_In, list_elem_of_filter in Hname as [Hnd Hname].
    apply list_elem_of_In in Hname.
    split.
    + exists [name]. split; [reflexivity|]. split; [discriminate|].
      apply Forall_cons. split; [eapply scandir_names; eassumption|constructor].
    + unfold os_path_join. destruct (is_dir fs (top ++ [name])); congruence.
  - rewrite files_of_flat_map in Hin. apply in_flat_map in Hin as (d & Hd & Hin).
    apply list_elem_of_In, list_elem_of_filter in Hd as [_ Hd]. apply list_elem_of_In in Hd.
    destruct (IH _ Hin) as [(s & -> & Hne & Hs) Hnd]. split; [|assumption].
    exists (d :: s). unfold os_path_join. rewrite <- app_assoc. split; [reflexivity|].
    split; [discriminate|]. apply Forall_cons. split; [|assumption].
    eapply scandir_names; eassumption.
Qed.

(** X6. Every path that [find_duplicates] hands to the hasher is the source
    directory followed by one component or more, none of them a dot entry,
    and it is not a directory. *)
Theorem X6_scanned_paths_below_source (fs : gmap (list string) node)
  (source_dir p : path) :
  In p (scanned_files fs source_dir) ->
  under source_dir p /\ is_dir fs p = false.
Proof. apply os_walk_sound. Qed.

Lemma X6_scanned_paths_below_source_witness :
  under ["s"] ["s"; "c"; "y.txt"] /\ is_dir Demo.fs ["s"; "c"; "y.txt"] = false.
Proof.
  apply (X6_scanned_paths_below_source Demo.fs ["s"] ["s"; "c"; "y.txt"]).
  vm_compute. auto 10.
Defined.

Lemma namei_app (fs : gmap (list string) node) (cur a b r : path) :
  namei fs cur (a ++ b) = inr r ->
  exists r', namei fs cur a = inr r' /\ namei fs r' b = inr r.
Proof.
  revert cur. induction a as [|c a IH]; intros cur H; simpl in *; [eauto|].
  destruct (fs !! cur) as [[d m|ns]|]; try discriminate.
  destruct (decide (c = ".")); [|destruct (decide (c = ".."))]; apply IH, H.
Qed.

Lemma resolve_prefix (fs : gmap (list string) node) (a b r : path) :
  resolve fs (a ++ b) = inr r -> dotfree a -> resolve fs a = inr a.
Proof.
  intros H Ha. apply namei_app in H as (r' & H & _).
  pose proof (resolve_dotfree _ _ _ H Ha) as ->. exact H.
Qed.

Lemma os_walk_finds (fs : gmap (list string) node) :
  all_listed fs ->
  forall (s top : path) (f : nat) (d : list byte) (m : io),
    dotfree top -> dotfree s -> s <> [] ->
    stat fs (top ++ s) = inr (File d m) ->
    max_depth fs < f + length top ->
    In (top ++ s) (files_of (os_walk f fs top)).
Proof.
  intros Hlisted s. induction s as [|c s' IH]; intros top f d m Htop Hs Hne Hstat Hf;
    [congruence|].
  apply Forall_cons in Hs as [Hc Hs'].
  assert (Hall : dotfree (top ++ c :: s')).
  { apply dotfree_app. split; [assumption|]. apply Forall_cons. auto. }
  apply stat_inr in Hstat as (r & Hr & Hn).
  pose proof (resolve_dotfree _ _ _ Hr Hall) as ->.
  pose proof (max_depth_ge _ _ _ Hn) as Hlen. rewrite length_app in Hlen. simpl in Hlen.
  destruct f as [|f]; [lia|].
  pose proof (namei_prefix_dirs fs [] _ _ Hr Hall) as Hdirs. simpl in Hdirs.
  destruct (Hdirs top) as [names Hnames].
  { exists (c :: s'). reflexivity. }
  { intros E. apply (f_equal length) in E. rewrite length_app in E. simpl in E. lia. }
  pose proof (resolve_prefix _ _ _ _ Hr Htop) as Hrtop.
  assert (Hsc : scandir fs top = inr (filter (fun c => c <> "." /\ c <> "..") names)).
  { unfold scandir. rewrite (stat_of_resolve _ _ _ _ Hrtop Hnames). reflexivity. }
  assert (Hrc : resolve fs (top ++ [c]) = inr (top ++ [c])).
  { apply (resolve_prefix fs (top ++ [c]) s' (top ++ c :: s')).
    - rewrite <- app_assoc. exact Hr.
    - apply dotfree_app. split; [assumption|]. apply Forall_cons. split; [assumption|constructor]. }
  assert (Hnode : exists n, fs !! (top ++ [c]) = Some n /\
                   (s' = [] -> n = File d m) /\ (s' <> [] -> exists ns, n = Dir ns)).
  { destruct s' as [|c' s''].
    - exists (File d m). split; [assumption|]. split; [reflexivity|congruence].
    - destruct (Hdirs (top ++ [c])) as [ns Hns].
      + exists (c' :: s''). rewrite <- app_assoc. reflexivity.
      + intros E. apply (f_equal length) in E. rewrite !length_app in E. simpl in E. lia.
      + exists (Dir ns). split; [assumption|]. split; [discriminate|eauto]. }
  destruct Hnode as (n & Hnode & Hfile & Hdir).
  destruct (Hlisted _ _ _ Hnode) as (names' & Hnames' & Hin).
  rewrite Hnames in Hnames'. injection Hnames' as <-.
  assert (Hcin : c ∈ filter (fun c => c <> "." /\ c <> "..") names).
  { apply list_elem_of_filter. split; [assumption|]. apply list_elem_of_In. assumption. }
  rewrite os_walk_S, Hsc, files_of_cons. apply in_or_app.
  destruct s' as [|c' s''].
  - left. apply in_map_iff. exists c. split; [reflexivity|].
    apply list_elem_of_In, list_elem_of_filter. split; [|assumption].
    unfold is_dir. rewrite (stat_of_resolve _ _ _ _ Hrc Hnode), (Hfile eq_refl).
    discriminate.
  - right. rewrite files_of_flat_map. apply in_flat_map. exists c.
    destruct (Hdir ltac:(discriminate)) as [ns ->].
    split.
    + apply list_elem_of_In, list_elem_of_filter. split; [|assumption].
      unfold is_dir. rewrite (stat_of_resolve _ _ _ _ Hrc Hnode). reflexivity.
    + unfold os_path_join.
      replace (top ++ c :: c' :: s'') with ((top ++ [c]) ++ c' :: s'')
        by (rewrite <- app_assoc; reflexivity).
      apply (IH (top ++ [c]) f d m).
      * apply dotfree_app. split; [assumption|]. apply Forall_cons. split; [assumption|constructor].
      * assumption.
      * discriminate.
      * rewrite <- app_assoc. eapply stat_of_resolve; eassumption.
      * rewrite length_app. simpl. lia.
Qed.

(** X7. In a file system that enters every node in its parent directory,
    every regular file below the source directory is handed to the hasher:
    the traversal misses none, at any depth. *)
Theorem X7_traversal_complete (fs : gmap (list string) node) (source_dir s : path)
  (d : list byte) (m : io) :
  all_listed fs ->
  dotfree source_dir -> dotfree s -> s <> [] ->
  stat fs (source_dir ++ s) = inr (File d m) ->
  In (source_dir ++ s) (scanned_files fs source_dir).
Proof.
  intros Hl Hsrc Hs Hne Hstat.
  apply (os_walk_finds fs Hl s source_dir (S (max_depth fs)) d m); try assumption. lia.
Qed.

Lemma all_listed_b_sound (fs : gmap (list string) node) :
  all_listed_b fs = true -> all_listed fs.
Proof.
  unfold all_listed_b. intros H p c n Hn. rewrite forallb_forall in H.
  apply elem_of_map_to_list, list_elem_of_In in Hn. specialize (H _ Hn). simpl in H.
  rewrite removelast_last, last_last in H.
  destruct (p ++ [c]) eqn:E; [destruct p; discriminate|].
  destruct (fs !! p) as [[d m|names]|]; try discriminate.
  exists names. split; [reflexivity|].
  apply bool_decide_eq_true in H. apply list_elem_of_In. assumption.
Qed.

Lemma names_distinct_b_sound (fs : gmap (list string) node) :
  names_distinct_b fs = true -> names_distinct fs.
Proof.
  unfold names_distinct_b. intros H p names Hn. rewrite forallb_forall in H.
  apply elem_of_map_to_list, list_elem_of_In in Hn. specialize (H _ Hn). simpl in H.
  apply bool_decide_eq_true in H. apply NoDup_ListNoDup. assumption.
Qed.

Lemma X7_traversal_complete_witness :
  In (["s"] ++ ["c"; "y.txt"]) (scanned_files Demo.fs ["s"]).
Proof.
  apply (X7_traversal_complete Demo.fs ["s"] ["c"; "y.txt"] (Demo.bytes "unique") ReadOK).
  - apply all_listed_b_sound. vm_compute. reflexivity.
  - repeat constructor; discriminate.
  - repeat constructor; discriminate.
  - discriminate.
  - vm_compute. reflexivity.
Defined.

Lemma NoDup_map_inj {A B} (f : A -> B) (l : list A) :
  (forall x y, In x l -> In y l -> f x = f y -> x = y) ->
  List.NoDup l -> List.NoDup (map f l).
Proof.
  induction l as [|x l IH]; intros Hinj Hnd; simpl; [constructor|].
  inversion Hnd as [|? ? Hnot Hnd']; subst. constructor.
  - intros Hin. apply in_map_iff in Hin as (y & E & Hy).
    apply Hnot. rewrite (Hinj x y); simpl; auto.
  - apply IH; [|assumption]. intros a b Ha Hb. apply Hinj; simpl; auto.
Qed.

Lemma NoDup_flat_map_disjoint {A B} (g : A -> list B) (l : list A) :
  List.NoDup l ->
  (forall x, In x l -> List.NoDup (g x)) ->
  (forall x y b, In x l -> In y l -> In b (g x) -> In b (g y) -> x = y) ->
  List.NoDup (flat_map g l).
Proof.
  induction l as [|x l IH]; intros Hnd Hg Hdis; simpl; [constructor|].
  inversion Hnd as [|? ? Hnot Hnd']; subst.
  apply List.NoDup_app.
  - apply Hg. left. reflexivity.
  - apply IH; [assumption| |].
    + intros y Hy. apply Hg. right. assumption.
    + intros a b c Ha Hb. apply Hdis; right; assumption.
  - intros b Hb Hb'. apply in_flat_map in Hb' as (y & Hy & Hb').
    apply Hnot. rewrite (Hdis x y b); simpl; auto.
Qed.

Lemma NoDup_filter_list {A} (P : A -> Prop) `{!forall x, Decision (P x)} (l : list A) :
  List.NoDup l -> List.NoDup (filter P l).
Proof. intros Hl. apply NoDup_ListNoDup, NoDup_filter, NoDup_ListNoDup, Hl. Qed.

Lemma scandir_NoDup (fs : gmap (list string) node) (top : path) (names : list string) :
  names_distinct fs -> scandir fs top = inr names -> List.NoDup names.
Proof.
  intros Hd. unfold scandir. destruct (stat fs top) as [c|[d m|ns]] eqn:Hs; try discriminate.
  intros [= <-]. apply stat_inr in Hs as (r & _ & Hn).
  apply NoDup_filter_list. eapply Hd. eassumption.
Qed.

Lemma os_walk_NoDup (fs : gmap (list string) node) :
  names_distinct fs ->
  forall (f : nat) (top : path), List.NoDup (files_of (os_walk f fs top)).
Proof.
  intros Hd f. induction f as [|f IH]; intros top; [constructor|].
  rewrite os_walk_S. destruct (scandir fs top) as [c|names] eqn:Hsc; [constructor|].
  pose proof (scandir_NoDup _ _ _ Hd Hsc) as Hnames.
  rewrite files_of_cons, files_of_flat_map. apply List.NoDup_app.
  - apply NoDup_map_inj; [|apply NoDup_filter_list, Hnames].
    intros x y _ _ E. unfold os_path_join in E. apply app_inv_head in E. congruence.
  - apply NoDup_flat_map_disjoint.
    + apply NoDup_filter_list, Hnames.
    + intros d _. apply IH.
    + intros x y p _ _ Hx Hy.
      apply os_walk_sound in Hx as [(s & E & _) _].
      apply os_walk_sound in Hy as [(s' & E' & _) _].
      rewrite E in E'. unfold os_path_join in E'. rewrite <- !app_assoc in E'.
      apply app_inv_head in E'. simpl in E'. congruence.
  - intros p Hp Hp'. apply in_map_iff in Hp as (name & <- & _).
    apply in_flat_map in Hp' as (d & _ & Hp').
    apply os_walk_sound in Hp' as [(s & E & Hne & _) _].
    unfold os_path_join in E. rewrite <- app_assoc in E. apply app_inv_head in E.
    simpl in E. injection E as _ E. symmetry in E. contradiction.
Qed.

Lemma scanned_files_NoDup (fs : gmap (list string) node) (source_dir : path) :
  names_distinct fs -> List.NoDup (scanned_files fs source_dir).
Proof. intros Hd. apply os_walk_NoDup. assumption. Qed.

(** X8. When no directory lists a name twice, the traversal hands no path
    to the hasher twice. *)
Theorem X8_scanned_once (fs : gmap (list string) node) (source_dir : path) :
  names_distinct fs -> List.NoDup (scanned_files fs source_dir).
Proof. intros Hd. apply os_walk_NoDup. assumption. Qed.

Lemma X8_scanned_once_witness : List.NoDup (scanned_files Demo.fs ["s"]).
Proof.
  apply (X8_scanned_once Demo.fs ["s"]).
  apply names_distinct_b_sound. vm_compute. reflexivity.
Defined.

Lemma all_paths_flat_map (d : dict) : all_paths d = flat_map snd d.
Proof. unfold all_paths. symmetry. apply flat_map_concat_map. Qed.

Lemma In_all_paths (d : dict) (p : path) :
  In p (all_paths d) <-> exists h g, In (h, g) d /\ In p g.
Proof.
  rewrite all_paths_flat_map, in_flat_map. split.
  - intros ([h g] & Hin & Hp). eauto.
  - intros (h & g & Hin & Hp). exists (h, g). auto.
Qed.

Lemma not_under_target (src tgt p : path) :
  ~ tgt `prefix_of` src -> ~ src `prefix_of` tgt -> under src p -> ~ tgt `prefix_of` p.
Proof.
  intros H1 H2 (s & -> & _ & _) Hp.
  destruct (prefix_weak_total tgt src (src ++ s) Hp) as [?|?]; auto.
  exists s. reflexivity.
Qed.

Lemma scan_relocatable (fs : gmap (list string) node) (source_dir target_dir : path) :
  names_distinct fs ->
  dotfree source_dir ->
  ~ target_dir `prefix_of` source_dir -> ~ source_dir `prefix_of` target_dir ->
  relocatable source_dir target_dir fs
    (filter (fun kv => 1 < length (snd kv))
       (group_paths fs (scanned_files fs source_dir) [])).
Proof.
  intros Hd Hsrc Ht1 Ht2.
  set (ps := scanned_files fs source_dir).
  set (hashes := group_paths fs ps []).
  destruct (groups_of_scan_group_paths fs ps) as (Hnd & Hgroups & _).
  fold hashes in Hnd, Hgroups.
  assert (Hps : List.NoDup ps) by (apply scanned_files_NoDup; assumption).
  assert (Hsub : forall h g, In (h, g) (filter (fun kv => 1 < length (snd kv)) hashes) ->
                             In (h, g) hashes /\ 2 <= length g)
    by (intros h g; apply filter_groups_In).
  split; [|split].
  - rewrite all_paths_flat_map. apply NoDup_flat_map_disjoint.
    + eapply NoDup_map_inv. apply NoDup_keys_filter. exact Hnd.
    + intros [h g] Hin. apply Hsub in Hin as [Hin _].
      destruct (Hgroups h g Hin) as (_ & _ & ->). apply NoDup_filter_list, Hps.
    + intros [h g] [h' g'] p Hin Hin' Hp Hp'. simpl in Hp, Hp'.
      apply Hsub in Hin as [Hin _]. apply Hsub in Hin' as [Hin' _].
      destruct (Hgroups h g Hin) as (_ & _ & Hg).
      destruct (Hgroups h' g' Hin') as (_ & _ & Hg').
      rewrite Hg in Hp. rewrite Hg' in Hp'.
      apply hashed_to_In in Hp as [_ Hh]. apply hashed_to_In in Hp' as [_ Hh'].
      assert (h' = h) by congruence. subst h'. f_equal. congruence.
  - apply Forall_forall. intros p Hp. apply list_elem_of_In, In_all_paths in Hp
      as (h & g & Hin & Hp).
    apply Hsub in Hin as [Hin _]. destruct (Hgroups h g Hin) as (_ & _ & Hg).
    rewrite Hg in Hp. apply hashed_to_In in Hp as [Hp Hh].
    destruct (os_walk_sound _ _ _ _ Hp) as [Hund _].
    split; [assumption|]. split; [eapply not_under_target; eassumption|].
    destruct (hash_of_Some _ _ _ Hh) as (d & m & Hs & _). eauto.
  - apply Forall_forall. intros [h g] Hin. apply list_elem_of_In, Hsub in Hin as [_ Hlen].
    simpl. destruct g; [simpl in Hlen; lia|discriminate].
Qed.

(** X9. What [find_duplicates] returns is fit for the relocation: when no
    directory lists a name twice and neither of source and target lies
    inside the other, the paths of the groups are pairwise distinct, each is
    a regular file below the source and not below the target, and no group
    is empty. *)
Theorem X9_scan_output_relocatable (w : world) (source_dir target_dir : path) :
  names_distinct (w_fs w) ->
  dotfree source_dir ->
  ~ target_dir `prefix_of` source_dir -> ~ source_dir `prefix_of` target_dir ->
  exists duplicates w',
    find_duplicates source_dir w = (Return duplicates, w') /\
    w_fs w' = w_fs w /\
    relocatable source_dir target_dir (w_fs w) duplicates.
Proof.
  intros Hd Hsrc Ht1 Ht2. eexists _, _. split; [apply find_duplicates_eq|].
  split; [reflexivity|]. apply scan_relocatable; assumption.
Qed.

Lemma X9_scan_output_relocatable_witness :
  exists duplicates w',
    find_duplicates ["s"] Demo.world0 = (Return duplicates, w') /\
    w_fs w' = w_fs Demo.world0 /\
    relocatable ["s"] ["t"] (w_fs Demo.world0) duplicates.
Proof.
  apply (X9_scan_output_relocatable Demo.world0 ["s"] ["t"]).
  - apply names_distinct_b_sound. vm_compute. reflexivity.
  - repeat constructor; discriminate.
  - intros [k Hk]. discriminate.
  - intros [k Hk]. discriminate.
Defined.

(** *** The relocator and its exceptions *)

(** X10. A group with an empty list of paths aborts [move_duplicates] with
    the [IndexError] of [files[0]]: the groups before it have been
    relocated, the groups after it are not looked at, and the log is not
    written. *)
Theorem X10_empty_group_aborts (before more : dict) (h : string) (target_dir : path)
  (w w0 w1 : world) (log : list string) :
  ensure_target target_dir w = (Return tt, w0) ->
  relocate before target_dir w0 = (Return log, w1) ->
  move_duplicates (before ++ (h, []) :: more) target_dir w = (Raise IndexError, w1).
Proof.
  intros He Hr. unfold move_duplicates, mbind, M_bind. rewrite He.
  unfold strftime_now, relocate in *. rewrite for_each_app_run, Hr. reflexivity.
Qed.

Lemma X10_empty_group_aborts_witness :
  move_duplicates ([] ++ ("d41d8cd98f00b204e9800998ecf8427e", []) :: Demo.groups)
    ["t"] Demo.world_ready = (Raise IndexError, Demo.world_ready).
Proof.
  apply (X10_empty_group_aborts [] Demo.groups "d41d8cd98f00b204e9800998ecf8427e" ["t"]
           Demo.world_ready Demo.world_ready Demo.world_ready []);
    vm_compute; reflexivity.
Defined.

Lemma os_mkdir_raises (p : path) (w : world) (e : exn) (w' : world) :
  os_mkdir p w = (Raise e, w') -> exists c, e = OSError c (Some p) None.
Proof.
  unfold os_mkdir. mrun. destruct (resolve (w_fs w) p) as [c|r]; simpl.
  - intros H. injection H as <- _. eauto.
  - destruct (w_fs w !! r); simpl; intros H; [|discriminate].
    injection H as <- _. eauto.
Qed.

Lemma makedirs_rev_raises (rname : list string) : forall (w : world) (e : exn) (w' : world),
  makedirs_rev rname w = (Raise e, w') -> exists c p, e = OSError c (Some p) None.
Proof.
  induction rname as [|tail rhead IH]; intros w e w'; simpl.
  - intros H. apply os_mkdir_raises in H as [c ->]. eauto.
  - unfold mbind, M_bind. rewrite os_path_exists_eq.
    destruct (stat (w_fs w) (rev rhead)) as [c|n]; cbv beta iota zeta delta [negb].
    + unfold try_except. destruct (makedirs_rev rhead w) as [[[]|ex] w1] eqn:Hrec.
      * destruct (decide (tail = ".")); [discriminate|].
        intros H. apply os_mkdir_raises in H as [c' ->]. eauto.
      * destruct (IH _ _ _ Hrec) as (c' & p & ->).
        destruct c'; unfold raise, mret, M_ret;
          try (intros H; injection H as <- _; eauto).
        destruct (decide (tail = ".")); [discriminate|].
        intros H. apply os_mkdir_raises in H as [c' ->]. eauto.
    + intros H. apply os_mkdir_raises in H as [c' ->]. eauto.
Qed.

(** X11. An error while the target directory is created stops
    [move_duplicates] before any move: the function raises that error, an
    [OSError] naming the directory that could not be made; no group has
    been looked at, nothing has been printed or logged, and the file system
    has only gained directories. *)
Theorem X11_target_creation_error (duplicates : dict) (target_dir : path)
  (w : world) (e : exn) (w0 : world) :
  ensure_target target_dir w = (Raise e, w0) ->
  aborted_before_moves duplicates target_dir w e w0.
Proof.
  intros He. unfold aborted_before_moves.
  pose proof (ensure_target_grows target_dir w) as Hgrow.
  pose proof (ensure_target_env target_dir w) as (Hout & _ & _).
  rewrite He in Hgrow, Hout. simpl in Hgrow, Hout.
  split; [unfold move_duplicates, mbind, M_bind; rewrite He; reflexivity|].
  split; [|split; assumption].
  unfold ensure_target, mbind, M_bind in He. rewrite os_path_exists_eq in He.
  destruct (stat (w_fs w) target_dir); cbv beta iota zeta delta [negb] in He;
    [|discriminate].
  exact (makedirs_rev_raises _ _ _ _ He).
Qed.

Lemma X11_target_creation_error_witness :
  aborted_before_moves Demo.groups ["s"; "c"; "y.txt"; "t"] Demo.world_ready
    (OSError ENOTDIR (Some ["s"; "c"; "y.txt"; "t"]) None) Demo.world_ready.
Proof.
  apply (X11_target_creation_error Demo.groups ["s"; "c"; "y.txt"; "t"] Demo.world_ready).
  vm_compute. reflexivity.
Defined.

Lemma insert_file_dirs_kept (fs : gmap (list string) node) (r : path) (n : node) :
  (forall ns, fs !! r <> Some (Dir ns)) -> dirs_kept fs (link r n fs).
Proof.
  intros Hr q ns Hq. assert (q <> r) by (intros ->; exact (Hr _ Hq)).
  pose proof (lookup_link_other r q n fs H) as K. rewrite Hq in K.
  eapply same_kind_dir, K.
Qed.

(** X12. When its path leads to a free place or to a regular file,
    [write_log] creates or truncates that file and returns normally.  If the
    entries joined by newlines can be encoded in UTF-8, the file then holds
    them, whatever it held, and the line telling where the log is has been
    printed; if they cannot (a name with a byte that is not UTF-8), the file
    is left empty and the [UnicodeEncodeError] is printed.  Every other path
    is as it was. *)
Theorem X12_log_written_or_left_empty (log_file r : path) (entries : list string)
  (w : world) :
  resolve (w_fs w) log_file = inr r ->
  (forall ns, w_fs w !! r <> Some (Dir ns)) ->
  exists w', write_log log_file entries w = (Return tt, w') /\
             log_written log_file r entries w w'.
Proof.
  intros Hr Hnd. unfold write_log, write_text, write_encoded, log_written. mrun.
  rewrite Hr. simpl.
  assert (Hres : forall n, (forall ns, n <> Dir ns) ->
            (w_fs w !! r = None -> stat (link r n (w_fs w)) log_file = inr n) /\
            (is_Some (w_fs w !! r) -> stat (<[r := n]> (w_fs w)) log_file = inr n)).
  { intros n Hn. split; intros Hl.
    - apply (stat_of_resolve _ log_file r n); [|apply lookup_link_same].
      eapply namei_mono; [|exact Hr]. apply insert_file_dirs_kept.
      intros ns. rewrite Hl. discriminate.
    - apply (stat_of_resolve _ log_file r n); [|apply lookup_insert_eq].
      eapply namei_mono; [|exact Hr]. intros q ns Hq.
      exists ns. rewrite lookup_insert_ne; [assumption|].
      intros <-. exact (Hnd _ Hq). }
  destruct (w_fs w !! r) as [[d m|ns]|] eqn:Hn; simpl.
  - destruct (Text.encode_error (str_join nl entries)) as [[[bad start] stop]|];
      simpl; (eexists; split; [reflexivity|]); unfold content; simpl.
    + rewrite (proj2 (Hres (File [] m) ltac:(discriminate))) by eauto.
      split; [split; reflexivity|].
      intros q Hq. rewrite lookup_insert_ne by congruence. apply same_kind_refl.
    + rewrite (proj2 (Hres (File (list_byte_of_string (str_join nl entries)) m)
                        ltac:(discriminate))) by eauto.
      split; [split; reflexivity|].
      intros q Hq. rewrite lookup_insert_ne by congruence. apply same_kind_refl.
  - destruct (Hnd ns). reflexivity.
  - destruct (Text.encode_error (str_join nl entries)) as [[[bad start] stop]|];
      simpl; (eexists; split; [reflexivity|]); unfold content; simpl.
    + rewrite (proj1 (Hres (File [] ReadOK) ltac:(discriminate))) by reflexivity.
      split; [split; reflexivity|].
      intros q Hq. apply lookup_link_other. assumption.
    + rewrite (proj1 (Hres (File (list_byte_of_string (str_join nl entries)) ReadOK)
                        ltac:(discriminate))) by reflexivity.
      split; [split; reflexivity|].
      intros q Hq. apply lookup_link_other. assumption.
Qed.

Lemma X12_log_written_or_left_empty_witness :
  exists w', write_log ["t"; Demo2.log_name] ["a"; "b"] Demo2.world_logged = (Return tt, w') /\
             log_written ["t"; Demo2.log_name] ["t"; Demo2.log_name] ["a"; "b"]
               Demo2.world_logged w'.
Proof.
  apply (X12_log_written_or_left_empty ["t"; Demo2.log_name] ["t"; Demo2.log_name]
           ["a"; "b"] Demo2.world_logged).
  - vm_compute. reflexivity.
  - intros ns. vm_compute. discriminate.
Defined.

(** An entry with a name that is not UTF-8: the log is left empty and the
    error of the encoder is printed. *)
Lemma demo_log_not_encodable :
  let entries := [original_entry ["s"; Demo2.odd_name]; nl] in
  let w' := snd (write_log ["t"; Demo2.log_name] entries Demo2.world_logged) in
  fst (write_log ["t"; Demo2.log_name] entries Demo2.world_logged) = Return tt /\
  content (w_fs w') ["t"; Demo2.log_name] = Some [] /\
  w_out w' =
    ["无法写入日志文件: 'utf-8' codec can't encode character '\udcff' in position 10: surrogates not allowed"].
Proof. vm_compute. repeat split; reflexivity. Qed.

Lemma write_log_fails (log_file : path) (entries : list string) (w : world) :
  (match resolve (w_fs w) log_file with
   | inl _ => True
   | inr r => exists ns, w_fs w !! r = Some (Dir ns)
   end) ->
  exists e, write_log log_file entries w = (Return tt, add_out w [msg_log_failed e]).
Proof.
  intros H. unfold write_log, write_text. mrun.
  destruct (resolve (w_fs w) log_file) as [c|r]; simpl.
  - exists (OSError c (Some log_file) None). reflexivity.
  - destruct H as [ns ->]. exists (OSError EISDIR (Some log_file) None). reflexivity.
Qed.

(** X13. When the log cannot be written, because its path does not resolve
    or leads to a directory, [write_log] catches the error, prints it and
    returns normally; nothing else changes, so the moves already made
    stand. *)
Theorem X13_log_failure_reported (log_file : path) (entries : list string) (w : world) :
  (match resolve (w_fs w) log_file with
   | inl _ => True
   | inr r => exists ns, w_fs w !! r = Some (Dir ns)
   end) ->
  exists e, write_log log_file entries w = (Return tt, add_out w [msg_log_failed e]).
Proof. apply write_log_fails. Qed.

Lemma X13_log_failure_reported_witness :
  exists e, write_log ["t"; Demo2.log_name] ["a"; "b"] Demo2.world_log_dir
            = (Return tt, add_out Demo2.world_log_dir [msg_log_failed e]).
Proof.
  apply (X13_log_failure_reported ["t"; Demo2.log_name] ["a"; "b"] Demo2.world_log_dir).
  exists []. vm_compute. reflexivity.
Defined.

(** X14. With the target equal to the source, the move of a regular file
    below it is a move onto itself: [shutil.move] returns without renaming
    anything, the file stays where it is, and the turn of the loop still
    prints and logs the move as done, with the file's own path as
    destination. *)
Theorem X14_move_onto_itself (src dup : path) (log : list string) (w : world)
  (d : list byte) (m : io) :
  w_source_dir w = Some src ->
  dotfree src -> under src dup ->
  stat (w_fs w) dup = inr (File d m) ->
  move_one src dup log w =
    (Return (log ++ [success_entry dup dup]), add_out w [msg_moved dup dup]).
Proof.
  intros Hg Hsrc Hund Hstat.
  destruct (under_dotfree _ _ Hsrc Hund) as [Hdup Hne].
  assert (Hnp : os_path_join src (relpath dup src) = dup).
  { destruct Hund as (s & -> & Hs & Hds). rewrite relpath_under by assumption. reflexivity. }
  pose proof Hstat as Hstat'. apply stat_inr in Hstat' as (r & Hr & Hn).
  pose proof (resolve_dotfree _ _ _ Hr Hdup) as ->.
  destruct (exists_new_dir _ _ _ Hr Hne) as [ns Hdir].
  assert (Hnot : is_dir (w_fs w) dup = false) by (unfold is_dir; rewrite Hstat; reflexivity).
  assert (Hmove : shutil_move dup dup w = (Return tt, w)).
  { rewrite (shutil_move_file_ok dup dup dup dup d m w Hr Hn).
    - rewrite decide_True by reflexivity. reflexivity.
    - rewrite Hnot. assumption.
    - intros ns'. congruence.
    - congruence. }
  apply move_one_return. unfold move_body, mbind, M_bind, global_source_dir.
  rewrite Hg, Hnp. rewrite os_path_exists_eq, Hdir.
  cbv beta iota zeta delta [negb]. unfold mret at 1, M_ret at 1.
  cbv beta iota. rewrite Hmove. reflexivity.
Qed.

Lemma X14_move_onto_itself_witness :
  move_one ["s"] ["s"; "b"; "x.txt"] [] Demo.world_ready =
    (Return ([] ++ [success_entry ["s"; "b"; "x.txt"] ["s"; "b"; "x.txt"]]),
     add_out Demo.world_ready [msg_moved ["s"; "b"; "x.txt"] ["s"; "b"; "x.txt"]]).
Proof.
  apply (X14_move_onto_itself ["s"] ["s"; "b"; "x.txt"] [] Demo.world_ready
           (Demo.bytes "hello") ReadOK).
  - reflexivity.
  - repeat constructor; discriminate.
  - exists ["b"; "x.txt"]. split; [reflexivity|]. split; [discriminate|].
    repeat constructor; discriminate.
  - vm_compute. reflexivity.
Defined.

(** X15. The relocation leaves the bystanders alone: a path that is not
    below the target and is not one of the duplicates to move (a unique
    file, the first path of a group, a file outside the source) is after
    the relocation what it was before: absent, the same file with the same
    bytes, or a directory. *)
Theorem X15_bystanders_untouched (w : world) (src target_dir : path)
  (duplicates : dict) (q : path) :
  w_source_dir w = Some src -> dotfree src -> dotfree target_dir ->
  is_dir (w_fs w) target_dir = true ->
  relocatable src target_dir (w_fs w) duplicates ->
  ~ target_dir `prefix_of` q -> ~ In q (all_dups duplicates) ->
  same_kind (w_fs (snd (relocate duplicates target_dir w)) !! q) (w_fs w !! q).
Proof.
  intros Hg Hsrc Htgt Hd (Hnd & Hmov & Hne) Hq Hnin.
  destruct (move_groups_outcome target_dir src duplicates [] w Hg Hsrc Htgt Hd Hnd Hmov Hne)
    as (log & w' & Hrun & _ & _ & Hframe & _).
  unfold relocate. rewrite Hrun. simpl. apply Hframe; assumption.
Qed.

Lemma X15_bystanders_untouched_witness :
  same_kind (w_fs (snd (relocate Demo.groups ["t"] Demo.world_ready)) !! ["s"; "c"; "y.txt"])
            (w_fs Demo.world_ready !! ["s"; "c"; "y.txt"]).
Proof.
  apply (X15_bystanders_untouched Demo.world_ready ["s"] ["t"] Demo.groups ["s"; "c"; "y.txt"]).
  - reflexivity.
  - repeat constructor; discriminate.
  - repeat constructor; discriminate.
  - vm_compute. reflexivity.
  - split; [|split].
    + repeat constructor; simpl; intuition discriminate.
    + repeat apply Forall_cons_2; try apply Forall_nil_2.
      * split; [exists ["a"; "x.txt"]|split].
        -- split; [reflexivity|]. split; [discriminate|]. repeat constructor; discriminate.
        -- intros [k Hk]. discriminate.
        -- exists (Demo.bytes "hello"), ReadOK. vm_compute. reflexivity.
      * split; [exists ["b"; "x.txt"]|split].
        -- split; [reflexivity|]. split; [discriminate|]. repeat constructor; discriminate.
        -- intros [k Hk]. discriminate.
        -- exists (Demo.bytes "hello"), ReadOK. vm_compute. reflexivity.
    + repeat constructor. discriminate.
  - intros [k Hk]. discriminate.
  - simpl. intuition discriminate.
Defined.

(** X16. When the source is a directory and the scan finds duplicate
    groups, [main] announces the number of paths after the first of each
    group, the moves that [move_duplicates] is then asked to make, and goes
    on as [move_duplicates] does. *)
Theorem X16_main_announces_moves (source_dir target_dir : path) (w w1 : world)
  (duplicates : dict) :
  is_dir (w_fs w) source_dir = true ->
  find_duplicates source_dir (add_out w (banner source_dir target_dir))
    = (Return duplicates, w1) ->
  duplicates <> [] ->
  main source_dir target_dir w =
    move_duplicates duplicates target_dir
      (add_out w1 [msg_found (length (all_dups duplicates))]).
Proof.
  intros Hd Hfind Hne. rewrite <- total_duplicates_length.
  rewrite main_eq by assumption. rewrite Hfind.
  destruct duplicates as [|g more]; [congruence|]. reflexivity.
Qed.

Lemma X16_main_announces_moves_witness :
  main ["s"] ["t"] Demo.world0 =
    move_duplicates Demo.groups ["t"]
      (add_out (snd (find_duplicates ["s"] (add_out Demo.world0 (banner ["s"] ["t"]))))
         [msg_found (length (all_dups Demo.groups))]).
Proof.
  apply (X16_main_announces_moves ["s"] ["t"] Demo.world0).
  - vm_compute. reflexivity.
  - vm_compute. reflexivity.
  - discriminate.
Defined.

(** X17. Given a source that cannot be listed (missing, or a regular file)
    or a directory without entries, [find_duplicates] raises nothing: it
    returns the empty dictionary and reports that 0 files were processed. *)
Theorem X17_nothing_to_scan (source_dir : path) (w : world) :
  (match scandir (w_fs w) source_dir with
   | inl _ => True
   | inr names => names = []
   end) ->
  find_duplicates source_dir w =
    (Return [], add_out w [msg_scan_start source_dir; msg_scan_done 0]).
Proof.
  intros H. rewrite find_duplicates_eq.
  assert (E : scanned_files (w_fs w) source_dir = []).
  { unfold scanned_files. rewrite os_walk_S.
    destruct (scandir (w_fs w) source_dir) as [c|names]; [reflexivity|].
    subst names. reflexivity. }
  rewrite E. reflexivity.
Qed.

Lemma X17_nothing_to_scan_witness :
  find_duplicates ["s"] Demo2.world_empty =
    (Return [], add_out Demo2.world_empty [msg_scan_start ["s"]; msg_scan_done 0]).
Proof.
  apply (X17_nothing_to_scan ["s"] Demo2.world_empty). vm_compute. reflexivity.
Defined.

(** *** A move to a fresh destination *)

Lemma namei_app_intro (fs : gmap (list string) node) (cur a b r' r : path) :
  namei fs cur a = inr r' -> namei fs r' b = inr r -> namei fs cur (a ++ b) = inr r.
Proof.
  revert cur. induction a as [|c a IH]; intros cur Ha Hb; simpl in *.
  - injection Ha as ->. exact Hb.
  - destruct (fs !! cur) as [[d m|ns]|]; try discriminate.
    destruct (decide (c = ".")); [|destruct (decide (c = ".."))]; eapply IH; eassumption.
Qed.

Lemma is_dir_lookup (fs : gmap (list string) node) (h : path) :
  is_dir fs h = true -> dotfree h ->
  resolve fs h = inr h /\ exists ns, fs !! h = Some (Dir ns).
Proof.
  unfold is_dir. intros H Hh.
  destruct (stat fs h) as [c|[d m|ns]] eqn:Hs; try discriminate.
  apply stat_inr in Hs as (r & Hr & Hn).
  pose proof (resolve_dotfree _ _ _ Hr Hh) as ->. eauto.
Qed.

Lemma is_dir_intro (fs : gmap (list string) node) (p : path) (ns : list string) :
  resolve fs p = inr p -> fs !! p = Some (Dir ns) -> is_dir fs p = true.
Proof. intros Hr Hn. unfold is_dir. rewrite (stat_of_resolve _ _ _ _ Hr Hn). reflexivity. Qed.

Lemma resolve_child (fs : gmap (list string) node) (h : path) (c : string) :
  is_dir fs h = true -> dotfree h -> c <> "." -> c <> ".." ->
  resolve fs (h ++ [c]) = inr (h ++ [c]).
Proof.
  intros Hd Hh H1 H2. destruct (is_dir_lookup _ _ Hd Hh) as (Hr & ns & Hn).
  unfold resolve. eapply namei_app_intro; [exact Hr|].
  simpl. rewrite Hn. rewrite decide_False by assumption.
  rewrite decide_False by assumption. reflexivity.
Qed.

Lemma link_new_dirs_kept (fs : gmap (list string) node) (r : path) (n : node) :
  fs !! r = None -> dirs_kept fs (link r n fs).
Proof.
  intros Hr q ns Hq. assert (q <> r) by congruence.
  pose proof (lookup_link_other r q n fs H) as K. rewrite Hq in K.
  eapply same_kind_dir, K.
Qed.

Lemma os_mkdir_fresh (h : path) (c : string) (w : world) :
  is_dir (w_fs w) h = true -> dotfree h -> c <> "." -> c <> ".." ->
  w_fs w !! (h ++ [c]) = None ->
  exists w',
    os_mkdir (h ++ [c]) w = (Return tt, w') /\
    is_dir (w_fs w') (h ++ [c]) = true /\
    dirs_kept (w_fs w) (w_fs w') /\
    forall q, q <> h ++ [c] -> same_kind (w_fs w' !! q) (w_fs w !! q).
Proof.
  intros Hd Hh H1 H2 Hfree.
  pose proof (resolve_child _ _ _ Hd Hh H1 H2) as Hr.
  exists (set_fs w (link (h ++ [c]) (Dir []) (w_fs w)) (EvMkdir (h ++ [c]))).
  pose proof (link_new_dirs_kept (w_fs w) (h ++ [c]) (Dir []) Hfree) as Hk.
  split; [|split; [|split]].
  - unfold os_mkdir. mrun. rewrite Hr. simpl. rewrite Hfree. reflexivity.
  - simpl. eapply is_dir_intro; [|apply lookup_link_same].
    eapply namei_mono; eassumption.
  - exact Hk.
  - intros q Hq. simpl. apply lookup_link_other. assumption.
Qed.

Lemma makedirs_rev_snoc (head : path) (c : string) (w : world) :
  makedirs_rev (rev (head ++ [c])) w =
    (e ← os_path_exists head;
     if negb e then
       try_except (makedirs_rev (rev head))
         (fun ex => match ex with
                    | OSError EEXIST _ _ => mret tt
                    | _ => raise ex
                    end);;
       if decide (c = ".") then mret tt else os_mkdir (head ++ [c])
     else os_mkdir (head ++ [c])) w.
Proof.
  rewrite rev_app_distr. simpl. rewrite rev_involutive. reflexivity.
Qed.

Lemma stat_absent (fs : gmap (list string) node) (p : path) :
  dotfree p -> fs !! p = None -> exists e, stat fs p = inl e.
Proof.
  intros Hp Hn. unfold stat. destruct (resolve fs p) as [e|r] eqn:Hr; [eauto|].
  pose proof (resolve_dotfree _ _ _ Hr Hp) as ->. rewrite Hn. eauto.
Qed.

(** [os.makedirs] of a path of new names below an existing directory
    succeeds, and touches nothing but the directories it makes. *)
Lemma makedirs_rev_fresh (b : path) (k : path) : forall (w : world),
  k <> [] -> dotfree (b ++ k) -> is_dir (w_fs w) b = true ->
  fresh_below (w_fs w) b k ->
  exists w',
    makedirs_rev (rev (b ++ k)) w = (Return tt, w') /\
    is_dir (w_fs w') (b ++ k) = true /\
    dirs_kept (w_fs w) (w_fs w') /\
    forall q, ~ q `prefix_of` (b ++ k) -> same_kind (w_fs w' !! q) (w_fs w !! q).
Proof.
  induction k as [|c k IH] using rev_ind; intros w Hne Hdf Hd Hfresh; [congruence|].
  rewrite app_assoc in Hdf |- *.
  apply dotfree_app in Hdf as [Hhead Hc]. apply Forall_cons in Hc as [[Hc1 Hc2] _].
  assert (Hlast : w_fs w !! ((b ++ k) ++ [c]) = None).
  { rewrite <- app_assoc. apply Hfresh; [reflexivity|]. destruct k; discriminate. }
  assert (Hnp : forall q, ~ q `prefix_of` (b ++ k) ++ [c] -> q <> (b ++ k) ++ [c]).
  { intros q Hq ->. apply Hq. reflexivity. }
  rewrite makedirs_rev_snoc. unfold mbind, M_bind. rewrite os_path_exists_eq.
  destruct (decide (k = [])) as [->|Hk].
  - rewrite app_nil_r in *.
    destruct (is_dir_lookup _ _ Hd Hhead) as (Hr & ns & Hn).
    rewrite (stat_of_resolve _ _ _ _ Hr Hn). cbv beta iota zeta delta [negb].
    destruct (os_mkdir_fresh b c w Hd Hhead Hc1 Hc2 Hlast) as (w' & Hrun & Hdir & Hkept & Hframe).
    exists w'. repeat split; try assumption. intros q Hq. apply Hframe, Hnp, Hq.
  - assert (Hhd : w_fs w !! (b ++ k) = None).
    { apply Hfresh; [|assumption]. apply prefix_app_r. reflexivity. }
    destruct (stat_absent _ _ Hhead Hhd) as [e He]. rewrite He.
    cbv beta iota zeta delta [negb].
    destruct (IH w Hk Hhead Hd) as (w1 & Hrun1 & Hdir1 & Hkept1 & Hframe1).
    { intros j Hj Hjne. apply Hfresh; [|assumption]. apply prefix_app_r. exact Hj. }
    unfold try_except. rewrite Hrun1. rewrite decide_False by assumption.
    assert (Hlast1 : w_fs w1 !! ((b ++ k) ++ [c]) = None).
    { apply same_kind_none. rewrite <- Hlast. apply Hframe1.
      intros Hp. apply prefix_length in Hp. rewrite !length_app in Hp. simpl in Hp. lia. }
    destruct (os_mkdir_fresh (b ++ k) c w1 Hdir1 Hhead Hc1 Hc2 Hlast1)
      as (w' & Hrun & Hdir & Hkept & Hframe).
    exists w'. repeat split; try assumption.
    + eapply dirs_kept_trans; eassumption.
    + intros q Hq. eapply same_kind_trans; [apply Hframe, Hnp, Hq|].
      apply Hframe1. intros Hp. apply Hq. apply prefix_app_r. exact Hp.
Qed.

(** The preparation of a fresh destination [tgt ++ k0 ++ k1], where
    [tgt ++ k0] is a directory and nothing is below it along [k1]: the
    directory of the destination is there afterwards, the destination
    itself is still free, and nothing else changed but for new
    directories. *)
Lemma prepare_dest_fresh (tgt src k0 k1 : path) (w : world) :
  w_source_dir w = Some src -> dotfree src -> dotfree (tgt ++ k0 ++ k1) -> k1 <> [] ->
  is_dir (w_fs w) (tgt ++ k0) = true ->
  fresh_below (w_fs w) (tgt ++ k0) k1 ->
  exists w2,
    prepare_dest tgt (src ++ k0 ++ k1) w = (Return (tgt ++ k0 ++ k1), w2) /\
    is_dir (w_fs w2) (dirname (tgt ++ k0 ++ k1)) = true /\
    w_fs w2 !! (tgt ++ k0 ++ k1) = None /\
    resolve (w_fs w2) (tgt ++ k0 ++ k1) = inr (tgt ++ k0 ++ k1).
Proof.
  intros Hg Hsrc Hdf Hne Hd Hfresh.
  assert (Hs : dotfree (k0 ++ k1) /\ k0 ++ k1 <> []).
  { apply dotfree_app in Hdf as [_ Hdf]. split; [assumption|].
    intros H. apply app_eq_nil in H as [_ H]. contradiction. }
  destruct Hs as [Hs Hsne].
  assert (Hfree : w_fs w !! (tgt ++ k0 ++ k1) = None).
  { rewrite app_assoc. apply Hfresh; [reflexivity|assumption]. }
  unfold prepare_dest, mbind, M_bind, global_source_dir. rewrite Hg.
  rewrite (relpath_under src (k0 ++ k1) Hsrc Hs Hsne). unfold os_path_join.
  rewrite os_path_exists_eq.
  destruct k1 as [|c k1 _] using rev_ind; [congruence|].
  replace (tgt ++ k0 ++ k1 ++ [c]) with (((tgt ++ k0) ++ k1) ++ [c]) in *
    by (rewrite <- !app_assoc; reflexivity).
  unfold dirname. rewrite removelast_last.
  apply dotfree_app in Hdf as [Hhead Hc]. apply Forall_cons in Hc as [[Hc1 Hc2] _].
  destruct (decide (k1 = [])) as [->|Hk].
  - rewrite app_nil_r in *.
    destruct (is_dir_lookup _ _ Hd Hhead) as (Hr & ns & Hn).
    rewrite (stat_of_resolve _ _ _ _ Hr Hn). cbv beta iota zeta delta [negb].
    exists w. repeat split; try assumption.
    apply resolve_child; assumption.
  - assert (Hhd : w_fs w !! ((tgt ++ k0) ++ k1) = None).
    { apply Hfresh; [|assumption]. apply prefix_app_r. reflexivity. }
    destruct (stat_absent _ _ Hhead Hhd) as [e He]. rewrite He.
    cbv beta iota zeta delta [negb]. unfold os_makedirs.
    destruct (makedirs_rev_fresh (tgt ++ k0) k1 w Hk Hhead Hd)
      as (w2 & Hrun & Hdir & Hkept & Hframe).
    { intros j Hj Hjne. apply Hfresh; [|assumption]. apply prefix_app_r. exact Hj. }
    rewrite Hrun. exists w2. repeat split; try assumption.
    + apply same_kind_none. rewrite <- Hfree. apply Hframe.
      intros Hp. apply prefix_length in Hp. rewrite !length_app in Hp. simpl in Hp. lia.
    + apply resolve_child; assumption.
Qed.

(** X18. A move to a fresh destination succeeds. When the duplicate is the
    regular file [src ++ k0 ++ k1], [target_dir ++ k0] is an existing
    directory and nothing exists below it along [k1], the turn of the loop
    makes the missing directories, moves the file and logs the move: the
    file is then at [target_dir ++ k0 ++ k1] with the same bytes, inside a
    directory, and no longer at its source location. *)
Theorem X18_fresh_destination_moved (target_dir src k0 k1 : path) (log : list string)
  (w : world) (d : list byte) (m : io) :
  w_source_dir w = Some src -> dotfree src -> dotfree (target_dir ++ k0 ++ k1) ->
  k1 <> [] ->
  stat (w_fs w) (src ++ k0 ++ k1) = inr (File d m) ->
  is_dir (w_fs w) (target_dir ++ k0) = true ->
  fresh_below (w_fs w) (target_dir ++ k0) k1 ->
  exists w',
    move_one target_dir (src ++ k0 ++ k1) log w =
      (Return (log ++ [success_entry (src ++ k0 ++ k1) (target_dir ++ k0 ++ k1)]), w') /\
    stat (w_fs w') (target_dir ++ k0 ++ k1) = inr (File d m) /\
    is_dir (w_fs w') (dirname (target_dir ++ k0 ++ k1)) = true /\
    w_fs w' !! (src ++ k0 ++ k1) = None.
Proof.
  intros Hg Hsrc Hdf Hne Hstat Hd Hfresh.
  set (dup := src ++ k0 ++ k1) in *. set (new_path := target_dir ++ k0 ++ k1) in *.
  destruct (prepare_dest_fresh target_dir src k0 k1 w Hg Hsrc Hdf Hne Hd Hfresh)
    as (w2 & Hp & Hdir & Hfree & Hres).
  fold dup new_path in Hp, Hdir, Hfree, Hres.
  destruct (prepare_dest_spec target_dir dup src w Hg) as (r & w2' & Hp' & _ & Hgrow & _ & _).
  rewrite Hp in Hp'. injection Hp' as <- <-.
  assert (Hdup : dotfree dup).
  { apply dotfree_app. split; [assumption|].
    apply dotfree_app in Hdf as [_ Hdf]. exact Hdf. }
  pose proof (stat_mono_file _ _ _ _ _ Hgrow Hstat) as Hstat2.
  apply stat_inr in Hstat2 as (rs & Hrs & Hfs).
  pose proof (resolve_dotfree _ _ _ Hrs Hdup) as ->.
  assert (Hnot : is_dir (w_fs w2) new_path = false).
  { unfold is_dir, stat. rewrite Hres, Hfree. reflexivity. }
  assert (Hdiff : dup <> new_path) by congruence.
  assert (Hmove : shutil_move dup new_path w2 =
            (Return tt, set_fs w2 (link new_path (File d m) (unlink dup (w_fs w2)))
                          (EvRename dup new_path))).
  { rewrite (shutil_move_file_ok dup new_path dup new_path d m w2 Hrs Hfs).
    - rewrite decide_False by assumption. reflexivity.
    - rewrite Hnot. assumption.
    - intros ns. rewrite Hfree. discriminate.
    - intros _. assumption. }
  assert (Hkept : dirs_kept (w_fs w2) (link new_path (File d m) (unlink dup (w_fs w2)))).
  { eapply rename_dirs_kept; [eassumption|]. intros ns. rewrite Hfree. discriminate. }
  eexists. split; [|split; [|split]].
  - apply move_one_return. rewrite move_body_split, Hp, Hmove. reflexivity.
  - simpl. eapply stat_of_resolve; [|apply lookup_link_same].
    eapply namei_mono; eassumption.
  - simpl. eapply is_dir_mono; eassumption.
  - simpl. apply same_kind_none. rewrite <- (lookup_unlink_same dup (w_fs w2)).
    apply lookup_link_other. assumption.
Qed.

Lemma X18_fresh_destination_moved_witness :
  exists w',
    move_one ["t"] (["s"] ++ [] ++ ["a"; "b"; "x.txt"]) [] Demo2.world_deep =
      (Return ([] ++ [success_entry (["s"] ++ [] ++ ["a"; "b"; "x.txt"])
                        (["t"] ++ [] ++ ["a"; "b"; "x.txt"])]), w') /\
    stat (w_fs w') (["t"] ++ [] ++ ["a"; "b"; "x.txt"])
      = inr (File (Demo.bytes "hello") ReadOK) /\
    is_dir (w_fs w') (dirname (["t"] ++ [] ++ ["a"; "b"; "x.txt"])) = true /\
    w_fs w' !! (["s"] ++ [] ++ ["a"; "b"; "x.txt"]) = None.
Proof.
  apply (X18_fresh_destination_moved ["t"] ["s"] [] ["a"; "b"; "x.txt"] []
           Demo2.world_deep (Demo.bytes "hello") ReadOK).
  - reflexivity.
  - repeat constructor; discriminate.
  - repeat constructor; discriminate.
  - discriminate.
  - vm_compute. reflexivity.
  - vm_compute. reflexivity.
  - intros j Hj Hne. destruct Hj as [k Hk].
    destruct j as [|c1 [|c2 [|c3 [|c4 j]]]]; [congruence| | | |discriminate];
      injection Hk as <-; try subst; try (injection H as <-); try subst;
      vm_compute; reflexivity.
Defined.

(** *** A target that is a regular file *)

Lemma namei_through_file (fs : gmap (list string) node) (cur a b r : path)
  (d : list byte) (m : io) :
  namei fs cur a = inr r -> fs !! r = Some (File d m) -> b <> [] ->
  namei fs cur (a ++ b) = inl ENOTDIR.
Proof.
  revert cur. induction a as [|c a IH]; intros cur Ha Hr Hb; simpl in *.
  - injection Ha as ->. destruct b as [|c b]; [congruence|]. simpl. rewrite Hr. reflexivity.
  - destruct (fs !! cur) as [[d' m'|ns]|]; try discriminate.
    destruct (decide (c = ".")); [|destruct (decide (c = ".."))]; eapply IH; eassumption.
Qed.

Lemma resolve_below_file (fs : gmap (list string) node) (tgt k : path)
  (d : list byte) (m : io) :
  stat fs tgt = inr (File d m) -> k <> [] -> resolve fs (tgt ++ k) = inl ENOTDIR.
Proof.
  intros Hs Hk. apply stat_inr in Hs as (r & Hr & Hn).
  eapply namei_through_file; eassumption.
Qed.

Lemma makedirs_rev_below_file (tgt k : path) (d : list byte) (m : io) (w : world) :
  stat (w_fs w) tgt = inr (File d m) -> k <> [] ->
  exists p, makedirs_rev (rev (tgt ++ k)) w = (Raise (OSError ENOTDIR (Some p) None), w).
Proof.
  intros Hs. induction k as [|c k IH] using rev_ind; intros Hk; [congruence|].
  rewrite app_assoc, makedirs_rev_snoc. unfold mbind, M_bind.
  rewrite os_path_exists_eq.
  assert (Hmk : os_mkdir ((tgt ++ k) ++ [c]) w
                = (Raise (OSError ENOTDIR (Some ((tgt ++ k) ++ [c])) None), w)).
  { unfold os_mkdir. mrun. rewrite <- app_assoc.
    rewrite (resolve_below_file _ tgt (k ++ [c]) d m Hs) by (destruct k; discriminate).
    reflexivity. }
  destruct (decide (k = [])) as [->|Hne].
  - rewrite app_nil_r in *. rewrite Hs. cbv beta iota zeta delta [negb]. eauto.
  - unfold stat. rewrite (resolve_below_file _ tgt k d m Hs Hne).
    cbv beta iota zeta delta [negb]. destruct (IH Hne) as [p Hp].
    unfold try_except. rewrite Hp. exists p. reflexivity.
Qed.

Lemma move_one_file_target (tgt dup : path) (log : list string) (w : world)
  (d d' : list byte) (m m' : io) :
  stat (w_fs w) tgt = inr (File d' m') ->
  stat (w_fs w) dup = inr (File d m) ->
  exists e, move_one tgt dup log w =
              (Return (log ++ [failure_entry dup e]), add_out w [msg_not_moved dup e]).
Proof.
  intros Ht Hdup.
  destruct (w_source_dir w) as [src|] eqn:Hg;
    [|eexists; apply move_one_unbound; assumption].
  assert (Hb : exists e, move_body tgt dup log w = (Raise e, w)).
  { rewrite move_body_split.
    unfold prepare_dest, mbind, M_bind, global_source_dir. rewrite Hg.
    rewrite os_path_exists_eq. unfold os_path_join.
    pose proof (relpath_nonempty dup src) as Hrel.
    destruct (relpath dup src) as [|c k _] using rev_ind; [congruence|].
    rewrite app_assoc. unfold dirname. rewrite removelast_last.
    destruct (decide (k = [])) as [->|Hne].
    - rewrite app_nil_r. rewrite Ht. cbv beta iota zeta delta [negb].
      unfold mret, M_ret.
      assert (Hr : resolve (w_fs w) (tgt ++ [c]) = inl ENOTDIR).
      { apply (resolve_below_file _ tgt [c] d' m' Ht). discriminate. }
      apply stat_inr in Hdup as Hd2. destruct Hd2 as (rs & Hrs & Hfs).
      destruct (shutil_move_file dup (tgt ++ [c]) rs d m w Hrs Hfs)
        as [[e He]|(rd & Hrd & _)].
      + rewrite He. eauto.
      + assert (Hnd : is_dir (w_fs w) (tgt ++ [c]) = false).
        { unfold is_dir, stat. rewrite Hr. reflexivity. }
        rewrite Hnd in Hrd. congruence.
    - unfold stat at 1. rewrite (resolve_below_file _ tgt k d' m' Ht Hne).
      cbv beta iota zeta delta [negb]. unfold os_makedirs.
      destruct (makedirs_rev_below_file tgt k d' m' w Ht Hne) as [p Hp].
      rewrite Hp. eauto. }
  destruct Hb as [e Hb]. exists e. apply move_one_raise, Hb.
Qed.

Lemma move_dups_file_target (tgt : path) (dups : list path) (d' : list byte) (m' : io) :
  forall (log : list string) (w : world),
  stat (w_fs w) tgt = inr (File d' m') ->
  Forall (fun p => exists d m, stat (w_fs w) p = inr (File d m)) dups ->
  exists log' lines, for_each dups (move_one tgt) log w = (Return log', add_out w lines).
Proof.
  induction dups as [|dup dups IH]; intros log w Ht Hf; simpl.
  - exists log, []. rewrite add_out_nil. reflexivity.
  - apply Forall_cons in Hf as [(d & m & Hdup) Hf].
    destruct (move_one_file_target tgt dup log w d d' m m' Ht Hdup) as [e He].
    unfold mbind, M_bind. rewrite He.
    destruct (IH (log ++ [failure_entry dup e]) (add_out w [msg_not_moved dup e]) Ht Hf)
      as (log' & lines & Hrun).
    rewrite Hrun. exists log', ([msg_not_moved dup e] ++ lines).
    rewrite add_out_app. reflexivity.
Qed.

Lemma move_groups_file_target (tgt : path) (duplicates : dict) (d' : list byte) (m' : io) :
  forall (log : list string) (w : world),
  stat (w_fs w) tgt = inr (File d' m') ->
  Forall (fun g => snd g <> []) duplicates ->
  Forall (fun p => exists d m, stat (w_fs w) p = inr (File d m)) (all_dups duplicates) ->
  exists log' lines,
    for_each duplicates (move_group tgt) log w = (Return log', add_out w lines).
Proof.
  induction duplicates as [|[h files] duplicates IH]; intros log w Ht Hne Hf; simpl.
  - exists log, []. rewrite add_out_nil. reflexivity.
  - apply Forall_cons in Hne as [Hfiles Hne]. simpl in Hfiles.
    destruct files as [|original dups]; [congruence|].
    unfold all_dups in Hf. simpl in Hf. apply Forall_app in Hf as [Hf1 Hf2].
    unfold mbind, M_bind. rewrite move_group_cons.
    destruct (move_dups_file_target tgt dups d' m' (log ++ [original_entry original]) w Ht Hf1)
      as (log1 & lines1 & Hrun1).
    rewrite Hrun1.
    destruct (IH (log1 ++ [nl]) (add_out w lines1) Ht Hne Hf2) as (log' & lines & Hrun).
    rewrite Hrun. exists log', (lines1 ++ lines). rewrite add_out_app. reflexivity.
Qed.

(** X19. When the target path is an existing regular file,
    [move_duplicates] does not try to create it, every move of a regular
    file fails and is caught, and the log cannot be written: the function
    returns normally having only printed, with every file where it was. *)
Theorem X19_target_is_a_file (duplicates : dict) (target_dir : path) (w : world)
  (d' : list byte) (m' : io) :
  stat (w_fs w) target_dir = inr (File d' m') ->
  Forall (fun g => snd g <> []) duplicates ->
  Forall (fun p => exists d m, stat (w_fs w) p = inr (File d m)) (all_dups duplicates) ->
  exists lines,
    move_duplicates duplicates target_dir w = (Return tt, add_out w lines).
Proof.
  intros Ht Hne Hf. unfold move_duplicates, ensure_target, mbind, M_bind.
  rewrite os_path_exists_eq, Ht. cbv beta iota zeta delta [negb].
  unfold mret, M_ret, strftime_now, relocate.
  destruct (move_groups_file_target target_dir duplicates d' m' [] w Ht Hne Hf)
    as (log' & lines & Hrun).
  rewrite Hrun.
  destruct (write_log_fails (log_file_of target_dir (w_now w)) log' (add_out w lines))
    as [e He].
  { unfold log_file_of, os_path_join. simpl.
    rewrite (resolve_below_file _ target_dir _ d' m' Ht) by discriminate. exact I. }
  simpl in He. rewrite He. exists (lines ++ [msg_log_failed e]).
  rewrite add_out_app. reflexivity.
Qed.

Lemma X19_target_is_a_file_witness :
  exists lines,
    move_duplicates Demo.groups ["s"; "c"; "y.txt"] Demo.world_ready
      = (Return tt, add_out Demo.world_ready lines).
Proof.
  apply (X19_target_is_a_file Demo.groups ["s"; "c"; "y.txt"] Demo.world_ready
           (Demo.bytes "unique") ReadOK).
  - vm_compute. reflexivity.
  - repeat constructor. discriminate.
  - apply Forall_cons. split; [|apply Forall_nil_2].
    exists (Demo.bytes "hello"), ReadOK. vm_compute. reflexivity.
Defined.

(** X20. A missing target is created with its missing parents before any
    move: when [b] is an existing directory and nothing exists below it
    along [k], the first step of [move_duplicates] returns normally with
    [b ++ k] a directory, and changes no path other than the prefixes of
    the target. *)
Theorem X20_missing_target_created (b k : path) (w : world) :
  k <> [] -> dotfree (b ++ k) -> is_dir (w_fs w) b = true ->
  fresh_below (w_fs w) b k ->
  exists w',
    ensure_target (b ++ k) w = (Return tt, w') /\
    is_dir (w_fs w') (b ++ k) = true /\
    forall q, ~ q `prefix_of` (b ++ k) -> same_kind (w_fs w' !! q) (w_fs w !! q).
Proof.
  intros Hk Hdf Hd Hfresh.
  destruct (makedirs_rev_fresh b k w Hk Hdf Hd Hfresh) as (w' & Hrun & Hdir & _ & Hframe).
  exists w'. split; [|split; assumption].
  unfold ensure_target, mbind, M_bind. rewrite os_path_exists_eq.
  assert (Hn : w_fs w !! (b ++ k) = None) by (apply Hfresh; [reflexivity|assumption]).
  destruct (stat_absent _ _ Hdf Hn) as [e ->]. cbv beta iota zeta delta [negb].
  exact Hrun.
Qed.

Lemma X20_missing_target_created_witness :
  exists w',
    ensure_target ([] ++ ["t"; "u"]) Demo.world0 = (Return tt, w') /\
    is_dir (w_fs w') ([] ++ ["t"; "u"]) = true /\
    forall q, ~ q `prefix_of` ([] ++ ["t"; "u"]) ->
              same_kind (w_fs w' !! q) (w_fs Demo.world0 !! q).
Proof.
  apply (X20_missing_target_created [] ["t"; "u"] Demo.world0).
  - discriminate.
  - repeat constructor; discriminate.
  - vm_compute. reflexivity.
  - intros j Hj Hne. destruct Hj as [k' Hk'].
    destruct j as [|c1 [|c2 [|c3 j]]]; [congruence| | |discriminate];
      injection Hk' as <-; try subst; vm_compute; reflexivity.
Defined.

(** *** A run from the command line *)

Lemma normpath_go_out (p acc : path) : dotfree acc -> dotfree (normpath_go acc p).
Proof.
  revert acc. induction p as [|c p IH]; intros acc Hacc; simpl; [assumption|].
  destruct (decide (c = ".")); [apply IH, Hacc|].
  destruct (decide (c = "..")); [apply IH, dotfree_removelast, Hacc|].
  apply IH, dotfree_app. split; [assumption|].
  apply Forall_cons. split; [auto|apply Forall_nil_2].
Qed.

Lemma normpath_out (p : path) : dotfree (normpath p).
Proof. apply normpath_go_out. apply Forall_nil_2. Qed.

(** X21. A run from the command line, whose arguments the command-line
    block normalises, with source and target two directories neither inside
    the other, in a file system where no directory lists a name twice,
    touches only the duplicates and the target: every path outside the
    target that is not after the first in a group the scan found is what it
    was, and every path after the first in a group is either gone from its
    place or the file it was. *)
Theorem X21_command_line_run (source target : path) (w : world) :
  names_distinct (w_fs w) ->
  ~ normpath target `prefix_of` normpath source ->
  ~ normpath source `prefix_of` normpath target ->
  is_dir (w_fs w) (normpath source) = true ->
  is_dir (w_fs w) (normpath target) = true ->
  exists duplicates,
    fst (find_duplicates (normpath source) w) = Return duplicates /\
    (forall q, ~ normpath target `prefix_of` q -> ~ In q (all_dups duplicates) ->
               same_kind (w_fs (snd (cli source target w)) !! q) (w_fs w !! q)) /\
    (forall d, In d (all_dups duplicates) ->
               w_fs (snd (cli source target w)) !! d = None \/
               w_fs (snd (cli source target w)) !! d = w_fs w !! d).
Proof.
  pose proof (normpath_out source) as Hsrc. pose proof (normpath_out target) as Htgt.
  unfold cli, mbind, M_bind, set_global_source_dir.
  generalize dependent (normpath target). generalize dependent (normpath source).
  clear source target. intros source Hsrc target Htgt Hnd Ht1 Ht2 Hds Hdt.
  set (duplicates := filter (fun kv => 1 < length (snd kv))
                       (group_paths (w_fs w) (scanned_files (w_fs w) source) [])).
  pose proof (scan_relocatable (w_fs w) source target Hnd Hsrc Ht1 Ht2) as Hrel.
  fold duplicates in Hrel.
  exists duplicates.
  assert (Hfst : fst (find_duplicates source w) = Return duplicates)
    by (rewrite find_duplicates_eq; reflexivity).
  set (w0 := World (w_fs w) (w_out w) (Some source) (w_now w) (w_trace w)).
  rewrite (main_eq source target w0 Hds).
  rewrite (find_duplicates_eq source (add_out w0 (banner source target))).
  change (w_fs (add_out w0 (banner source target))) with (w_fs w).
  cbv zeta. fold duplicates.
  destruct duplicates as [|g more] eqn:Hdups.
  { split; [assumption|].
    split; [intros; apply same_kind_refl|intros d []]. }
  rewrite <- Hdups in *. clear Hdups.
  match goal with
  | |- context [move_duplicates duplicates target ?x] => set (w2 := x)
  end.
  destruct Hrel as (Hnodup & Hmov & Hne).
  destruct (move_groups_outcome target source duplicates [] w2 eq_refl Hsrc Htgt Hdt
              Hnodup Hmov Hne)
    as (log & w3 & Hrun & _ & Hkept & Hframe & Hout & _).
  assert (Hmd : move_duplicates duplicates target w2
                = write_log (log_file_of target (w_now w)) log w3).
  { unfold move_duplicates, ensure_target, mbind, M_bind.
    rewrite os_path_exists_eq.
    destruct (is_dir_lookup _ _ Hdt Htgt) as (Hr & ns & Hn).
    change (w_fs w2) with (w_fs w). rewrite (stat_of_resolve _ _ _ _ Hr Hn).
    cbv beta iota zeta delta [negb]. unfold mret, M_ret, strftime_now, relocate.
    rewrite Hrun. reflexivity. }
  rewrite Hmd.
  assert (Hlog : forall q, ~ target `prefix_of` q ->
            same_kind (w_fs (snd (write_log (log_file_of target (w_now w)) log w3)) !! q)
                      (w_fs w3 !! q)).
  { intros q Hq. apply write_log_frame. intros r Hr ->.
    pose proof (resolve_dotfree _ _ _ Hr (log_file_dotfree target (w_now w) Htgt)) as ->.
    apply Hq. unfold log_file_of, os_path_join. apply prefix_app_r. reflexivity. }
  split; [assumption|]. split.
  - intros q Hq Hnin. eapply same_kind_trans; [apply Hlog, Hq|].
    apply (Hframe q Hq Hnin).
  - intros d Hd.
    assert (Hin : In d (all_paths duplicates)) by (eapply all_dups_subset; eassumption).
    pose proof (proj1 (Forall_forall _ _) Hmov d (proj2 (list_elem_of_In _ _) Hin)) as Hm.
    destruct (movable_file _ _ _ _ Hsrc Hm) as (dd & m & Hfile & _).
    destruct Hm as (_ & Hnt & _).
    specialize (Hlog d Hnt).
    destruct (Hout d Hd) as (e & _ & [[_ Hgone]|(ex & _ & Hstay)]).
    + left. rewrite Hgone in Hlog. apply same_kind_none, Hlog.
    + right. change (w_fs w2) with (w_fs w) in Hstay. rewrite Hstay, Hfile in Hlog.
      rewrite Hfile. apply same_kind_file, Hlog.
Qed.

Lemma X21_command_line_run_witness :
  exists duplicates,
    fst (find_duplicates (normpath ["s"; "."; "a"; ".."]) Demo.world_ready)
      = Return duplicates /\
    (forall q, ~ normpath ["t"; ".."; "t"] `prefix_of` q -> ~ In q (all_dups duplicates) ->
               same_kind
                 (w_fs (snd (cli ["s"; "."; "a"; ".."] ["t"; ".."; "t"] Demo.world_ready)) !! q)
                 (w_fs Demo.world_ready !! q)) /\
    (forall d, In d (all_dups duplicates) ->
               w_fs (snd (cli ["s"; "."; "a"; ".."] ["t"; ".."; "t"] Demo.world_ready)) !! d
                 = None \/
               w_fs (snd (cli ["s"; "."; "a"; ".."] ["t"; ".."; "t"] Demo.world_ready)) !! d
                 = w_fs Demo.world_ready !! d).
Proof.
  apply (X21_command_line_run ["s"; "."; "a"; ".."] ["t"; ".."; "t"] Demo.world_ready).
  - apply names_distinct_b_sound. vm_compute. reflexivity.
  - intros [k Hk]. vm_compute in Hk. discriminate.
  - intros [k Hk]. vm_compute in Hk. discriminate.
  - vm_compute. reflexivity.
  - vm_compute. reflexivity.
Defined.

(** *** A destination that is not a directory *)

Lemma makedirs_rev_frame (rname : list string) : forall (w : world) (q : path),
  dotfree (rev rname) -> ~ q `prefix_of` rev rname ->
  same_kind (w_fs (snd (makedirs_rev rname w)) !! q) (w_fs w !! q).
Proof.
  induction rname as [|tail rhead IH]; intros w q Hn Hq.
  - simpl. apply os_mkdir_frame; [assumption|]. intros ->. apply Hq. reflexivity.
  - simpl in Hn. assert (Hname := Hn). apply dotfree_app in Hn as [Hhead Htail].
    apply Forall_cons in Htail as [[Hdot _] _].
    assert (Hqn : q <> rev rhead ++ [tail]) by (intros ->; apply Hq; reflexivity).
    assert (Hqh : ~ q `prefix_of` rev rhead).
    { intros Hp. apply Hq. simpl. apply prefix_app_r. exact Hp. }
    simpl. unfold mbind, M_bind. rewrite os_path_exists_eq.
    destruct (stat (w_fs w) (rev rhead)) as [c|n]; cbv beta iota zeta delta [negb];
      [|apply os_mkdir_frame; assumption].
    unfold try_except. pose proof (IH w q Hhead Hqh) as Hrec.
    destruct (makedirs_rev rhead w) as [[[]|ex] w1]; simpl in Hrec.
    + rewrite decide_False by assumption.
      eapply same_kind_trans; [|exact Hrec]. apply os_mkdir_frame; assumption.
    + destruct ex as [[] p p2|msg|name|codec bad start stop reason|]; try exact Hrec.
      unfold mret, M_ret. rewrite decide_False by assumption.
      eapply same_kind_trans; [|exact Hrec]. apply os_mkdir_frame; assumption.
Qed.

Lemma prepare_dest_keeps_dest (tgt dup src : path) (w : world) :
  w_source_dir w = Some src ->
  dotfree (os_path_join tgt (relpath dup src)) ->
  same_kind
    (w_fs (snd (prepare_dest tgt dup w)) !! os_path_join tgt (relpath dup src))
    (w_fs w !! os_path_join tgt (relpath dup src)).
Proof.
  intros Hg Hdf. set (new_path := os_path_join tgt (relpath dup src)) in *.
  assert (Hne : new_path <> []).
  { unfold new_path, os_path_join. intros H. apply app_eq_nil in H as [_ H].
    exact (relpath_nonempty _ _ H). }
  unfold prepare_dest, mbind, M_bind, global_source_dir. rewrite Hg.
  fold new_path. rewrite os_path_exists_eq.
  destruct (stat (w_fs w) (dirname new_path)) as [c|n]; cbv beta iota zeta delta [negb];
    [|apply same_kind_refl].
  unfold os_makedirs.
  pose proof (makedirs_rev_frame (rev (dirname new_path)) w new_path) as Hf.
  rewrite rev_involutive in Hf.
  destruct (makedirs_rev (rev (dirname new_path)) w) as [[[]|ex] w1]; simpl in *;
    apply Hf; try (apply dotfree_removelast; assumption);
    intros Hp; apply prefix_length in Hp; unfold dirname in Hp;
    destruct new_path as [|c0 rest] using rev_ind; try congruence;
    rewrite removelast_last, length_app in Hp; simpl in Hp; lia.
Qed.

(** X22. A move that succeeds puts the file where the log says, when no
    directory is in that place: for a regular file below the source whose
    computed destination is not a directory, a turn of the loop that went
    through has logged the relative path joined onto the target, and the
    file is at that path with its bytes. *)
Theorem X22_destination_reached (target_dir src s : path) (log : list string)
  (w : world) (d : list byte) (m : io) (log' : list string) (w' : world) :
  w_source_dir w = Some src ->
  dotfree src -> dotfree (target_dir ++ s) -> s <> [] ->
  stat (w_fs w) (src ++ s) = inr (File d m) ->
  (forall ns, w_fs w !! (target_dir ++ s) <> Some (Dir ns)) ->
  move_body target_dir (src ++ s) log w = (Return log', w') ->
  log' = log ++ [success_entry (src ++ s) (target_dir ++ s)] /\
  stat (w_fs w') (target_dir ++ s) = inr (File d m).
Proof.
  intros Hg Hsrc Hdf Hs Hstat Hnd Hmove.
  assert (Hsdf : dotfree s) by (apply dotfree_app in Hdf as [_ H]; exact H).
  pose proof (destination_of_move_holds _ _ _ _ _ _ _ _ _ Hg Hstat Hmove) as Hdest.
  pose proof (prepare_dest_keeps_dest target_dir (src ++ s) src w Hg) as Hkeep.
  unfold destination_of_move in Hdest.
  rewrite (relpath_under src s Hsrc Hsdf Hs) in Hdest, Hkeep.
  unfold os_path_join in Hdest, Hkeep. specialize (Hkeep Hdf).
  destruct Hdest as (Hlog & w2 & Hp & [[_ Hat]|[Hdir _]]).
  - split; assumption.
  - exfalso. rewrite Hp in Hkeep. simpl in Hkeep.
    destruct (is_dir_lookup _ _ Hdir Hdf) as (_ & ns & Hn).
    rewrite Hn in Hkeep.
    destruct (w_fs w !! (target_dir ++ s)) as [[d' m'|ns']|] eqn:Hw;
      simpl in Hkeep; try contradiction.
    exact (Hnd ns' eq_refl).
Qed.

Lemma X22_destination_reached_witness :
  [success_entry (["s"] ++ ["b"; "x.txt"]) (["t"] ++ ["b"; "x.txt"])]
    = [] ++ [success_entry (["s"] ++ ["b"; "x.txt"]) (["t"] ++ ["b"; "x.txt"])] /\
  stat (w_fs (snd (move_body ["t"] (["s"] ++ ["b"; "x.txt"]) [] Demo.world_taken)))
       (["t"] ++ ["b"; "x.txt"])
    = inr (File (Demo.bytes "hello") ReadOK).
Proof.
  apply (X22_destination_reached ["t"] ["s"] ["b"; "x.txt"] [] Demo.world_taken
           (Demo.bytes "hello") ReadOK).
  - reflexivity.
  - repeat constructor; discriminate.
  - repeat constructor; discriminate.
  - discriminate.
  - vm_compute. reflexivity.
  - intros ns. vm_compute. discriminate.
  - vm_compute. reflexivity.
Defined.
